(** * The edge access-control gateway of wasla (worker.js)

    A shallow embedding of the Cloudflare Worker that gates the paid
    courses: HMAC-signed session cookies, the login handler, the
    fixed-window rate limiter and the ratings cache with invalidation.

    JavaScript strings are sequences of UTF-16 code units, numbers are
    the integers the worker computes with (timestamps, counters, course
    ids), and everything the worker awaits (the shared cache, the remote
    Apps Script authority) is threaded through an explicit [world].
    JavaScript holds an integer exactly up to 2^53 in magnitude: the
    statements that depend on how a number is read or printed take it in
    that range.

    One invocation of a handler runs at one instant: every [Date.now()]
    it makes reads the same [now] (in milliseconds), and requests are
    handled one after the other.  Built-ins of the runtime whose results
    the worker only passes along are the fields of [Platform]; the ones
    it depends on in detail ([btoa], [atob], [parseInt], [TextEncoder],
    [JSON.stringify], [String], [trim], [split], ...) are defined
    here after their standards.

    Beside the worker, the development covers the code of the pages that
    talk to it: the ratings module ([RatingSystem]) with its cache and
    its retries, the reading of the course id in the address of the
    course page, and the escaping helpers ([Utils]). *)

From Stdlib Require Import ZArith List String Ascii Bool Lia Sorted.
From Stdlib Require Import DecimalString DecimalZ.
From Stdlib.Strings Require Import Byte.
From stdpp Require Import gmap.

Local Open Scope Z_scope.

(** ** JavaScript strings *)

(** A string value: its UTF-16 code units. *)
Abbreviation jsstring := (list Z).

(** An ASCII literal as a JavaScript string. *)
Definition js (s : string) : jsstring :=
  map (fun a => Z.of_N (N_of_ascii a)) (list_ascii_of_string s).

(** WhiteSpace and LineTerminator code units: what [trim], [\s] and the
    leading-blank skipping of [parseInt] all recognise. *)
Definition is_whitespace (c : Z) : bool :=
  (c =? 9) || (c =? 10) || (c =? 11) || (c =? 12) || (c =? 13) || (c =? 32)
  || (c =? 160) || (c =? 5760) || ((8192 <=? c) && (c <=? 8202))
  || (c =? 8232) || (c =? 8233) || (c =? 8239) || (c =? 8287)
  || (c =? 12288) || (c =? 65279).

Fixpoint trimStart (s : jsstring) : jsstring :=
  match s with
  | c :: r => if is_whitespace c then trimStart r else s
  | [] => []
  end.

Definition trimEnd (s : jsstring) : jsstring := rev (trimStart (rev s)).

Definition trim (s : jsstring) : jsstring := trimEnd (trimStart s).

(** [s.split(sep)] for a one-character separator. *)
Fixpoint split (sep : Z) (s : jsstring) : list jsstring :=
  match s with
  | [] => [[]]
  | c :: r =>
      if c =? sep then [] :: split sep r
      else match split sep r with
           | p :: ps => (c :: p) :: ps
           | [] => [[c]]
           end
  end.

(** [parts.join(sep)]. *)
Fixpoint join (sep : jsstring) (parts : list jsstring) : jsstring :=
  match parts with
  | [] => []
  | [p] => p
  | p :: ps => p ++ sep ++ join sep ps
  end.

(** [s.lastIndexOf(c)]; [None] stands for -1. *)
Fixpoint lastIndexOf (c : Z) (s : jsstring) : option nat :=
  match s with
  | [] => None
  | x :: r =>
      match lastIndexOf c r with
      | Some i => Some (S i)
      | None => if x =? c then Some O else None
      end
  end.

(** [a === b] on strings. *)
Definition jsstring_eqb (a b : jsstring) : bool := bool_decide (a = b).

(** [s.startsWith(prefix)]. *)
Fixpoint startsWith (prefix s : jsstring) : bool :=
  match prefix, s with
  | [], _ => true
  | p :: ps, c :: r => (p =? c) && startsWith ps r
  | _ :: _, [] => false
  end.

(** [hay.includes(needle)]. *)
Fixpoint includes (needle hay : jsstring) : bool :=
  startsWith needle hay ||
  match hay with
  | [] => false
  | _ :: r => includes needle r
  end.

(** [String(n)] for an integer [n]: its decimal digits.  This is what
    JavaScript prints for the integers it holds exactly, those of
    magnitude at most 2^53; beyond, a number is a rounded double, printed
    with the fewest digits that identify it and, from 10^21 on, in
    exponent notation. *)
Definition String_of_Z (n : Z) : jsstring :=
  js (NilZero.string_of_int (Z.to_int n)).

Definition is_digit (c : Z) : bool := (48 <=? c) && (c <=? 57).

Fixpoint digits_prefix (s : jsstring) : list Z :=
  match s with
  | c :: r => if is_digit c then (c - 48) :: digits_prefix r else []
  | [] => []
  end.

Definition digits_value (ds : list Z) : Z :=
  fold_left (fun acc d => 10 * acc + d) ds 0.

(** [parseInt(s, 10)]: skip leading blanks, read a sign, then the longest
    run of decimal digits; [None] stands for NaN.  The value is the exact
    integer, which is what JavaScript computes up to 2^53 (beyond, it
    rounds to the nearest double). *)
Definition parseInt (s : jsstring) : option Z :=
  let s1 := trimStart s in
  let '(sign, s2) :=
    match s1 with
    | c :: r =>
        if c =? 45 then (-1, r) else if c =? 43 then (1, r) else (1, s1)
    | [] => (1, s1)
    end in
  match digits_prefix s2 with
  | [] => None
  | d :: ds => Some (sign * digits_value (d :: ds))
  end.

(** ** Bytes, hexadecimal and UTF-8 *)

Definition byte_of_Z (z : Z) : byte :=
  match Byte.of_N (Z.to_N (z mod 256)) with
  | Some b => b
  | None => x00
  end.

Definition Z_of_byte (b : byte) : Z := Z.of_N (Byte.to_N b).

(** One lower-case hexadecimal digit. *)
Definition hex_digit (d : Z) : Z := if d <? 10 then 48 + d else 87 + d.

(** [b.toString(16).padStart(2, '0')] for a byte [b]. *)
Definition hex_byte (b : byte) : jsstring :=
  [hex_digit (Z_of_byte b / 16); hex_digit (Z_of_byte b mod 16)].

Definition is_high_surrogate (c : Z) : bool := (55296 <=? c) && (c <=? 56319).
Definition is_low_surrogate (c : Z) : bool := (56320 <=? c) && (c <=? 57343).

(** The UTF-8 bytes of one code point. *)
Definition utf8_code_point (cp : Z) : list byte :=
  if cp <? 128 then [byte_of_Z cp]
  else if cp <? 2048 then
    [byte_of_Z (192 + cp / 64); byte_of_Z (128 + cp mod 64)]
  else if cp <? 65536 then
    [byte_of_Z (224 + cp / 4096); byte_of_Z (128 + (cp / 64) mod 64);
     byte_of_Z (128 + cp mod 64)]
  else
    [byte_of_Z (240 + cp / 262144); byte_of_Z (128 + (cp / 4096) mod 64);
     byte_of_Z (128 + (cp / 64) mod 64); byte_of_Z (128 + cp mod 64)].

(** [new TextEncoder().encode(s)]: surrogate pairs are combined, an
    unpaired surrogate is encoded as U+FFFD. *)
Fixpoint TextEncoder_encode (s : jsstring) : list byte :=
  match s with
  | [] => []
  | c :: r =>
      if is_high_surrogate c then
        match r with
        | d :: r' =>
            if is_low_surrogate d
            then utf8_code_point (65536 + (c - 55296) * 1024 + (d - 56320))
                   ++ TextEncoder_encode r'
            else utf8_code_point 65533 ++ TextEncoder_encode r
        | [] => utf8_code_point 65533
        end
      else if is_low_surrogate c then utf8_code_point 65533 ++ TextEncoder_encode r
      else utf8_code_point c ++ TextEncoder_encode r
  end.

(** ** Base64: [btoa] and [atob] *)

(** The character of a six-bit value in the base64 alphabet. *)
Definition b64_char (v : Z) : Z :=
  if v <? 26 then 65 + v
  else if v <? 52 then 97 + (v - 26)
  else if v <? 62 then 48 + (v - 52)
  else if v =? 62 then 43
  else 47.

(** The six-bit value of a base64 character. *)
Definition b64_index (c : Z) : option Z :=
  if (65 <=? c) && (c <=? 90) then Some (c - 65)
  else if (97 <=? c) && (c <=? 122) then Some (c - 97 + 26)
  else if (48 <=? c) && (c <=? 57) then Some (c - 48 + 52)
  else if c =? 43 then Some 62
  else if c =? 47 then Some 63
  else None.

Fixpoint b64_encode (bytes : list Z) : jsstring :=
  match bytes with
  | [] => []
  | [a] => [b64_char (a / 4); b64_char (a mod 4 * 16); 61; 61]
  | [a; b] =>
      [b64_char (a / 4); b64_char (a mod 4 * 16 + b / 16);
       b64_char (b mod 16 * 4); 61]
  | a :: b :: c :: r =>
      [b64_char (a / 4); b64_char (a mod 4 * 16 + b / 16);
       b64_char (b mod 16 * 4 + c / 64); b64_char (c mod 64)]
        ++ b64_encode r
  end.

(** [btoa(s)]: [None] is the InvalidCharacterError thrown when a code
    unit is above U+00FF. *)
Definition btoa (s : jsstring) : option jsstring :=
  if forallb (fun c => (0 <=? c) && (c <=? 255)) s
  then Some (b64_encode s) else None.

Fixpoint b64_decode (sextets : list Z) : list Z :=
  match sextets with
  | a :: b :: c :: d :: r =>
      [a * 4 + b / 16; b mod 16 * 16 + c / 4; c mod 4 * 64 + d]
        ++ b64_decode r
  | [a; b; c] => [a * 4 + b / 16; b mod 16 * 16 + c / 4]
  | [a; b] => [a * 4 + b / 16]
  | _ => []
  end.

Definition is_ascii_whitespace (c : Z) : bool :=
  (c =? 9) || (c =? 10) || (c =? 12) || (c =? 13) || (c =? 32).

(** Drops one or two trailing [=] of a string whose length is a multiple
    of four. *)
Definition strip_padding (s : jsstring) : jsstring :=
  if (Z.of_nat (length s) mod 4 =? 0) then
    match rev s with
    | c1 :: r1 =>
        if c1 =? 61 then
          match r1 with
          | c2 :: r2 => if c2 =? 61 then rev r2 else rev r1
          | [] => rev r1
          end
        else s
    | [] => s
    end
  else s.

Fixpoint b64_indices (s : jsstring) : option (list Z) :=
  match s with
  | [] => Some []
  | c :: r =>
      match b64_index c, b64_indices r with
      | Some v, Some vs => Some (v :: vs)
      | _, _ => None
      end
  end.

(** [atob(s)], the forgiving base64 decoder; [None] is the exception it
    throws on malformed input. *)
Definition atob (s : jsstring) : option jsstring :=
  let data :=
    strip_padding (List.filter (fun c => negb (is_ascii_whitespace c)) s) in
  if Z.of_nat (length data) mod 4 =? 1 then None
  else option_map b64_decode (b64_indices data).

(** ** HMAC-SHA256, the Web Crypto primitive behind the signer

    SHA-256 as in FIPS 180-4 on 32-bit words kept in [Z], and HMAC as in
    RFC 2104.  This is the reference instance of what
    [crypto.subtle.sign('HMAC', key, data)] computes. *)

Module SHA256.

Definition w32 (x : Z) : Z := x mod 4294967296.

Definition rotr (n x : Z) : Z :=
  Z.lor (Z.shiftr x n) (w32 (Z.shiftl x (32 - n))).

Definition Ch (x y z : Z) : Z :=
  Z.lxor (Z.land x y) (Z.land (Z.lxor x 4294967295) z).

Definition Maj (x y z : Z) : Z :=
  Z.lxor (Z.lxor (Z.land x y) (Z.land x z)) (Z.land y z).

Definition Sigma0 (x : Z) : Z := Z.lxor (Z.lxor (rotr 2 x) (rotr 13 x)) (rotr 22 x).
Definition Sigma1 (x : Z) : Z := Z.lxor (Z.lxor (rotr 6 x) (rotr 11 x)) (rotr 25 x).
Definition sigma0 (x : Z) : Z := Z.lxor (Z.lxor (rotr 7 x) (rotr 18 x)) (Z.shiftr x 3).
Definition sigma1 (x : Z) : Z := Z.lxor (Z.lxor (rotr 17 x) (rotr 19 x)) (Z.shiftr x 10).

Definition K : list Z :=
  [
   1116352408; 1899447441; 3049323471; 3921009573;
   961987163; 1508970993; 2453635748; 2870763221;
   3624381080; 310598401; 607225278; 1426881987;
   1925078388; 2162078206; 2614888103; 3248222580;
   3835390401; 4022224774; 264347078; 604807628;
   770255983; 1249150122; 1555081692; 1996064986;
   2554220882; 2821834349; 2952996808; 3210313671;
   3336571891; 3584528711; 113926993; 338241895;
   666307205; 773529912; 1294757372; 1396182291;
   1695183700; 1986661051; 2177026350; 2456956037;
   2730485921; 2820302411; 3259730800; 3345764771;
   3516065817; 3600352804; 4094571909; 275423344;
   430227734; 506948616; 659060556; 883997877;
   958139571; 1322822218; 1537002063; 1747873779;
   1955562222; 2024104815; 2227730452; 2361852424;
   2428436474; 2756734187; 3204031479; 3329325298 ].

Definition H0 : list Z :=
  [
   1779033703; 3144134277; 1013904242; 2773480762;
   1359893119; 2600822924; 528734635; 1541459225 ].

(** The next word of the message schedule from the last sixteen. *)
Definition next_w (ws : list Z) : Z :=
  w32 (sigma1 (nth 14 ws 0) + nth 9 ws 0 + sigma0 (nth 1 ws 0) + nth 0 ws 0).

Fixpoint rounds (ks ws st : list Z) : list Z :=
  match ks, st with
  | k :: ks', [a; b; c; d; e; f; g; h] =>
      let t1 := w32 (h + Sigma1 e + Ch e f g + k + nth 0 ws 0) in
      let t2 := w32 (Sigma0 a + Maj a b c) in
      rounds ks' (tl ws ++ [next_w ws])
        [w32 (t1 + t2); a; b; c; w32 (d + t1); e; f; g]
  | _, _ => st
  end.

Fixpoint be_words (bytes : list Z) : list Z :=
  match bytes with
  | a :: b :: c :: d :: r =>
      (((a * 256 + b) * 256 + c) * 256 + d) :: be_words r
  | _ => []
  end.

Definition compress (h block : list Z) : list Z :=
  map (fun p => w32 (fst p + snd p)) (combine h (rounds K (be_words block) h)).

Fixpoint blocks (n : nat) (h bytes : list Z) : list Z :=
  match n with
  | O => h
  | S n' => blocks n' (compress h (firstn 64 bytes)) (skipn 64 bytes)
  end.

Definition be_bytes (width : nat) (x : Z) : list Z :=
  map (fun i => (x / 256 ^ Z.of_nat i) mod 256) (rev (seq 0 width)).

Definition pad (bytes : list Z) : list Z :=
  let len := Z.of_nat (length bytes) in
  bytes ++ [128] ++ repeat 0 (Z.to_nat ((55 - len) mod 64)) ++ be_bytes 8 (8 * len).

Definition sha256 (bytes : list Z) : list Z :=
  let padded := pad bytes in
  flat_map (be_bytes 4) (blocks (Nat.div (length padded) 64) H0 padded).

Definition hmac (key msg : list Z) : list Z :=
  let k0 := if (64 <? Z.of_nat (length key)) then sha256 key else key in
  let k := k0 ++ repeat 0 (64 - length k0)%nat in
  sha256 (map (Z.lxor 92) k ++ sha256 (map (Z.lxor 54) k ++ msg)).

End SHA256.

(** [crypto.subtle.sign] with an HMAC SHA-256 key, on bytes. *)
Definition hmac_sha256_ref (key msg : list byte) : list byte :=
  map byte_of_Z (SHA256.hmac (map Z_of_byte key) (map Z_of_byte msg)).

(** ** JSON values and the coercions the worker applies to them *)

(** What [JSON.parse] returns.  Numbers are integers: timestamps, counters
    and course ids are; a fractional number has no counterpart here, so
    that nothing is stated about a text that holds one.
    An object lists its own properties in property order. *)
#[warnings="-register-all"]
Inductive json : Type :=
| JNull
| JBool (b : bool)
| JNum (n : Z)
| JStr (s : jsstring)
| JArr (items : list json)
| JObj (props : list (jsstring * json)).

(** The result of reading a property: a value or [undefined]. *)
Inductive jsval : Type :=
| Undefined
| Val (v : json).

Fixpoint assoc (k : jsstring) (props : list (jsstring * json)) : option json :=
  match props with
  | [] => None
  | (k', v) :: r => if jsstring_eqb k k' then Some v else assoc k r
  end.

(** [v.k] for the property names the worker reads (exp, courseId, email,
    password, rating, valid, driveUrl, status), none of which a built-in
    prototype defines.  [None] is the TypeError of reading a property of
    [null]. *)
Definition get_prop (v : json) (k : jsstring) : option jsval :=
  match v with
  | JNull => None
  | JObj props =>
      Some (match assoc k props with Some x => Val x | None => Undefined end)
  | _ => Some Undefined
  end.

(** ToBoolean. *)
Definition truthy (v : json) : bool :=
  match v with
  | JNull => false
  | JBool b => b
  | JNum n => negb (n =? 0)
  | JStr s => match s with [] => false | _ => true end
  | JArr _ | JObj _ => true
  end.

Definition truthy_val (v : jsval) : bool :=
  match v with
  | Undefined => false
  | Val x => truthy x
  end.

(** [String(v)].  A number prints as [String_of_Z] has it, which is
    exact for the integers of magnitude at most 2^53.  An array joins
    its elements with commas, [null] elements contributing nothing; a
    plain object prints as [[object Object]], unless an own property
    shadows [toString], in which case the conversion throws ([None]). *)
Fixpoint ToString (v : json) : option jsstring :=
  match v with
  | JNull => Some (js "null")
  | JBool true => Some (js "true")
  | JBool false => Some (js "false")
  | JNum n => Some (String_of_Z n)
  | JStr s => Some s
  | JArr items =>
      (fix join_items (l : list json) : option jsstring :=
         match l with
         | [] => Some []
         | x :: r =>
             let elem := match x with JNull => Some [] | _ => ToString x end in
             match r with
             | [] => elem
             | _ :: _ =>
                 match elem, join_items r with
                 | Some e, Some rest => Some (e ++ js "," ++ rest)
                 | _, _ => None
                 end
             end
         end) items
  | JObj props =>
      match assoc (js "toString") props with
      | Some _ => None
      | None => Some (js "[object Object]")
      end
  end.

Definition ToString_val (v : jsval) : option jsstring :=
  match v with
  | Undefined => Some (js "undefined")
  | Val x => ToString x
  end.

(** ** [JSON.stringify] *)

Definition hex4 (c : Z) : jsstring :=
  [hex_digit (c / 4096 mod 16); hex_digit (c / 256 mod 16);
   hex_digit (c / 16 mod 16); hex_digit (c mod 16)].

Definition unicode_escape (c : Z) : jsstring := [92; 117] ++ hex4 c.

(** The escape of one code unit that is not part of a surrogate pair. *)
Definition quote_unit (c : Z) : jsstring :=
  if c =? 8 then [92; 98]
  else if c =? 9 then [92; 116]
  else if c =? 10 then [92; 110]
  else if c =? 12 then [92; 102]
  else if c =? 13 then [92; 114]
  else if c =? 34 then [92; 34]
  else if c =? 92 then [92; 92]
  else if c <? 32 then unicode_escape c
  else if is_high_surrogate c || is_low_surrogate c then unicode_escape c
  else [c].

Fixpoint quote_units (s : jsstring) : jsstring :=
  match s with
  | [] => []
  | c :: r =>
      if is_high_surrogate c then
        match r with
        | d :: r' =>
            if is_low_surrogate d then c :: d :: quote_units r'
            else quote_unit c ++ quote_units r
        | [] => quote_unit c
        end
      else quote_unit c ++ quote_units r
  end.

(** QuoteJSONString. *)
Definition quote (s : jsstring) : jsstring := [34] ++ quote_units s ++ [34].

Fixpoint JSON_stringify (v : json) : jsstring :=
  match v with
  | JNull => js "null"
  | JBool true => js "true"
  | JBool false => js "false"
  | JNum n => String_of_Z n
  | JStr s => quote s
  | JArr items => js "[" ++ join (js ",") (map JSON_stringify items) ++ js "]"
  | JObj props =>
      js "{" ++ join (js ",")
        (map (fun kv => match kv with
                        | (k, x) => quote k ++ js ":" ++ JSON_stringify x
                        end) props) ++ js "}"
  end.

(** ** A reference [JSON.parse]

    A recursive-descent reader of the JSON grammar, restricted to integer
    number literals (a literal with a fraction or an exponent is
    rejected, as it has no value in [json]).  A repeated key keeps its
    first position and its last value. *)

Fixpoint skip_ws (s : jsstring) : jsstring :=
  match s with
  | c :: r =>
      if (c =? 32) || (c =? 9) || (c =? 10) || (c =? 13) then skip_ws r else s
  | [] => []
  end.

Definition hex_value (c : Z) : option Z :=
  if is_digit c then Some (c - 48)
  else if (97 <=? c) && (c <=? 102) then Some (c - 87)
  else if (65 <=? c) && (c <=? 70) then Some (c - 55)
  else None.

Definition simple_escape (e : Z) : option Z :=
  if e =? 34 then Some 34
  else if e =? 92 then Some 92
  else if e =? 47 then Some 47
  else if e =? 98 then Some 8
  else if e =? 102 then Some 12
  else if e =? 110 then Some 10
  else if e =? 114 then Some 13
  else if e =? 116 then Some 9
  else None.

(** The characters of a string literal after its opening quote, and what
    follows the closing quote. *)
Fixpoint read_string (s : jsstring) : option (jsstring * jsstring) :=
  match s with
  | [] => None
  | c :: r =>
      if c =? 34 then Some ([], r)
      else if c =? 92 then
        match r with
        | [] => None
        | e :: r1 =>
            if e =? 117 then
              match r1 with
              | h1 :: h2 :: h3 :: h4 :: r2 =>
                  match hex_value h1, hex_value h2, hex_value h3, hex_value h4,
                        read_string r2 with
                  | Some a, Some b, Some c', Some d, Some (str, rest) =>
                      Some ((((a * 16 + b) * 16 + c') * 16 + d) :: str, rest)
                  | _, _, _, _, _ => None
                  end
              | _ => None
              end
            else
              match simple_escape e, read_string r1 with
              | Some x, Some (str, rest) => Some (x :: str, rest)
              | _, _ => None
              end
        end
      else if c <? 32 then None
      else
        match read_string r with
        | Some (str, rest) => Some (c :: str, rest)
        | None => None
        end
  end.

Fixpoint digits_rest (s : jsstring) : jsstring :=
  match s with
  | c :: r => if is_digit c then digits_rest r else s
  | [] => []
  end.

(** An integer literal: an optional minus, then [0] or a digit run
    without leading zero; no fraction or exponent may follow. *)
Definition read_number (s : jsstring) : option (Z * jsstring) :=
  let '(sign, body) :=
    match s with
    | c :: r => if c =? 45 then (-1, r) else (1, s)
    | [] => (1, s)
    end in
  match digits_prefix body with
  | [] => None
  | d :: ds =>
      if (d =? 0) && negb (Nat.eqb (length ds) 0) then None
      else
        match digits_rest body with
        | c :: _ =>
            if (c =? 46) || (c =? 101) || (c =? 69) then None
            else Some (sign * digits_value (d :: ds), digits_rest body)
        | [] => Some (sign * digits_value (d :: ds), [])
        end
  end.

Fixpoint set_prop (k : jsstring) (v : json) (props : list (jsstring * json))
  : list (jsstring * json) :=
  match props with
  | [] => [(k, v)]
  | (k', v') :: r =>
      if jsstring_eqb k k' then (k', v) :: r else (k', v') :: set_prop k v r
  end.

Definition read_literal (word : jsstring) (v : json) (s : jsstring)
  : option (json * jsstring) :=
  if startsWith word s then Some (v, skipn (length word) s) else None.

Fixpoint read_value (fuel : nat) (s : jsstring) : option (json * jsstring) :=
  match fuel with
  | O => None
  | S fuel' =>
      match skip_ws s with
      | [] => None
      | c :: r =>
          if c =? 110 then read_literal (js "null") JNull (c :: r)
          else if c =? 116 then read_literal (js "true") (JBool true) (c :: r)
          else if c =? 102 then read_literal (js "false") (JBool false) (c :: r)
          else if c =? 34 then
            match read_string r with
            | Some (str, rest) => Some (JStr str, rest)
            | None => None
            end
          else if c =? 91 then
            match skip_ws r with
            | [] => None
            | c1 :: r1 =>
                if c1 =? 93 then Some (JArr [], r1)
                else
                  (fix items (n : nat) (s : jsstring) (acc : list json)
                     : option (json * jsstring) :=
                     match n with
                     | O => None
                     | S n' =>
                         match read_value fuel' s with
                         | None => None
                         | Some (v, rest) =>
                             match skip_ws rest with
                             | [] => None
                             | c2 :: r2 =>
                                 if c2 =? 44 then items n' r2 (acc ++ [v])
                                 else if c2 =? 93 then Some (JArr (acc ++ [v]), r2)
                                 else None
                             end
                         end
                     end) fuel' (c1 :: r1) []
            end
          else if c =? 123 then
            match skip_ws r with
            | [] => None
            | c1 :: r1 =>
                if c1 =? 125 then Some (JObj [], r1)
                else
                  (fix members (n : nat) (s : jsstring)
                       (acc : list (jsstring * json))
                     : option (json * jsstring) :=
                     match n with
                     | O => None
                     | S n' =>
                         match skip_ws s with
                         | [] => None
                         | q :: r2 =>
                             if negb (q =? 34) then None
                             else
                               match read_string r2 with
                               | None => None
                               | Some (k, r3) =>
                                   match skip_ws r3 with
                                   | [] => None
                                   | colon :: r4 =>
                                       if negb (colon =? 58) then None
                                       else
                                         match read_value fuel' r4 with
                                         | None => None
                                         | Some (v, rest) =>
                                             match skip_ws rest with
                                             | [] => None
                                             | c2 :: r5 =>
                                                 if c2 =? 44
                                                 then members n' r5 (set_prop k v acc)
                                                 else if c2 =? 125
                                                 then Some (JObj (set_prop k v acc), r5)
                                                 else None
                                             end
                                         end
                                   end
                               end
                         end
                     end) fuel' (c1 :: r1) []
            end
          else
            match read_number (c :: r) with
            | Some (n, rest) => Some (JNum n, rest)
            | None => None
            end
      end
  end.

Definition JSON_parse_ref (s : jsstring) : option json :=
  match read_value (S (length s)) s with
  | Some (v, rest) =>
      match skip_ws rest with
      | [] => Some v
      | _ :: _ => None
      end
  | None => None
  end.

(** ** The runtime the worker is written against *)

(** The built-ins whose results the worker only passes along: the Web
    Crypto HMAC, [JSON.parse] ([None] when it throws), Unicode
    lower-casing, and the comparison [StringToNumber(s) < n] that [<]
    performs when its left operand is a string. *)
Class Platform : Type := {
  hmac_sha256 : list byte -> list byte -> list byte;
  JSON_parse : jsstring -> option json;
  toLowerCase : jsstring -> jsstring;
  string_lt_number : jsstring -> Z -> bool
}.

(** Lower-casing on Basic Latin and Latin-1: exact on the strings of
    these characters and of characters without case, which is all that
    the sample runs put through it (the lower case of other letters,
    some of which lies in Latin-1, is not modelled). *)
Definition toLowerCase_latin1 (s : jsstring) : jsstring :=
  map (fun c =>
         if ((65 <=? c) && (c <=? 90))
            || ((192 <=? c) && (c <=? 222) && negb (c =? 215))
         then c + 32 else c) s.

(** [StringToNumber(s) < n] on decimal integer literals; the empty string
    counts as zero and anything else as NaN (a hexadecimal or fractional
    literal is not read; the sample runs compare no string). *)
Definition string_lt_number_int (s : jsstring) (n : Z) : bool :=
  match trim s with
  | [] => 0 <? n
  | t =>
      match parseInt t with
      | Some v =>
          match digits_rest (match t with
                             | c :: r => if (c =? 45) || (c =? 43) then r else t
                             | [] => t
                             end) with
          | [] => v <? n
          | _ :: _ => false
          end
      | None => false
      end
  end.

Definition reference_platform : Platform := {|
  hmac_sha256 := hmac_sha256_ref;
  JSON_parse := JSON_parse_ref;
  toLowerCase := toLowerCase_latin1;
  string_lt_number := string_lt_number_int
|}.

(** ** Constants *)

Definition RATINGS_CACHE_TTL : Z := 300.
Definition PAID_COOKIE_MAX_AGE : Z := 30 * 24 * 60 * 60.
Definition MAX_BODY_SIZE : Z := 1024.

Record rate_config : Type := { window : Z; max : Z }.

Definition RATE_LIMITS : list (jsstring * rate_config) :=
  [ (js "PAID_LOGIN", {| window := 60; max := 5 |});
    (js "GET_RATINGS", {| window := 60; max := 30 |});
    (js "POST_RATINGS", {| window := 60; max := 5 |}) ].

(** [RATE_LIMITS[action]]. *)
Fixpoint rate_config_of (table : list (jsstring * rate_config)) (action : jsstring)
  : option rate_config :=
  match table with
  | [] => None
  | (a, config) :: r =>
      if jsstring_eqb action a then Some config else rate_config_of r action
  end.

(** ** The shared cache *)

(** Modelled from the spec: the ambient cache ([caches.default]) behind
    the interface get / put / delete with TTL semantics of section 4.4:
    an entry put with [ttlSeconds] is observed until that many seconds
    have elapsed, and is a miss from then on; delete makes the next get
    a miss regardless of the TTL.  Each entry carries the instant (in
    milliseconds) at which it stops being observable. *)
Definition cache_match {V : Type} (cache : gmap jsstring (V * Z)) (key : jsstring)
    (now : Z) : option V :=
  match cache !! key with
  | Some (v, expires) => if now <? expires then Some v else None
  | None => None
  end.

Definition cache_put {V : Type} (cache : gmap jsstring (V * Z)) (key : jsstring)
    (v : V) (ttlSeconds now : Z) : gmap jsstring (V * Z) :=
  <[key := (v, now + ttlSeconds * 1000)]> cache.

Definition cache_delete {V : Type} (cache : gmap jsstring (V * Z)) (key : jsstring)
  : gmap jsstring (V * Z) :=
  delete key cache.

(** ** Rate limiting *)

(** The window state stored under a rate-limit key. *)
Record rate_window : Type := { count : Z; windowStart : Z }.

Record rate_check : Type := { allowed : bool; remaining : Z; resetAt : Z }.

Definition rate_limit_key (action ip : jsstring) : jsstring :=
  js "https://rate-limit.internal/" ++ action ++ js "/" ++ ip.

(** [Math.ceil(a / b)] for a positive [b]. *)
Definition ceil_div (a b : Z) : Z := - ((- a) / b).

(** [checkRateLimit(ip, action)] at the instant [now] (milliseconds), on
    the rate-limit entries of the cache. *)
Definition checkRateLimit (ip action : jsstring) (now : Z)
    (cache : gmap jsstring (rate_window * Z))
  : rate_check * gmap jsstring (rate_window * Z) :=
  match rate_config_of RATE_LIMITS action with
  | None => ({| allowed := true; remaining := 999; resetAt := 0 |}, cache)
  | Some config =>
      let cacheKey := rate_limit_key action ip in
      let data :=
        match cache_match cache cacheKey now with
        | Some cached => cached
        | None => {| count := 0; windowStart := now |}
        end in
      let windowMs := window config * 1000 in
      let data :=
        if now - windowStart data >? windowMs
        then {| count := 0; windowStart := now |} else data in
      let data := {| count := count data + 1; windowStart := windowStart data |} in
      let resetAt := windowStart data + windowMs in
      let ttlSeconds := Z.max 1 (ceil_div (resetAt - now) 1000) in
      ({| allowed := count data <=? max config;
          remaining := Z.max 0 (max config - count data);
          resetAt := resetAt |},
       cache_put cache cacheKey data ttlSeconds now)
  end.

(** ** Requests, responses and the outside world *)

(** What the handlers read of a request: the method, the path of its URL,
    the [courseId] search parameter, four headers, and the text of the
    body ([None] when reading it fails). *)
Record request : Type := {
  method : jsstring;
  pathname : jsstring;
  query_courseId : option jsstring;
  header_Origin : option jsstring;
  header_Cookie : option jsstring;
  header_ContentType : option jsstring;
  header_CFConnectingIP : option jsstring;
  text : option jsstring
}.

(** The bindings of [env]; a variable that is not set is [None]. *)
Record environment : Type := {
  ALLOWED_ORIGIN : option jsstring;
  COOKIE_SECRET : jsstring;
  WHATSAPP_NUMBER : option jsstring
}.

(** A response body.  The two HTML pages are kept abstract: the login
    (challenge) page of a course and the error page.  A response lists
    the headers the worker sets. *)
Inductive body : Type :=
| NoBody
| Text (s : jsstring)
| Json (v : json)
| PaidLoginPage (courseId : Z) (errorMessage : option jsstring)
    (whatsappNumber : jsstring)
| ErrorPage (title message whatsappNumber : jsstring)
| FromOrigin.

Record response : Type := {
  status : Z;
  headers : list (jsstring * jsstring);
  content : body
}.

(** The four requests the worker sends to the Apps Script authority (the
    URL and the API key come from [env] and are left out). *)
Inductive authority_request : Type :=
| GetDriveUrl (courseId : jsstring)
| VerifyAccess (email password courseId : jsstring)
| GetRatings (courseId : Z)
| AddRating (courseId rating : Z) (ip : jsstring).

(** What [fetchWithTimeout] yields: a rejection (network failure or the
    8 s abort), or a response with its [ok] flag and the result of
    [res.json()] ([None] when that throws). *)
Inductive fetch_result : Type :=
| NetworkError
| HttpResponse (ok : bool) (data : option json).

(** Work handed to [ctx.waitUntil]: it runs after the response is
    returned. *)
Inductive task : Type :=
| CachePut (key : jsstring) (value : json) (ttlSeconds : Z)
| CacheDelete (key : jsstring).

(** Everything outside one invocation: the two key namespaces of the
    shared cache, the authority with the log of the requests sent to it,
    and the tasks waiting to run. *)
Record world : Type := {
  rate_cache : gmap jsstring (rate_window * Z);
  ratings_cache : gmap jsstring (json * Z);
  authority : authority_request -> fetch_result;
  calls : list authority_request;
  pending : list task
}.

Definition with_rate_cache (w : world) (c : gmap jsstring (rate_window * Z)) : world :=
  {| rate_cache := c; ratings_cache := ratings_cache w; authority := authority w;
     calls := calls w; pending := pending w |}.

Definition with_ratings_cache (w : world) (c : gmap jsstring (json * Z)) : world :=
  {| rate_cache := rate_cache w; ratings_cache := c; authority := authority w;
     calls := calls w; pending := pending w |}.

Definition with_call (w : world) (r : authority_request) : world :=
  {| rate_cache := rate_cache w; ratings_cache := ratings_cache w;
     authority := authority w; calls := calls w ++ [r]; pending := pending w |}.

Definition with_pending (w : world) (ts : list task) : world :=
  {| rate_cache := rate_cache w; ratings_cache := ratings_cache w;
     authority := authority w; calls := calls w; pending := ts |}.

(** The outcome of an async function: a value, or an exception. *)
Inductive result (A : Type) : Type :=
| Ok (a : A)
| Thrown.
Arguments Ok {A} a.
Arguments Thrown {A}.

(** Async code: a state transformer on the world. *)
Definition M (A : Type) : Type := world -> result A * world.

Definition ret {A : Type} (a : A) : M A := fun w => (Ok a, w).

Definition throw {A : Type} : M A := fun w => (Thrown, w).

Definition bind {A B : Type} (m : M A) (k : A -> M B) : M B :=
  fun w =>
    match m w with
    | (Ok a, w') => k a w'
    | (Thrown, w') => (Thrown, w')
    end.

Notation "'await' x <~ m ;; k" := (bind m (fun x => k))
  (at level 10, x name, m at level 99, k at level 200).

(** Unwraps a conversion that may throw. *)
Definition orThrow {A : Type} (o : option A) : M A :=
  match o with
  | Some a => ret a
  | None => throw
  end.

(** [await fetchWithTimeout(env.APPS_SCRIPT_URL, ...)]. *)
Definition callAuthority (r : authority_request) : M fetch_result :=
  fun w => (Ok (authority w r), with_call w r).

Definition rateLimit (ip action : jsstring) (now : Z) : M rate_check :=
  fun w =>
    let '(check, cache) := checkRateLimit ip action now (rate_cache w) in
    (Ok check, with_rate_cache w cache).

Definition matchRatings (key : jsstring) (now : Z) : M (option json) :=
  fun w => (Ok (cache_match (ratings_cache w) key now), w).

(** [ctx.waitUntil(...)]. *)
Definition waitUntil (t : task) : M unit :=
  fun w => (Ok tt, with_pending w (pending w ++ [t])).

Definition run_task (now : Z) (w : world) (t : task) : world :=
  match t with
  | CachePut key value ttlSeconds =>
      with_ratings_cache w (cache_put (ratings_cache w) key value ttlSeconds now)
  | CacheDelete key =>
      with_ratings_cache w (cache_delete (ratings_cache w) key)
  end.

(** The world once the waiting tasks have run, at the instant [now]. *)
Definition settle (now : Z) (w : world) : world :=
  with_pending (fold_left (run_task now) (pending w) w) [].

(** ** The worker *)

Section Worker.

Context `{Platform}.

(** *** CORS *)

Definition getCorsHeaders (env : environment) : list (jsstring * jsstring) :=
  [ (js "Access-Control-Allow-Origin", default [] (ALLOWED_ORIGIN env));
    (js "Access-Control-Allow-Methods", js "GET, POST, OPTIONS");
    (js "Access-Control-Allow-Headers", js "Content-Type");
    (js "Access-Control-Max-Age", js "86400") ].

Definition handleCorsPreflight (env : environment) : response :=
  {| status := 204; headers := getCorsHeaders env; content := NoBody |}.

Definition isOriginAllowed (request : request) (env : environment) : bool :=
  match header_Origin request with
  | None => true
  | Some [] => true
  | Some origin =>
      match ALLOWED_ORIGIN env with
      | Some allowedOrigin => jsstring_eqb origin allowedOrigin
      | None => false
      end
  end.

(** *** Helpers *)

Definition jsonResponse (status : Z) (body : json)
    (extraHeaders : list (jsstring * jsstring)) : response :=
  {| status := status;
     headers := (js "Content-Type", js "application/json") :: extraHeaders;
     content := Json body |}.

(** The body [{ status: 'error', message }] of every rejection. *)
Definition error_body (message : jsstring) : json :=
  JObj [(js "status", JStr (js "error")); (js "message", JStr message)].

(** *** HMAC cookie signing *)

Definition signPayload (payload secret : jsstring) : jsstring :=
  flat_map hex_byte
    (hmac_sha256 (TextEncoder_encode secret) (TextEncoder_encode payload)).

(** The loop of [verifySignature]: [mismatch |= e ^ s] over the code
    units of both strings (code units are below 2^16, so the 32-bit
    operators do not wrap). *)
Fixpoint accumulate_mismatch (mismatch : Z) (expected signature : jsstring) : Z :=
  match expected, signature with
  | e :: expected', s :: signature' =>
      accumulate_mismatch (Z.lor mismatch (Z.lxor e s)) expected' signature'
  | _, _ => mismatch
  end.

Definition verifySignature (payload signature secret : jsstring) : bool :=
  let expected := signPayload payload secret in
  if negb (Nat.eqb (length expected) (length signature)) then false
  else accumulate_mismatch 0 expected signature =? 0.

(** *** The paid cookie *)

Definition paidCookieName (courseId : Z) : jsstring :=
  js "__paid_" ++ String_of_Z courseId.

(** The object that [createPaidCookie] serialises, for the clock reading
    [now] in seconds. *)
Definition session_claim (courseId : Z) (email : jsstring) (now : Z) : json :=
  JObj [ (js "courseId", JStr (String_of_Z courseId));
         (js "email", JStr email);
         (js "iat", JNum now);
         (js "exp", JNum (now + PAID_COOKIE_MAX_AGE)) ].

(** [createPaidCookie(courseId, email, secret)] when [Date.now()] reads
    [now_ms]; [None] is the exception of [btoa]. *)
Definition createPaidCookie (courseId : Z) (email secret : jsstring) (now_ms : Z)
  : option jsstring :=
  let now := now_ms / 1000 in
  let payload := JSON_stringify (session_claim courseId email now) in
  match btoa payload with
  | None => None
  | Some encoded => Some (encoded ++ js "." ++ signPayload encoded secret)
  end.

(** [v < n] for a number [n]; [None] when converting [v] throws. *)
Definition lt_number (v : json) (n : Z) : option bool :=
  match v with
  | JNull => Some (0 <? n)
  | JBool b => Some ((if b then 1 else 0) <? n)
  | JNum e => Some (e <? n)
  | JStr s => Some (string_lt_number s n)
  | JArr _ | JObj _ => option_map (fun s => string_lt_number s n) (ToString v)
  end.

(** [parsePaidCookie(cookieValue, secret)] when [Date.now()] reads
    [now_ms]; the result [JNull] is the [null] of an invalid cookie. *)
Definition parsePaidCookie (cookieValue secret : jsstring) (now_ms : Z) : json :=
  match cookieValue with
  | [] => JNull
  | _ :: _ =>
      match lastIndexOf 46 (* . *) cookieValue with
      | None => JNull
      | Some dotIndex =>
          let encoded := firstn dotIndex cookieValue in
          let signature := skipn (S dotIndex) cookieValue in
          if negb (verifySignature encoded signature secret) then JNull
          else
            match atob encoded with
            | None => JNull
            | Some decoded =>
                match JSON_parse decoded with
                | None => JNull
                | Some data =>
                    match get_prop data (js "exp") with
                    | None => JNull
                    | Some Undefined => data
                    | Some (Val exp) =>
                        if truthy exp then
                          match lt_number exp (now_ms / 1000) with
                          | Some true => JNull
                          | Some false => data
                          | None => JNull
                          end
                        else data
                    end
                end
            end
      end
  end.

Definition buildPaidCookieHeader (courseId : Z) (value : jsstring) : jsstring :=
  join (js "; ")
    [ paidCookieName courseId ++ js "=" ++ value;
      js "Path=/course/paid/" ++ String_of_Z courseId;
      js "Max-Age=" ++ String_of_Z PAID_COOKIE_MAX_AGE;
      js "HttpOnly";
      js "Secure";
      js "SameSite=Strict" ].

(** *** Cookie parser *)

Fixpoint find_cookie (name : jsstring) (parts : list jsstring) : option jsstring :=
  match parts with
  | [] => None
  | part :: parts' =>
      match split 61 (* = *) (trim part) with
      | k :: rest =>
          if jsstring_eqb (trim k) name then Some (trim (join (js "=") rest))
          else find_cookie name parts'
      | [] => find_cookie name parts'
      end
  end.

Definition getCookie (request : request) (name : jsstring) : option jsstring :=
  match header_Cookie request with
  | None => None
  | Some [] => None
  | Some header => find_cookie name (split 59 (* ; *) header)
  end.

(** *** Drive URL *)

Definition getDriveUrl (courseId : Z) : M (option jsstring) :=
  await res <~ callAuthority (GetDriveUrl (String_of_Z courseId)) ;;
  ret match res with
      | HttpResponse true (Some data) =>
          match get_prop data (js "driveUrl") with
          | Some (Val (JStr (c :: url))) => Some (c :: url)
          | _ => None
          end
      | _ => None
      end.

(** *** The paid course gate *)

Definition buildPaidLoginPage (courseId : Z) (errorMessage : option jsstring)
    (whatsappNumber : jsstring) : response :=
  {| status := 200;
     headers := [ (js "Content-Type", js "text/html; charset=utf-8");
                  (js "Cache-Control", js "no-store, no-cache, must-revalidate");
                  (js "X-Content-Type-Options", js "nosniff");
                  (js "X-Frame-Options", js "DENY");
                  (js "Referrer-Policy", js "strict-origin-when-cross-origin") ];
     content := PaidLoginPage courseId errorMessage whatsappNumber |}.

Definition buildErrorPage (title message whatsappNumber : jsstring) (statusCode : Z)
  : response :=
  {| status := if statusCode =? 0 then 500 else statusCode;
     headers := [ (js "Content-Type", js "text/html; charset=utf-8");
                  (js "Cache-Control", js "no-store") ];
     content := ErrorPage title message whatsappNumber |}.

Definition not_found : response :=
  {| status := 404; headers := []; content := Text (js "Not Found") |}.

(** The [courseId] constant of the gate:
    [parts[3] ? parseInt(parts[3], 10) : NaN]. *)
Definition gate_courseId (pathname : jsstring) : option Z :=
  match split 47 (* / *) pathname !! 3%nat with
  | Some (c :: segment) => parseInt (c :: segment)
  | _ => None
  end.

Definition handlePaidCourseGate (request : request) (env : environment) (now : Z)
  : M response :=
  match gate_courseId (pathname request) with
  | None => ret not_found
  | Some courseId =>
      if courseId <? 1 then ret not_found
      else
        let loginPage :=
          buildPaidLoginPage courseId None (default [] (WHATSAPP_NUMBER env)) in
        match getCookie request (paidCookieName courseId) with
        | Some (c :: value) =>
            let session := parsePaidCookie (c :: value) (COOKIE_SECRET env) now in
            if truthy session then
              await owner <~
                orThrow (match get_prop session (js "courseId") with
                         | Some v => ToString_val v
                         | None => None
                         end) ;;
              if jsstring_eqb owner (String_of_Z courseId) then
                await driveUrl <~ getDriveUrl courseId ;;
                match driveUrl with
                | None =>
                    ret (buildErrorPage (js "Course Unavailable")
                           (js "This course content is temporarily unavailable. Please contact support via WhatsApp.")
                           (default [] (WHATSAPP_NUMBER env)) 503)
                | Some url =>
                    ret {| status := 302;
                           headers :=
                             [ (js "Location", url);
                               (js "Cache-Control", js "no-store, no-cache, must-revalidate");
                               (js "Referrer-Policy", js "no-referrer");
                               (js "X-Content-Type-Options", js "nosniff") ];
                           content := NoBody |}
                end
              else ret loginPage
            else ret loginPage
        | _ => ret loginPage
        end
  end.

(** *** Paid login *)

(** [[^\s@]]. *)
Definition email_char (c : Z) : bool :=
  negb (is_whitespace c) && negb (c =? 64 (* @ *)).

(** Some dot of [s] that is not its last character. *)
Fixpoint inner_dot (s : jsstring) : bool :=
  match s with
  | c :: (_ :: _) as r => (c =? 46 (* . *)) || inner_dot r
  | _ => false
  end.

(** [/^[^\s@]+@[^\s@]+\.[^\s@]+$/.test(email)]: one [@], nothing blank,
    a non-empty local part, and a domain with a dot strictly inside. *)
Definition email_regex_test (email : jsstring) : bool :=
  match split 64 (* @ *) email with
  | [localPart; domain] =>
      match localPart, domain with
      | _ :: _, _ :: domain' =>
          forallb email_char localPart && forallb email_char domain
          && inner_dot domain'
      | _, _ => false
      end
  | _ => false
  end.

(** [request.headers.get(name) || fallback]. *)
Definition header_or (h : option jsstring) (fallback : jsstring) : jsstring :=
  match h with
  | Some (c :: v) => c :: v
  | _ => fallback
  end.

Definition handlePaidLogin (request : request) (env : environment) (now : Z)
  : M response :=
  if negb (isOriginAllowed request env) then
    ret (jsonResponse 403 (error_body (js "Origin not allowed")) [])
  else
    let cors := getCorsHeaders env in
    if negb (jsstring_eqb (method request) (js "POST")) then
      ret (jsonResponse 405 (error_body (js "Method not allowed")) cors)
    else
      let ct := header_or (header_ContentType request) [] in
      if negb (includes (js "application/json") ct) then
        ret (jsonResponse 400
               (error_body (js "Content-Type must be application/json")) cors)
      else
        let ip := header_or (header_CFConnectingIP request) (js "unknown") in
        await rateCheck <~ rateLimit ip (js "PAID_LOGIN") now ;;
        if negb (allowed rateCheck) then
          ret (jsonResponse 429
                 (error_body (js "Too many attempts. Please wait a moment."))
                 (cors ++ [(js "Retry-After",
                            String_of_Z (ceil_div (resetAt rateCheck - now) 1000))]))
        else
          match text request with
          | None => ret (jsonResponse 400 (error_body (js "Invalid JSON")) cors)
          | Some raw =>
              if Z.of_nat (length raw) >? MAX_BODY_SIZE then
                ret (jsonResponse 400 (error_body (js "Request too large")) cors)
              else
                match JSON_parse raw with
                | None => ret (jsonResponse 400 (error_body (js "Invalid JSON")) cors)
                | Some body =>
                    await emailField <~ orThrow (get_prop body (js "email")) ;;
                    let email :=
                      match emailField with
                      | Val (JStr s) => toLowerCase (trim s)
                      | _ => []
                      end in
                    await passwordField <~ orThrow (get_prop body (js "password")) ;;
                    let password :=
                      match passwordField with
                      | Val (JStr s) => s
                      | _ => []
                      end in
                    await courseIdField <~ orThrow (get_prop body (js "courseId")) ;;
                    await courseIdText <~ orThrow (ToString_val courseIdField) ;;
                    let courseId := parseInt courseIdText in
                    if negb (email_regex_test email) then
                      ret (jsonResponse 400
                             (error_body (js "Valid email address is required")) cors)
                    else if (Z.of_nat (length password) <? 4)
                            || (Z.of_nat (length password) >? 128) then
                      ret (jsonResponse 400 (error_body (js "Invalid credentials")) cors)
                    else
                      match courseId with
                      | None =>
                          ret (jsonResponse 400 (error_body (js "Invalid course")) cors)
                      | Some courseId =>
                          if courseId <? 1 then
                            ret (jsonResponse 400 (error_body (js "Invalid course")) cors)
                          else
                            await res <~
                              callAuthority
                                (VerifyAccess email password (String_of_Z courseId)) ;;
                            match res with
                            | NetworkError | HttpResponse true None =>
                                ret (jsonResponse 502
                                       (error_body (js "Verification service unavailable"))
                                       cors)
                            | HttpResponse false _ =>
                                ret (jsonResponse 502
                                       (error_body (js "Verification service error")) cors)
                            | HttpResponse true (Some scriptResult) =>
                                await valid <~ orThrow (get_prop scriptResult (js "valid")) ;;
                                if negb (truthy_val valid) then
                                  ret (jsonResponse 401
                                         (error_body (js "Invalid email or password, or you are not enrolled in this course."))
                                         cors)
                                else
                                  await cookieValue <~
                                    orThrow (createPaidCookie courseId email
                                               (COOKIE_SECRET env) now) ;;
                                  ret (jsonResponse 200
                                         (JObj [ (js "status", JStr (js "success"));
                                                 (js "redirect",
                                                  JStr (js "/course/paid/"
                                                          ++ String_of_Z courseId)) ])
                                         (cors ++ [(js "Set-Cookie",
                                                    buildPaidCookieHeader courseId
                                                      cookieValue)]))
                            end
                      end
                end
          end.

(** *** Ratings *)

Definition ratings_cache_key (courseId : Z) : jsstring :=
  js "https://ratings-cache.internal/ratings/" ++ String_of_Z courseId.

Definition handleGetRatings (request : request) (env : environment) (now : Z)
    (cors : list (jsstring * jsstring)) : M response :=
  let ip := header_or (header_CFConnectingIP request) (js "unknown") in
  await rateCheck <~ rateLimit ip (js "GET_RATINGS") now ;;
  if negb (allowed rateCheck) then
    ret (jsonResponse 429 (error_body (js "Too many requests.")) cors)
  else
    match query_courseId request with
    | None | Some [] =>
        ret (jsonResponse 400 (error_body (js "Missing courseId")) cors)
    | Some courseIdParam =>
        match parseInt courseIdParam with
        | None => ret (jsonResponse 400 (error_body (js "Invalid courseId")) cors)
        | Some courseId =>
            if (courseId <? 1)
               || negb (jsstring_eqb (String_of_Z courseId) courseIdParam) then
              ret (jsonResponse 400 (error_body (js "Invalid courseId")) cors)
            else
              let cacheKey := ratings_cache_key courseId in
              await cached <~ matchRatings cacheKey now ;;
              match cached with
              | Some payload => ret (jsonResponse 200 payload cors)
              | None =>
                  await res <~ callAuthority (GetRatings courseId) ;;
                  match res with
                  | NetworkError | HttpResponse true None =>
                      ret (jsonResponse 502 (error_body (js "Backend unavailable")) cors)
                  | HttpResponse false _ =>
                      ret (jsonResponse 502 (error_body (js "Backend error")) cors)
                  | HttpResponse true (Some data) =>
                      await _scheduled <~
                        waitUntil (CachePut cacheKey data RATINGS_CACHE_TTL) ;;
                      ret (jsonResponse 200 data cors)
                  end
              end
        end
    end.

(** The message [Rating must be 1-5], whose dash is U+2013. *)
Definition rating_message : jsstring := js "Rating must be 1" ++ [8211] ++ js "5".

Definition handlePostRating (request : request) (env : environment) (now : Z)
    (cors : list (jsstring * jsstring)) : M response :=
  let ip := header_or (header_CFConnectingIP request) (js "unknown") in
  await rateCheck <~ rateLimit ip (js "POST_RATINGS") now ;;
  if negb (allowed rateCheck) then
    ret (jsonResponse 429 (error_body (js "Too many requests.")) cors)
  else
    let ct := header_or (header_ContentType request) [] in
    if negb (includes (js "application/json") ct) then
      ret (jsonResponse 400
             (error_body (js "Content-Type must be application/json")) cors)
    else
      match text request with
      | None => ret (jsonResponse 400 (error_body (js "Invalid JSON")) cors)
      | Some raw =>
          if Z.of_nat (length raw) >? MAX_BODY_SIZE then
            ret (jsonResponse 400 (error_body (js "Request too large")) cors)
          else
            match JSON_parse raw with
            | None => ret (jsonResponse 400 (error_body (js "Invalid JSON")) cors)
            | Some body =>
                await courseIdField <~ orThrow (get_prop body (js "courseId")) ;;
                await courseIdText <~ orThrow (ToString_val courseIdField) ;;
                match parseInt courseIdText with
                | None =>
                    ret (jsonResponse 400 (error_body (js "Invalid courseId")) cors)
                | Some courseId =>
                    if courseId <? 1 then
                      ret (jsonResponse 400 (error_body (js "Invalid courseId")) cors)
                    else
                      await ratingField <~ orThrow (get_prop body (js "rating")) ;;
                      await ratingText <~ orThrow (ToString_val ratingField) ;;
                      match parseInt ratingText with
                      | None =>
                          ret (jsonResponse 400 (error_body rating_message) cors)
                      | Some rating =>
                          if (rating <? 1) || (rating >? 5) then
                            ret (jsonResponse 400 (error_body rating_message) cors)
                          else
                            await res <~ callAuthority (AddRating courseId rating ip) ;;
                            match res with
                            | NetworkError | HttpResponse true None =>
                                ret (jsonResponse 502
                                       (error_body (js "Backend unavailable")) cors)
                            | HttpResponse false _ =>
                                ret (jsonResponse 502
                                       (error_body (js "Backend error")) cors)
                            | HttpResponse true (Some data) =>
                                await outcome <~ orThrow (get_prop data (js "status")) ;;
                                await _scheduled <~
                                  match outcome with
                                  | Val (JStr s) =>
                                      if jsstring_eqb s (js "success")
                                      then waitUntil
                                             (CacheDelete (ratings_cache_key courseId))
                                      else ret tt
                                  | _ => ret tt
                                  end ;;
                                ret (jsonResponse 200 data cors)
                            end
                      end
                end
            end
      end.

Definition handleRatings (request : request) (env : environment) (now : Z)
  : M response :=
  if negb (isOriginAllowed request env) then
    ret (jsonResponse 403 (error_body (js "Origin not allowed")) [])
  else
    let cors := getCorsHeaders env in
    if jsstring_eqb (method request) (js "GET") then
      handleGetRatings request env now cors
    else if jsstring_eqb (method request) (js "POST") then
      handlePostRating request env now cors
    else ret (jsonResponse 405 (error_body (js "Method not allowed")) cors).

(** *** Router and entry point *)

(** What the worker answers: a response of its own, or the request passed
    through to the origin. *)
Inductive answer : Type :=
| Respond (r : response)
| PassThrough.

Definition handleRequest (request : request) (env : environment) (now : Z)
  : M answer :=
  let path := pathname request in
  if jsstring_eqb (method request) (js "OPTIONS") && startsWith (js "/api/") path then
    ret (Respond (handleCorsPreflight env))
  else if startsWith (js "/course/paid/") path then
    await r <~ handlePaidCourseGate request env now ;; ret (Respond r)
  else if jsstring_eqb path (js "/api/paid/login")
          || jsstring_eqb path (js "/api/paid/login/") then
    await r <~ handlePaidLogin request env now ;; ret (Respond r)
  else if jsstring_eqb path (js "/api/ratings")
          || jsstring_eqb path (js "/api/ratings/") then
    await r <~ handleRatings request env now ;; ret (Respond r)
  else ret PassThrough.

(** The [fetch] entry point: whatever a handler throws becomes a 500. *)
Definition fetch (request : request) (env : environment) (now : Z) (w : world)
  : answer * world :=
  match handleRequest request env now w with
  | (Ok a, w') => (a, w')
  | (Thrown, w') =>
      (Respond (jsonResponse 500 (error_body (js "Internal server error")) []), w')
  end.

End Worker.

(** ** HTML escaping *)

(** [s.replace(/c/g, replacement)] for a pattern of one character and a
    replacement text without [$]. *)
Definition replace_all (c : Z) (replacement s : jsstring) : jsstring :=
  flat_map (fun x => if x =? c then replacement else [x]) s.

(** [_escapeHtml(str)] for a string [str]: the five replacements, in the
    order of the source. *)
Definition _escapeHtml (str : jsstring) : jsstring :=
  replace_all 39 (js "&#x27;")
    (replace_all 34 (js "&quot;")
       (replace_all 62 (js "&gt;")
          (replace_all 60 (js "&lt;")
             (replace_all 38 (js "&amp;") str)))).

(** ** The ratings module of the pages (ratings-system.js)

    The client of the ratings endpoint: an in-memory cache with a
    five-minute lifetime, a fetch with retries, and the two calls the
    course page makes.  A [Date.now()] is a parameter of the function
    that reads it; the network is an oracle that settles the n-th request
    of the page, either with the JSON body of an ok response or with a
    failure (a rejection, a timeout, a status that is not ok, a body
    that is not JSON). *)

Module RatingSystem.

Definition CACHE_TTL : Z := 5 * 60 * 1000.
Definition MAX_RETRIES : Z := 3.
Definition RETRY_DELAYS : list Z := [1000; 2000; 4000].
Definition MAX_RATING : Z := 5.
Definition MIN_RATING : Z := 1.

(** The two requests that the module sends: [GET /api/ratings?courseId=]
    and [POST /api/ratings] with the body [{ courseId, rating }]. *)
Inductive api_request : Type :=
| ReadRatings (courseId : Z)
| WriteRating (courseId rating : Z).

Section Client.

(** [parseFloat(v) || 0], whose result the module only stores and hands
    on; [None] when the conversion throws. *)
Context {A : Type} (parseFloat_or_0 : jsval -> option A).

(** The object [{ average, count }]. *)
Record ratings : Type := { average : A; count : Z }.

(** What [fetchRatings] resolves with: the ratings, or the object
    [{ average: 0, count: 0, error: true }]. *)
Inductive fetched : Type :=
| Ratings (r : ratings)
| Unavailable.

(** What [submitRating] resolves with: the rejection of the value, the
    answer of the server, or the error object of a failed request. *)
Inductive submitted : Type :=
| InvalidRating
| Answered (data : json)
| Failed.

(** The state of the module in a page: the cache (each entry with its
    timestamp), the network, the requests sent so far and the delays of
    the retry timers set so far. *)
Record page : Type := {
  _cache : gmap jsstring (ratings * Z);
  network : nat -> api_request -> option json;
  sent : list api_request;
  timers : list Z
}.

Definition with_cache (p : page) (c : gmap jsstring (ratings * Z)) : page :=
  {| _cache := c; network := network p; sent := sent p; timers := timers p |}.

Definition cache_key (courseId : Z) : jsstring :=
  js "ratings_" ++ String_of_Z courseId.

Definition _getCached (courseId : Z) (now : Z) (p : page) : option ratings * page :=
  let key := cache_key courseId in
  match _cache p !! key with
  | None => (None, p)
  | Some (data, timestamp) =>
      if now - timestamp >? CACHE_TTL
      then (None, with_cache p (delete key (_cache p)))
      else (Some data, p)
  end.

Definition _setCache (courseId : Z) (data : ratings) (now : Z) (p : page) : page :=
  with_cache p (<[cache_key courseId := (data, now)]> (_cache p)).

Definition _clearCache (courseId : Z) (p : page) : page :=
  with_cache p (delete (cache_key courseId) (_cache p)).

(** One [fetch], settled: the JSON of an ok response, or a failure. *)
Definition fetch_json (request : api_request) (p : page) : option json * page :=
  (network p (length (sent p)) request,
   {| _cache := _cache p; network := network p; sent := sent p ++ [request];
      timers := timers p |}).

Definition setTimeout (delay : Z) (p : page) : page :=
  {| _cache := _cache p; network := network p; sent := sent p;
     timers := timers p ++ [delay] |}.

(** [CONFIG.RETRY_DELAYS[attempt] || 4000]. *)
Definition retry_delay (attempt : Z) : Z :=
  if attempt <? 0 then 4000
  else match RETRY_DELAYS !! Z.to_nat attempt with
       | Some delay => if delay =? 0 then 4000 else delay
       | None => 4000
       end.

(** The body of [_fetchWithRetry], which calls itself from the timer of
    a retry; [fuel] bounds the calls. *)
Fixpoint retry (fuel : nat) (request : api_request) (attempt maxRetries : Z)
    (p : page) : option json * page :=
  match fuel with
  | O => (None, p)
  | S fuel' =>
      match fetch_json request p with
      | (Some data, p1) => (Some data, p1)
      | (None, p1) =>
          if attempt <? maxRetries - 1
          then retry fuel' request (attempt + 1) maxRetries
                 (setTimeout (retry_delay attempt) p1)
          else (None, p1)
      end
  end.

(** [_fetchWithRetry(url, options, attempt, maxRetries)]; an argument
    left out is [None].  Each retry raises [attempt] by one and needs
    [attempt < maxRetries - 1], so the calls number at most the fuel
    given here. *)
Definition _fetchWithRetry (request : api_request) (attempt maxRetries : option Z)
    (p : page) : option json * page :=
  let attempt := default 0 attempt in
  let maxRetries := default MAX_RETRIES maxRetries in
  retry (S (Z.to_nat (maxRetries - 1 - attempt))) request attempt maxRetries p.

(** [fetchRatings(courseId)], called when the clock reads [now]; the
    answer of the server is handled when it reads [later]. *)
Definition fetchRatings (courseId : Z) (now later : Z) (p : page) : fetched * page :=
  match _getCached courseId now p with
  | (Some cached, p1) => (Ratings cached, p1)
  | (None, p1) =>
      match _fetchWithRetry (ReadRatings courseId) None None p1 with
      | (Some data, p2) =>
          match get_prop data (js "average") with
          | None => (Unavailable, p2)
          | Some averageField =>
              match parseFloat_or_0 averageField with
              | None => (Unavailable, p2)
              | Some average =>
                  match get_prop data (js "count") with
                  | None => (Unavailable, p2)
                  | Some countField =>
                      match ToString_val countField with
                      | None => (Unavailable, p2)
                      | Some countText =>
                          let result :=
                            {| average := average;
                               count := default 0 (parseInt countText) |} in
                          (Ratings result, _setCache courseId result later p2)
                      end
                  end
              end
          end
      | (None, p2) => (Unavailable, p2)
      end
  end.

(** [submitRating(courseId, ratingValue)], for the string that [parseInt]
    makes of [ratingValue]. *)
Definition submitRating (courseId : Z) (ratingValue : jsstring) (p : page)
  : submitted * page :=
  match parseInt ratingValue with
  | None => (InvalidRating, p)
  | Some rating =>
      if (rating <? MIN_RATING) || (rating >? MAX_RATING) then (InvalidRating, p)
      else
        match _fetchWithRetry (WriteRating courseId rating) (Some 0) (Some 1) p with
        | (Some data, p1) =>
            match get_prop data (js "status") with
            | None => (Failed, p1)
            | Some (Val (JStr s)) =>
                if jsstring_eqb s (js "success")
                then (Answered data, _clearCache courseId p1)
                else (Answered data, p1)
            | Some _ => (Answered data, p1)
            end
        | (None, p1) => (Failed, p1)
        end
  end.

End Client.

End RatingSystem.

(** ** The course page (course-details-app.js) *)

(** [getCourseIdFromURL()], for the value of the [id] search parameter
    ([None] when the URL has none). *)
Definition getCourseIdFromURL (raw : option jsstring) : option Z :=
  match raw with
  | None | Some [] => None
  | Some raw =>
      let trimmed := trim raw in
      match trimmed with
      | [] => None
      | _ :: _ =>
          if negb (forallb is_digit trimmed) then None
          else
            match parseInt trimmed with
            | Some id => if id >=? 1 then Some id else None
            | None => None
            end
      end
  end.

(** ** The escaping helpers of the pages (utils.js) *)

Module Utils.

Definition _ESC_MAP (c : Z) : option jsstring :=
  if c =? 38 then Some (js "&amp;")
  else if c =? 60 then Some (js "&lt;")
  else if c =? 62 then Some (js "&gt;")
  else if c =? 34 then Some (js "&quot;")
  else if c =? 39 then Some (js "&#x27;")
  else if c =? 47 then Some (js "&#x2F;")
  else if c =? 96 then Some (js "&#96;")
  else None.

(** [escapeHtml(s)]; [None] is [null] or [undefined], any other value
    comes as the string that [String] makes of it. *)
Definition escapeHtml (s : option jsstring) : jsstring :=
  match s with
  | None => []
  | Some s => flat_map (fun c => default [c] (_ESC_MAP c)) s
  end.

(** [[a-zA-Z0-9,.\-_\s]]. *)
Definition attr_safe (c : Z) : bool :=
  ((97 <=? c) && (c <=? 122)) || ((65 <=? c) && (c <=? 90)) || is_digit c
  || (c =? 44) || (c =? 46) || (c =? 45) || (c =? 95) || is_whitespace c.

Definition escapeAttr (s : option jsstring) : jsstring :=
  match s with
  | None => []
  | Some s =>
      flat_map (fun c => if attr_safe c then [c]
                         else js "&#" ++ String_of_Z c ++ js ";") s
  end.

End Utils.

(** * Notions used in the statements *)

(** A code unit that [btoa] accepts. *)
Definition is_byte (c : Z) : Prop := 0 <= c <= 255.

(** The six-bit values of an encoding, without the padding. *)
Fixpoint b64_sextets (bytes : list Z) : list Z :=
  match bytes with
  | [] => []
  | [a] => [a / 4; a mod 4 * 16]
  | [a; b] => [a / 4; a mod 4 * 16 + b / 16; b mod 16 * 4]
  | a :: b :: c :: r =>
      [a / 4; a mod 4 * 16 + b / 16; b mod 16 * 4 + c / 64; c mod 64]
        ++ b64_sextets r
  end.

(** The padding of an encoding. *)
Fixpoint b64_padding (bytes : list Z) : jsstring :=
  match bytes with
  | [] => []
  | [_] => [61; 61]
  | [_; _] => [61]
  | _ :: _ :: _ :: r => b64_padding r
  end.

(** The strings that the regular expression of the login handler,
    [^[^\s@]+@[^\s@]+\.[^\s@]+$], describes: three non-empty runs of
    characters that are neither blank nor [@], joined by [@] and a dot. *)
Definition email_shape (s : jsstring) : Prop :=
  exists a b c,
    s = a ++ [64] ++ b ++ [46] ++ c
    /\ a <> [] /\ b <> [] /\ c <> []
    /\ forallb email_char a = true
    /\ forallb email_char b = true
    /\ forallb email_char c = true.

(** The status of the response an async handler settles with, if any. *)
Definition result_status (r : result response) : option Z :=
  match r with
  | Ok resp => Some (status resp)
  | Thrown => None
  end.

(** No run of [m] settles with status [s]. *)
Definition never_status (s : Z) (m : M response) : Prop :=
  forall w, result_status (fst (m w)) <> Some s.

(** Successive calls of [checkRateLimit] for one client and one action,
    at the instants [times]: the results, and the cache they leave. *)
Fixpoint check_sequence (ip action : jsstring) (times : list Z)
    (cache : gmap jsstring (rate_window * Z))
  : list rate_check * gmap jsstring (rate_window * Z) :=
  match times with
  | [] => ([], cache)
  | now :: times' =>
      let '(r, cache1) := checkRateLimit ip action now cache in
      let '(rs, cache2) := check_sequence ip action times' cache1 in
      (r :: rs, cache2)
  end.

(** What one call makes of the entry stored under its key. *)
Definition entry_step (config : rate_config) (now : Z)
    (entry : option (rate_window * Z)) : rate_window * Z :=
  let data :=
    match entry with
    | Some (d, expires) =>
        if now <? expires then d else {| count := 0; windowStart := now |}
    | None => {| count := 0; windowStart := now |}
    end in
  let data :=
    if now - windowStart data >? window config * 1000
    then {| count := 0; windowStart := now |} else data in
  ({| count := count data + 1; windowStart := windowStart data |},
   now + Z.max 1 (ceil_div (windowStart data + window config * 1000 - now) 1000) * 1000).

Arguments entry_step : simpl never.

(** An entry of the window that starts at [start], observable until the
    window ends. *)
Definition in_window (config : rate_config) (start : Z)
    (entry : rate_window * Z) : Prop :=
  windowStart (fst entry) = start /\ start + window config * 1000 <= snd entry.

(** The state of the key after [k] calls of a sequence whose first call
    fixed the window start [start]: either still the entry of that
    window, or the entry of a window reopened exactly at its end, which
    has counted at most [k - 1] calls. *)
Definition after_calls (config : rate_config) (start : Z) (k : Z) (last_call : Z)
    (entry : rate_window * Z) : Prop :=
  in_window config start entry
  \/ (windowStart (fst entry) = start + window config * 1000
      /\ count (fst entry) <= k - 1
      /\ last_call = start + window config * 1000).

(** [wp m Q w]: running [m] in the world [w] ends in an outcome and a
    world related by [Q]. *)
Definition wp {A : Type} (m : M A) (Q : result A -> world -> Prop) (w : world) : Prop :=
  Q (fst (m w)) (snd (m w)).

(** [String(body.k)] ([None] when reading or converting throws). *)
Definition field_text (body : json) (k : jsstring) : option jsstring :=
  match get_prop body k with
  | Some v => ToString_val v
  | None => None
  end.

(** The nine checks of the login handler, named as in section 4.6 of the
    specification. *)
Inductive login_check : Type :=
| OriginAllowList
| MethodIsPost
| JsonContentType
| RateLimitCheck
| BodySizeCap
| BodyParsesAsJson
| EmailShape
| PasswordLength
| CourseIdPositive.

(** What the validation of the handler comes to (lines 355 to 412 of the
    source): the first check that fails; or reading the fields of the
    parsed body throws (lines 399 to 401), so that the handler ends with
    an exception and the entry point answers 500; or every check passes,
    with the credentials that go to the authority. *)
Inductive validation : Type :=
| FailsAt (check : login_check)
| Unreadable
| Passes (email password : jsstring) (courseId : Z).


(** The decimal numeral of a positive integer, as the specification has
    resource ids: digits only, and not all of them zero. *)
Definition positive_integer_text (s : jsstring) : bool :=
  forallb is_digit s && existsb (fun c => negb (c =? 48)) s.

(** The strings that start with a positive integer: blanks, an optional
    plus sign, then digits that are not all zero, and whatever follows. *)
Definition positive_integer_prefix (s : jsstring) : Prop :=
  exists blanks plus digits rest,
    s = blanks ++ plus ++ digits ++ rest
    /\ forallb is_whitespace blanks = true
    /\ (plus = [] \/ plus = [43])
    /\ forallb is_digit digits = true
    /\ existsb (fun c => negb (c =? 48)) digits = true.





(** The local rejection that answers a failed check. *)
Definition login_rejection (env : environment) (retryAfter : Z) (check : login_check)
  : response :=
  let cors := getCorsHeaders env in
  match check with
  | OriginAllowList => jsonResponse 403 (error_body (js "Origin not allowed")) []
  | MethodIsPost => jsonResponse 405 (error_body (js "Method not allowed")) cors
  | JsonContentType =>
      jsonResponse 400 (error_body (js "Content-Type must be application/json")) cors
  | RateLimitCheck =>
      jsonResponse 429 (error_body (js "Too many attempts. Please wait a moment."))
        (cors ++ [(js "Retry-After", String_of_Z retryAfter)])
  | BodySizeCap => jsonResponse 400 (error_body (js "Request too large")) cors
  | BodyParsesAsJson => jsonResponse 400 (error_body (js "Invalid JSON")) cors
  | EmailShape =>
      jsonResponse 400 (error_body (js "Valid email address is required")) cors
  | PasswordLength => jsonResponse 400 (error_body (js "Invalid credentials")) cors
  | CourseIdPositive => jsonResponse 400 (error_body (js "Invalid course")) cors
  end.

(** The validation of the login handler: what the handler does, and what
    the specification lists. *)

Section LoginSpecification.

Context `{Platform}.

(** The email, the password and [parseInt] of the course id, as the
    handler reads them off the parsed body. *)
Definition login_fields (body : json) : option (jsstring * jsstring * option Z) :=
  match get_prop body (js "email"), get_prop body (js "password"),
        field_text body (js "courseId") with
  | Some emailField, Some passwordField, Some courseIdText =>
      Some (match emailField with
            | Val (JStr s) => toLowerCase (trim s)
            | _ => []
            end,
            match passwordField with
            | Val (JStr s) => s
            | _ => []
            end,
            parseInt courseIdText)
  | _, _, _ => None
  end.

(** The validation of the handler, test by test in the order of the
    source: origin (line 355), method (361), content type (367), rate
    limit (377), body size (391), JSON parse (394), the reading of the
    fields (399 to 401), email shape (404), password length (407) and
    [isNaN(courseId) || courseId < 1] (410). *)
Definition login_validation (request : request) (env : environment) (now : Z)
    (cache : gmap jsstring (rate_window * Z)) : validation :=
  let ip := header_or (header_CFConnectingIP request) (js "unknown") in
  if negb (isOriginAllowed request env) then FailsAt OriginAllowList
  else if negb (jsstring_eqb (method request) (js "POST")) then FailsAt MethodIsPost
  else if negb (includes (js "application/json")
                  (header_or (header_ContentType request) []))
  then FailsAt JsonContentType
  else if negb (allowed (fst (checkRateLimit ip (js "PAID_LOGIN") now cache)))
  then FailsAt RateLimitCheck
  else
    match text request with
    | None => FailsAt BodyParsesAsJson
    | Some raw =>
        if Z.of_nat (length raw) >? MAX_BODY_SIZE then FailsAt BodySizeCap
        else
          match JSON_parse raw with
          | None => FailsAt BodyParsesAsJson
          | Some body =>
              match login_fields body with
              | None => Unreadable
              | Some (email, password, courseId) =>
                  if negb (email_regex_test email) then FailsAt EmailShape
                  else if (Z.of_nat (length password) <? 4)
                          || (Z.of_nat (length password) >? 128)
                  then FailsAt PasswordLength
                  else
                    match courseId with
                    | None => FailsAt CourseIdPositive
                    | Some id =>
                        if id <? 1 then FailsAt CourseIdPositive
                        else Passes email password id
                    end
              end
          end
    end.


End LoginSpecification.

(** A character of a cookie name: not blank, neither [;] nor [=]. *)
Definition cookie_name_char (c : Z) : bool :=
  negb (is_whitespace c) && negb (c =? 59) && negb (c =? 61).

(** A character of a cookie value: not blank and not [;]. *)
Definition cookie_value_char (c : Z) : bool :=
  negb (is_whitespace c) && negb (c =? 59).

(** The name that [getCookie] reads in one part of a Cookie header. *)
Definition cookie_name_of (part : jsstring) : jsstring :=
  match split 61 (trim part) with
  | k :: _ => trim k
  | [] => []
  end.

(** The first header of that name among the headers of a response. *)
Fixpoint get_header (name : jsstring) (hs : list (jsstring * jsstring))
  : option jsstring :=
  match hs with
  | [] => None
  | (k, v) :: r => if jsstring_eqb k name then Some v else get_header name r
  end.

(** The URL that [getDriveUrl] reads in the answer of the authority: a
    non-empty string under [driveUrl] in the body of an ok response. *)
Definition driveUrl_of (res : fetch_result) : option jsstring :=
  match res with
  | HttpResponse true (Some data) =>
      match get_prop data (js "driveUrl") with
      | Some (Val (JStr (c :: url))) => Some (c :: url)
      | _ => None
      end
  | _ => None
  end.

(** The two answers of the gate to a valid session: the redirect to the
    course's URL, and the page shown when there is no URL. *)
Definition gate_redirect (url : jsstring) : response :=
  {| status := 302;
     headers := [ (js "Location", url);
                  (js "Cache-Control", js "no-store, no-cache, must-revalidate");
                  (js "Referrer-Policy", js "no-referrer");
                  (js "X-Content-Type-Options", js "nosniff") ];
     content := NoBody |}.

Definition gate_unavailable (env : environment) : response :=
  buildErrorPage (js "Course Unavailable")
    (js "This course content is temporarily unavailable. Please contact support via WhatsApp.")
    (default [] (WHATSAPP_NUMBER env)) 503.

(** The strings that [btoa] accepts: every code unit is at most U+00FF. *)
Definition latin1 (s : jsstring) : bool :=
  forallb (fun c => (0 <=? c) && (c <=? 255)) s.

(** The answers that carry the CORS headers: every response of an API
    handler but the 403 of the origin check, which only a request with an
    Origin header can get. *)
Definition carries_cors (request : request) (env : environment)
    (res : result response) : Prop :=
  match res with
  | Ok r =>
      (header_Origin request <> None
       /\ r = jsonResponse 403 (error_body (js "Origin not allowed")) [])
      \/ exists extra,
           headers r
           = (js "Content-Type", js "application/json") :: getCorsHeaders env ++ extra
  | Thrown => True
  end.

(** The entity that stands for one character in escaped HTML text. *)
Definition html_entity (c : Z) : jsstring :=
  if c =? 38 then js "&amp;"
  else if c =? 60 then js "&lt;"
  else if c =? 62 then js "&gt;"
  else if c =? 34 then js "&quot;"
  else if c =? 39 then js "&#x27;"
  else [c].

(** The characters that open or close markup: angle brackets and the two
    quotes. *)
Definition is_markup (c : Z) : bool :=
  (c =? 60) || (c =? 62) || (c =? 34) || (c =? 39).

(** The delays of [k] successive retry timers, the first one set after
    the attempt numbered [attempt]. *)
Fixpoint retry_delays (attempt : Z) (k : nat) : list Z :=
  match k with
  | O => []
  | S k' => RatingSystem.retry_delay attempt :: retry_delays (attempt + 1) k'
  end.

(** * Sample data for runs on the reference platform *)

Definition sample_secret : jsstring := js "s3cret".
Definition sample_email : jsstring := js "a@b.co".

(** The token minted for course 7 when the clock reads 1000 s. *)
Definition sample_token : jsstring :=
  Eval vm_compute in
    match @createPaidCookie reference_platform 7 sample_email sample_secret 1000000 with
    | Some token => token
    | None => []
    end.

(** A signed token whose payload has no [exp]. *)
Definition undated_payload : json := JObj [(js "courseId", JStr (js "7"))].

Definition undated_token : jsstring :=
  Eval vm_compute in
    let encoded := b64_encode (JSON_stringify undated_payload) in
    encoded ++ js "." ++ @signPayload reference_platform encoded sample_secret.

Definition sample_env : environment :=
  {| ALLOWED_ORIGIN := Some (js "https://waslatalent.com");
     COOKIE_SECRET := sample_secret;
     WHATSAPP_NUMBER := None |}.

(** An authority that approves everything. *)
Definition sample_authority (r : authority_request) : fetch_result :=
  match r with
  | GetDriveUrl _ =>
      HttpResponse true (Some (JObj [(js "driveUrl", JStr (js "https://drive.example/x"))]))
  | VerifyAccess _ _ _ => HttpResponse true (Some (JObj [(js "valid", JBool true)]))
  | GetRatings _ =>
      HttpResponse true (Some (JObj [(js "average", JNum 4); (js "count", JNum 2)]))
  | AddRating _ _ _ =>
      HttpResponse true (Some (JObj [(js "status", JStr (js "success"))]))
  end.

Definition sample_world : world :=
  {| rate_cache := ∅; ratings_cache := ∅; authority := sample_authority;
     calls := []; pending := [] |}.

Definition sample_ip : jsstring := js "203.0.113.9".

Definition gate_request (path cookie : jsstring) : request :=
  {| method := js "GET"; pathname := path; query_courseId := None;
     header_Origin := None; header_Cookie := Some cookie;
     header_ContentType := None; header_CFConnectingIP := Some sample_ip;
     text := None |}.

Definition api_request (verb path : jsstring) (body : option jsstring) : request :=
  {| method := verb; pathname := path; query_courseId := None;
     header_Origin := None; header_Cookie := None;
     header_ContentType := Some (js "application/json");
     header_CFConnectingIP := Some sample_ip;
     text := body |}.

Definition login_request : request :=
  api_request (js "POST") (js "/api/paid/login")
    (Some (JSON_stringify
             (JObj [ (js "email", JStr (js " A@b.co "));
                     (js "password", JStr (js "hunter2"));
                     (js "courseId", JNum 7) ]))).

Definition rating_request (courseId rating : json) : request :=
  api_request (js "POST") (js "/api/ratings")
    (Some (JSON_stringify (JObj [(js "courseId", courseId); (js "rating", rating)]))).

Definition ratings_query (courseId : jsstring) : request :=
  {| method := js "GET"; pathname := js "/api/ratings";
     query_courseId := Some courseId;
     header_Origin := None; header_Cookie := None; header_ContentType := None;
     header_CFConnectingIP := Some sample_ip; text := None |}.

(** A login whose email has a character above U+00FF. *)
Definition wide_email : jsstring := [29992] ++ js "@b.co".

Definition wide_login_request : request :=
  api_request (js "POST") (js "/api/paid/login")
    (Some (JSON_stringify
             (JObj [ (js "email", JStr wide_email);
                     (js "password", JStr (js "hunter2"));
                     (js "courseId", JNum 7) ]))).

(** A request of the ratings of course 7 from another site. *)
Definition foreign_request : request :=
  {| method := js "GET"; pathname := js "/api/ratings";
     query_courseId := Some (js "7");
     header_Origin := Some (js "https://evil.example"); header_Cookie := None;
     header_ContentType := None; header_CFConnectingIP := Some sample_ip;
     text := None |}.

(** The ratings that the sample authority reports. *)
Definition sample_ratings : json :=
  JObj [(js "average", JNum 4); (js "count", JNum 2)].

(** A world whose cache holds the ratings of course 7, stored when the
    clock read 1000 s and kept for five minutes. *)
Definition cached_world : world :=
  {| rate_cache := ∅;
     ratings_cache :=
       cache_put ∅ (ratings_cache_key 7) sample_ratings RATINGS_CACHE_TTL 1000000;
     authority := sample_authority; calls := []; pending := [] |}.



(** * Verification *)

(** Turns the boolean tests in the context into arithmetic facts. *)
Ltac bool_facts :=
  repeat match goal with
         | H : _ && _ = true |- _ => apply andb_true_iff in H; destruct H
         | H : _ || _ = false |- _ => apply orb_false_iff in H; destruct H
         | H : negb _ = true |- _ => apply negb_true_iff in H
         | H : negb _ = false |- _ => apply negb_false_iff in H
         | H : (_ <=? _) = true |- _ => apply Z.leb_le in H
         | H : (_ <=? _) = false |- _ => apply Z.leb_gt in H
         | H : (_ <? _) = true |- _ => apply Z.ltb_lt in H
         | H : (_ <? _) = false |- _ => apply Z.ltb_ge in H
         | H : (_ >? _) = true |- _ => rewrite Z.gtb_ltb in H; apply Z.ltb_lt in H
         | H : (_ >? _) = false |- _ => rewrite Z.gtb_ltb in H; apply Z.ltb_ge in H
         | H : (_ =? _) = true |- _ => apply Z.eqb_eq in H
         | H : (_ =? _) = false |- _ => apply Z.eqb_neq in H
         end.

Lemma jsstring_eqb_eq (a b : jsstring) : jsstring_eqb a b = true <-> a = b.
Proof. unfold jsstring_eqb. apply bool_decide_eq_true. Qed.

Lemma jsstring_eqb_refl (a : jsstring) : jsstring_eqb a a = true.
Proof. apply jsstring_eqb_eq. reflexivity. Qed.

Lemma jsstring_eqb_neq (a b : jsstring) : a <> b -> jsstring_eqb a b = false.
Proof. unfold jsstring_eqb. apply bool_decide_eq_false. Qed.

(** ** The reference platform on published test vectors *)

Example sha256_abc :
  flat_map (fun b => hex_byte (byte_of_Z b)) (SHA256.sha256 (js "abc"))
  = js "ba7816bf8f01cfea414140de5dae2223b00361a396177a9cb410ff61f20015ad".
Proof. vm_compute. reflexivity. Qed.

Example hmac_sha256_rfc4231_case2 :
  flat_map hex_byte
    (hmac_sha256_ref (map byte_of_Z (js "Jefe"))
       (map byte_of_Z (js "what do ya want for nothing?")))
  = js "5bdcc146bf60754e6a042426089575c75a003f089d2739839dec58b964ec3843".
Proof. vm_compute. reflexivity. Qed.

Example btoa_hello : btoa (js "hello") = Some (js "aGVsbG8=").
Proof. vm_compute. reflexivity. Qed.

Example atob_unpadded : atob (js "aGVsbG8") = Some (js "hello").
Proof. vm_compute. reflexivity. Qed.

Example parseInt_prefix : parseInt (js "  -12abc") = Some (-12).
Proof. vm_compute. reflexivity. Qed.

Example parseInt_nan : parseInt (js "abc") = None.
Proof. vm_compute. reflexivity. Qed.

Example TextEncoder_lone_surrogate :
  map Z_of_byte (TextEncoder_encode [55296]) = [239; 191; 189].
Proof. vm_compute. reflexivity. Qed.

Example TextEncoder_pair :
  map Z_of_byte (TextEncoder_encode [55357; 56832]) = [240; 159; 152; 128].
Proof. vm_compute. reflexivity. Qed.

(** ** Splitting, and the shape of an email address *)

Lemma split_plain (sep : Z) (s : jsstring) :
  Forall (fun c => c <> sep) s -> split sep s = [s].
Proof.
  induction 1 as [|c s Hc _ IH]; [reflexivity|].
  cbn [split]. apply Z.eqb_neq in Hc. rewrite Hc, IH. reflexivity.
Qed.

Lemma split_at (sep : Z) (a r : jsstring) :
  Forall (fun c => c <> sep) a -> split sep (a ++ sep :: r) = a :: split sep r.
Proof.
  induction 1 as [|c a Hc _ IH]; cbn [app split].
  - rewrite Z.eqb_refl. reflexivity.
  - apply Z.eqb_neq in Hc. rewrite Hc, IH. reflexivity.
Qed.

(** The parts of a split contain no separator, and joining them with the
    separator gives the string back. *)
Lemma split_parts (sep : Z) (s : jsstring) :
  Forall (Forall (fun c => c <> sep)) (split sep s)
  /\ join [sep] (split sep s) = s
  /\ split sep s <> [].
Proof.
  induction s as [|c s (Hparts & Hjoin & Hne)]; cbn [split].
  - repeat split; [repeat constructor | discriminate].
  - destruct (Z.eqb_spec c sep) as [->|Hc].
    + repeat split; [constructor; [constructor | exact Hparts] | | discriminate].
      destruct (split sep s) as [|p ps]; [contradiction|].
      cbn [join app] in *. rewrite Hjoin. reflexivity.
    + destruct (split sep s) as [|p ps]; [contradiction|].
      apply Forall_cons in Hparts. destruct Hparts as [Hp Hps].
      repeat split; [constructor; [constructor; assumption | exact Hps] | | discriminate].
      destruct ps; cbn [join app] in *; rewrite Hjoin; reflexivity.
Qed.

Lemma email_char_not_at (l : jsstring) :
  forallb email_char l = true -> Forall (fun c => c <> 64) l.
Proof.
  intros Hall. apply Forall_forall. intros c Hc. rewrite forallb_forall in Hall.
  apply list_elem_of_In, Hall in Hc. unfold email_char in Hc. bool_facts. assumption.
Qed.

Lemma inner_dot_iff (s : jsstring) :
  inner_dot s = true <-> exists x y, s = x ++ 46 :: y /\ y <> [].
Proof.
  induction s as [|c s IH]; cbn [inner_dot].
  - split; [discriminate | intros (x & y & Hs & _); destruct x; discriminate].
  - destruct s as [|c' s'].
    + split; [discriminate|]. intros (x & y & Hs & Hy).
      destruct x as [|? [|? ?]]; try discriminate. injection Hs as _ <-. contradiction.
    + rewrite orb_true_iff, IH, Z.eqb_eq. split.
      * intros [-> | (x & y & -> & Hy)].
        -- exists [], (c' :: s'). split; [reflexivity | discriminate].
        -- exists (c :: x), y. split; [reflexivity | exact Hy].
      * intros (x & y & Hs & Hy). destruct x as [|c0 x].
        -- left. injection Hs as -> _. reflexivity.
        -- right. injection Hs as _ Hs. exists x, y. split; assumption.
Qed.

(** The test of the login handler accepts exactly the strings of the
    shape its regular expression describes. *)
Lemma email_regex_test_spec (s : jsstring) :
  email_regex_test s = true <-> email_shape s.
Proof.
  unfold email_regex_test, email_shape. split.
  - destruct (split_parts 64 s) as (_ & Hjoin & _).
    destruct (split 64 s) as [|a [|d [|? ?]]]; try discriminate.
    destruct a as [|a0 a]; [discriminate|]. destruct d as [|d0 d]; [discriminate|].
    intros Htest. apply andb_true_iff in Htest. destruct Htest as [Htest Hdot].
    apply andb_true_iff in Htest. destruct Htest as [Ha Hd].
    apply inner_dot_iff in Hdot. destruct Hdot as (x & y & -> & Hy).
    change (d0 :: x ++ 46 :: y) with ((d0 :: x) ++ [46] ++ y) in Hd.
    rewrite !forallb_app in Hd.
    apply andb_true_iff in Hd. destruct Hd as [Hb Hc].
    apply andb_true_iff in Hc. destruct Hc as [_ Hc].
    exists (a0 :: a), (d0 :: x), y. cbn [join app] in Hjoin.
    repeat split; try discriminate; try assumption.
    rewrite <- Hjoin. reflexivity.
  - intros (a & b & c & -> & Ha & Hb & Hc & Hfa & Hfb & Hfc).
    assert (Hd : forallb email_char (b ++ 46 :: c) = true).
    { rewrite forallb_app. cbn [forallb]. rewrite Hfb, Hfc. reflexivity. }
    cbn [app]. rewrite (split_at 64 a _ (email_char_not_at a Hfa)).
    rewrite (split_plain 64 _ (email_char_not_at _ Hd)).
    destruct a as [|a0 a]; [contradiction|]. destruct b as [|b0 b]; [contradiction|].
    cbn [app] in *. rewrite Hfa, Hd. cbn [andb].
    apply inner_dot_iff. exists b, c. split; [reflexivity | exact Hc].
Qed.

(** ** Hexadecimal *)

Lemma Z_of_byte_range (b : byte) : 0 <= Z_of_byte b < 256.
Proof. unfold Z_of_byte. pose proof (Byte.to_N_bounded b). lia. Qed.

Lemma Z_of_byte_inj (a b : byte) : Z_of_byte a = Z_of_byte b -> a = b.
Proof.
  unfold Z_of_byte. intros Heq. apply N2Z.inj in Heq.
  pose proof (Byte.of_to_N a) as Ha. rewrite Heq, Byte.of_to_N in Ha.
  injection Ha as Ha. symmetry. exact Ha.
Qed.

Lemma hex_digit_inj (a b : Z) :
  0 <= a < 16 -> 0 <= b < 16 -> hex_digit a = hex_digit b -> a = b.
Proof.
  unfold hex_digit. intros Ha Hb.
  destruct (a <? 10) eqn:Hla; destruct (b <? 10) eqn:Hlb; bool_facts; lia.
Qed.

Lemma hex_byte_inj (a b : byte) : hex_byte a = hex_byte b -> a = b.
Proof.
  unfold hex_byte. intros [= Hhigh Hlow].
  pose proof (Z_of_byte_range a). pose proof (Z_of_byte_range b).
  apply hex_digit_inj in Hhigh; [|Z.div_mod_to_equations; lia ..].
  apply hex_digit_inj in Hlow; [|Z.div_mod_to_equations; lia ..].
  apply Z_of_byte_inj. Z.div_mod_to_equations. lia.
Qed.

(** The hexadecimal rendering of a digest determines the digest. *)
Lemma hex_bytes_inj (l l' : list byte) :
  flat_map hex_byte l = flat_map hex_byte l' -> l = l'.
Proof.
  revert l'. induction l as [|b l IH]; intros [|b' l']; cbn [flat_map];
    try discriminate; [reflexivity|].
  unfold hex_byte at 1 3. cbn [app]. intros [= Hhigh Hlow Hrest].
  f_equal; [|apply IH, Hrest].
  apply hex_byte_inj. unfold hex_byte. rewrite Hhigh, Hlow. reflexivity.
Qed.

(** ** The signer *)

Section SignerFacts.

Context `{Platform}.

(** The accumulated OR of XORs is zero exactly when it started at zero
    and the two strings agree at every position. *)
Lemma accumulate_mismatch_zero (expected signature : jsstring) (mismatch : Z) :
  length expected = length signature ->
  (accumulate_mismatch mismatch expected signature = 0
   <-> mismatch = 0 /\ expected = signature).
Proof.
  revert signature mismatch.
  induction expected as [|e expected IH]; intros [|s signature] mismatch Hlen;
    simpl in *; try discriminate.
  - split; [intros ->; split; reflexivity | intros [-> _]; reflexivity].
  - injection Hlen as Hlen. rewrite (IH _ _ Hlen). rewrite Z.lor_eq_0_iff.
    split.
    + intros [[Hm Hx] ->]. apply Z.lxor_eq in Hx. subst. split; reflexivity.
    + intros [Hm Heq]. injection Heq as -> ->.
      rewrite Z.lxor_nilpotent. repeat split; assumption.
Qed.

Lemma verifySignature_true_iff (payload signature secret : jsstring) :
  verifySignature payload signature secret = true
  <-> signature = signPayload payload secret.
Proof.
  unfold verifySignature.
  destruct (Nat.eqb (length (signPayload payload secret)) (length signature)) eqn:Hlen;
    simpl.
  - apply Nat.eqb_eq in Hlen. rewrite Z.eqb_eq.
    rewrite (accumulate_mismatch_zero _ _ 0 Hlen). split.
    + intros [_ ->]. reflexivity.
    + intros ->. split; reflexivity.
  - apply Nat.eqb_neq in Hlen. split; [discriminate|].
    intros ->. contradiction Hlen. reflexivity.
Qed.

Lemma verifySignature_sign (payload secret : jsstring) :
  verifySignature payload (signPayload payload secret) secret = true.
Proof. apply verifySignature_true_iff. reflexivity. Qed.

(** C3 (as amended).  [verifySignature] accepts exactly the signature
    that [signPayload] computes: the signed pair verifies, every other
    signature string is rejected, and a different payload is accepted
    against the old signature exactly when the HMAC digests of the UTF-8
    encodings of the two payloads coincide. *)
Theorem signer_correct (payload secret : jsstring) :
  verifySignature payload (signPayload payload secret) secret = true
  /\ (forall signature,
        verifySignature payload signature secret
        = bool_decide (signature = signPayload payload secret))
  /\ (forall payload',
        verifySignature payload' (signPayload payload secret) secret = true
        <-> hmac_sha256 (TextEncoder_encode secret) (TextEncoder_encode payload')
            = hmac_sha256 (TextEncoder_encode secret) (TextEncoder_encode payload)).
Proof.
  assert (Hb : forall p sig,
             verifySignature p sig secret = bool_decide (sig = signPayload p secret)).
  { intros p sig. apply eq_true_iff_eq.
    rewrite verifySignature_true_iff, bool_decide_eq_true. reflexivity. }
  split; [apply verifySignature_sign|]. split; [intros; apply Hb|].
  intros payload'. rewrite verifySignature_true_iff. unfold signPayload.
  split; [intros Heq; symmetry; apply hex_bytes_inj, Heq | intros ->; reflexivity].
Qed.

End SignerFacts.

(** C3, as stated, fails: the payloads [\uD800] and [\uD801] differ in a
    single bit, yet both are unpaired surrogates, which [TextEncoder]
    encodes as U+FFFD; the signature of the first verifies for the
    second. *)
Lemma signer_accepts_mutated_payload :
  @verifySignature reference_platform [55297]
    (@signPayload reference_platform [55296] (js "secret")) (js "secret") = true
  /\ Z.lxor 55297 55296 = 1.
Proof. split; vm_compute; reflexivity. Qed.

(** ** Base64 *)

(** A property checked on every value below [n] holds on the range. *)
Lemma checked_below (P : Z -> bool) (n : nat) :
  forallb P (map Z.of_nat (seq 0 n)) = true ->
  forall v, 0 <= v < Z.of_nat n -> P v = true.
Proof.
  intros Hall v Hv. rewrite forallb_forall in Hall. apply Hall.
  apply in_map_iff. exists (Z.to_nat v). split; [lia|].
  apply in_seq. lia.
Qed.

Lemma b64_index_char (v : Z) : 0 <= v < 64 -> b64_index (b64_char v) = Some v.
Proof.
  intros Hv.
  pose proof (checked_below
                (fun v => bool_decide (b64_index (b64_char v) = Some v)) 64) as Hc.
  cbv beta in Hc.
  specialize (Hc ltac:(vm_compute; reflexivity) v Hv).
  apply bool_decide_eq_true in Hc. exact Hc.
Qed.

(** A base64 character is neither [=], nor [.], nor blank. *)
Lemma b64_char_plain (v : Z) :
  0 <= v < 64 ->
  (b64_char v =? 61) = false /\ (b64_char v =? 46) = false
  /\ is_ascii_whitespace (b64_char v) = false.
Proof.
  intros Hv.
  pose proof (checked_below
                (fun v => negb (b64_char v =? 61) && negb (b64_char v =? 46)
                          && negb (is_ascii_whitespace (b64_char v))) 64) as Hc.
  cbv beta in Hc.
  specialize (Hc ltac:(vm_compute; reflexivity) v Hv).
  apply andb_true_iff in Hc. destruct Hc as [Hc Hw].
  apply andb_true_iff in Hc. destruct Hc as [He Hd].
  apply negb_true_iff in He, Hd, Hw. repeat split; assumption.
Qed.

(** Induction on a list, three elements at a time. *)
Lemma list_ind3 {A : Type} (P : list A -> Prop) :
  P [] -> (forall a, P [a]) -> (forall a b, P [a; b]) ->
  (forall a b c r, P r -> P (a :: b :: c :: r)) ->
  forall l, P l.
Proof.
  intros H0 H1 H2 H3.
  fix IH 1.
  intros [|a [|b [|c r]]]; [exact H0 | apply H1 | apply H2 | apply H3, IH].
Qed.

Lemma b64_encode_split (bytes : list Z) :
  b64_encode bytes = map b64_char (b64_sextets bytes) ++ b64_padding bytes.
Proof.
  induction bytes as [| a | a b | a b c r IH] using list_ind3; try reflexivity.
  cbn [b64_encode b64_sextets b64_padding]. rewrite IH.
  rewrite map_app, <- app_assoc. reflexivity.
Qed.

Lemma b64_sextets_range (bytes : list Z) :
  Forall is_byte bytes -> Forall (fun v => 0 <= v < 64) (b64_sextets bytes).
Proof.
  unfold is_byte.
  induction bytes as [| a | a b | a b c r IH] using list_ind3; intros Hb;
    cbn [b64_sextets app].
  - constructor.
  - inversion Hb; subst. repeat constructor; Z.div_mod_to_equations; lia.
  - inversion Hb as [|? ? Ha Hb']; subst. inversion Hb'; subst.
    repeat constructor; Z.div_mod_to_equations; lia.
  - inversion Hb as [|? ? Ha Hb1]; subst. inversion Hb1 as [|? ? Hb' Hb2]; subst.
    inversion Hb2 as [|? ? Hc Hr]; subst.
    repeat (constructor; [Z.div_mod_to_equations; lia|]).
    apply IH. exact Hr.
Qed.

Lemma b64_decode_sextets (bytes : list Z) :
  Forall is_byte bytes -> b64_decode (b64_sextets bytes) = bytes.
Proof.
  unfold is_byte.
  induction bytes as [| a | a b | a b c r IH] using list_ind3; intros Hb.
  - reflexivity.
  - inversion Hb; subst. cbn [b64_sextets b64_decode].
    f_equal. Z.div_mod_to_equations; lia.
  - inversion Hb as [|? ? Ha Hb']; subst. inversion Hb'; subst.
    cbn [b64_sextets b64_decode].
    repeat f_equal; Z.div_mod_to_equations; lia.
  - inversion Hb as [|? ? Ha Hb1]; subst. inversion Hb1 as [|? ? Hb' Hb2]; subst.
    inversion Hb2 as [|? ? Hc Hr]; subst.
    cbn [b64_sextets b64_decode app]. rewrite (IH Hr).
    repeat f_equal; Z.div_mod_to_equations; lia.
Qed.

Lemma b64_encode_length (bytes : list Z) :
  Z.of_nat (length (b64_encode bytes)) mod 4 = 0.
Proof.
  induction bytes as [| a | a b | a b c r IH] using list_ind3; try reflexivity.
  cbn [b64_encode]. rewrite length_app. cbn [length].
  rewrite Nat2Z.inj_add. change (Z.of_nat 4) with (1 * 4).
  rewrite Z.add_comm, Z.mod_add by lia. exact IH.
Qed.

Lemma b64_sextets_length (bytes : list Z) :
  Z.of_nat (length (b64_sextets bytes)) mod 4 <> 1.
Proof.
  induction bytes as [| a | a b | a b c r IH] using list_ind3;
    try (vm_compute; discriminate).
  cbn [b64_sextets]. rewrite length_app. cbn [length].
  rewrite Nat2Z.inj_add. change (Z.of_nat 4) with (1 * 4).
  rewrite Z.add_comm, Z.mod_add by lia. exact IH.
Qed.

Lemma b64_padding_cases (bytes : list Z) :
  b64_padding bytes = [] \/ b64_padding bytes = [61] \/ b64_padding bytes = [61; 61].
Proof.
  induction bytes as [| a | a b | a b c r IH] using list_ind3; cbn [b64_padding]; auto.
Qed.

Lemma b64_indices_chars (sextets : list Z) :
  Forall (fun v => 0 <= v < 64) sextets ->
  b64_indices (map b64_char sextets) = Some sextets.
Proof.
  induction 1 as [|v sextets Hv _ IH]; [reflexivity|].
  cbn [map b64_indices]. rewrite (b64_index_char v Hv), IH. reflexivity.
Qed.

Lemma filter_b64_encode (bytes : list Z) :
  Forall is_byte bytes ->
  List.filter (fun c => negb (is_ascii_whitespace c)) (b64_encode bytes)
  = b64_encode bytes.
Proof.
  intros Hb. apply forallb_filter_id. rewrite b64_encode_split, forallb_app.
  apply andb_true_iff. split.
  - apply forallb_forall. intros c Hc. apply in_map_iff in Hc.
    destruct Hc as (v & <- & Hv).
    pose proof (b64_sextets_range bytes Hb) as Hr.
    rewrite Forall_forall in Hr.
    destruct (b64_char_plain v) as (_ & _ & ->); [|reflexivity].
    apply Hr. apply list_elem_of_In. exact Hv.
  - destruct (b64_padding_cases bytes) as [-> | [-> | ->]]; reflexivity.
Qed.

Lemma rev_nil_inv {A : Type} (l : list A) : rev l = [] -> l = [].
Proof.
  intros Hr. apply (f_equal (@rev A)) in Hr. rewrite rev_involutive in Hr. exact Hr.
Qed.

(** The last character of a non-empty run of base64 characters. *)
Lemma rev_b64_chars (sextets : list Z) :
  Forall (fun v => 0 <= v < 64) sextets ->
  rev (map b64_char sextets) = []
  \/ exists c r, rev (map b64_char sextets) = c :: r /\ (c =? 61) = false.
Proof.
  intros Hr. destruct (rev (map b64_char sextets)) as [|c r] eqn:Hrev; [left; reflexivity|].
  right. exists c, r. split; [reflexivity|].
  assert (Hin : In c (map b64_char sextets)).
  { apply in_rev. rewrite Hrev. left. reflexivity. }
  apply in_map_iff in Hin. destruct Hin as (v & <- & Hv).
  rewrite Forall_forall in Hr.
  apply b64_char_plain, Hr, list_elem_of_In, Hv.
Qed.

Lemma strip_padding_encode (bytes : list Z) :
  Forall is_byte bytes ->
  strip_padding (b64_encode bytes) = map b64_char (b64_sextets bytes).
Proof.
  intros Hb. unfold strip_padding. rewrite b64_encode_length. cbn [Z.eqb].
  rewrite b64_encode_split, rev_app_distr.
  pose proof (rev_b64_chars _ (b64_sextets_range bytes Hb)) as Hlast.
  destruct (b64_padding_cases bytes) as [-> | [-> | ->]]; cbn [rev app Z.eqb Pos.eqb].
  - destruct Hlast as [Hnil | (c & r & Hrev & Hc)].
    + rewrite Hnil. apply app_nil_r.
    + rewrite Hrev, Hc. apply app_nil_r.
  - destruct Hlast as [Hnil | (c & r & Hrev & Hc)].
    + rewrite Hnil. apply rev_nil_inv in Hnil. rewrite Hnil. reflexivity.
    + rewrite Hrev, Hc, <- Hrev. apply rev_involutive.
  - apply rev_involutive.
Qed.

(** [atob] inverts [btoa]. *)
Lemma atob_btoa (s encoded : jsstring) :
  btoa s = Some encoded -> atob encoded = Some s.
Proof.
  unfold btoa. destruct (forallb _ s) eqn:Hall; [|discriminate].
  intros [= <-].
  assert (Hb : Forall is_byte s).
  { apply Forall_forall. intros c Hc. rewrite forallb_forall in Hall.
    apply list_elem_of_In, Hall in Hc. unfold is_byte. bool_facts. lia. }
  unfold atob. rewrite (filter_b64_encode s Hb), (strip_padding_encode s Hb).
  rewrite length_map.
  destruct (Z.eqb_spec (Z.of_nat (length (b64_sextets s)) mod 4) 1) as [Heq|_].
  - exfalso. exact (b64_sextets_length s Heq).
  - rewrite (b64_indices_chars _ (b64_sextets_range s Hb)). cbn [option_map].
    rewrite (b64_decode_sextets s Hb). reflexivity.
Qed.

(** ** The paid cookie *)

Lemma hex_digit_not_dot (d : Z) : 0 <= d < 16 -> hex_digit d <> 46.
Proof. intros Hd. unfold hex_digit. destruct (d <? 10) eqn:Hlt; bool_facts; lia. Qed.

Lemma lastIndexOf_absent (c : Z) (s : jsstring) :
  Forall (fun x => x <> c) s -> lastIndexOf c s = None.
Proof.
  induction 1 as [|x s Hx _ IH]; [reflexivity|].
  cbn [lastIndexOf]. rewrite IH. apply Z.eqb_neq in Hx. rewrite Hx. reflexivity.
Qed.

Lemma lastIndexOf_separator (c : Z) (a s : jsstring) :
  Forall (fun x => x <> c) s ->
  lastIndexOf c (a ++ c :: s) = Some (length a).
Proof.
  intros Hs. induction a as [|x a IH]; cbn [app lastIndexOf length].
  - rewrite (lastIndexOf_absent c s Hs), Z.eqb_refl. reflexivity.
  - rewrite IH. reflexivity.
Qed.

Lemma firstn_separator {A : Type} (a : list A) (c : A) (s : list A) :
  firstn (length a) (a ++ c :: s) = a.
Proof. induction a as [|x a IH]; cbn [length app firstn]; [|rewrite IH]; reflexivity. Qed.

Lemma skipn_separator {A : Type} (a : list A) (c : A) (s : list A) :
  skipn (S (length a)) (a ++ c :: s) = s.
Proof. induction a as [|x a IH]; cbn [length app skipn]; [reflexivity|exact IH]. Qed.

Section CookieFacts.

Context `{Platform}.

(** A signature is hexadecimal: it contains no dot. *)
Lemma signPayload_no_dot (payload secret : jsstring) :
  Forall (fun x => x <> 46) (signPayload payload secret).
Proof.
  unfold signPayload. apply Forall_forall. intros x Hx.
  apply list_elem_of_In, in_flat_map in Hx. destruct Hx as (b & _ & Hx).
  pose proof (Z_of_byte_range b) as Hb.
  destruct Hx as [<- | [<- | []]]; apply hex_digit_not_dot;
    Z.div_mod_to_equations; lia.
Qed.

(** What [parsePaidCookie] makes of a token: the decoded payload, unless
    its [exp] is truthy and lies before the clock. *)
Lemma parsePaidCookie_signed (encoded secret decoded : jsstring) (data : json)
    (now_ms : Z) :
  atob encoded = Some decoded ->
  JSON_parse decoded = Some data ->
  parsePaidCookie (encoded ++ js "." ++ signPayload encoded secret) secret now_ms
  = match get_prop data (js "exp") with
    | None => JNull
    | Some Undefined => data
    | Some (Val exp) =>
        if truthy exp then
          match lt_number exp (now_ms / 1000) with
          | Some false => data
          | _ => JNull
          end
        else data
    end.
Proof.
  intros Hatob Hparse. unfold parsePaidCookie.
  change (js ".") with [46]. cbn [app].
  rewrite (lastIndexOf_separator 46 encoded _ (signPayload_no_dot encoded secret)).
  destruct (encoded ++ 46 :: signPayload encoded secret) as [|c0 tok] eqn:Htok.
  { destruct encoded; discriminate. }
  rewrite <- Htok.
  rewrite firstn_separator, skipn_separator, verifySignature_sign. cbn [negb].
  rewrite Hatob, Hparse.
  destruct (get_prop data (js "exp")) as [[|exp]|]; reflexivity.
Qed.

Lemma createPaidCookie_inv (courseId : Z) (email secret : jsstring) (now_ms : Z)
    (token : jsstring) :
  createPaidCookie courseId email secret now_ms = Some token ->
  exists encoded,
    btoa (JSON_stringify (session_claim courseId email (now_ms / 1000))) = Some encoded
    /\ token = encoded ++ js "." ++ signPayload encoded secret.
Proof.
  unfold createPaidCookie.
  destruct (btoa _) as [encoded|]; [|discriminate].
  intros [= <-]. exists encoded. split; reflexivity.
Qed.

(** Parsing a minted token, under the platform's guarantee that
    [JSON.parse] reads back the claim that [JSON.stringify] wrote. *)
Lemma parsePaidCookie_minted (courseId : Z) (email secret : jsstring)
    (mint_ms now_ms : Z) (token : jsstring) :
  let claim := session_claim courseId email (mint_ms / 1000) in
  let exp := mint_ms / 1000 + PAID_COOKIE_MAX_AGE in
  createPaidCookie courseId email secret mint_ms = Some token ->
  JSON_parse (JSON_stringify claim) = Some claim ->
  parsePaidCookie token secret now_ms
  = if negb (exp =? 0) && (exp <? now_ms / 1000) then JNull else claim.
Proof.
  intros claim exp Hmint Hjson.
  destruct (createPaidCookie_inv _ _ _ _ _ Hmint) as (encoded & Hbtoa & ->).
  rewrite (parsePaidCookie_signed encoded secret _ claim now_ms
             (atob_btoa _ _ Hbtoa) Hjson).
  change (get_prop claim (js "exp")) with (Some (Val (JNum exp))).
  cbn [truthy lt_number].
  destruct (exp =? 0); cbn [negb andb]; [reflexivity|].
  destruct (exp <? now_ms / 1000); reflexivity.
Qed.

(** C1 (as amended).  Parsing a minted token with the same secret
    returns the claim at every clock reading up to and including the
    second [exp], and [null] at every later one. *)
Theorem cookie_roundtrip (courseId : Z) (email secret : jsstring)
    (mint_ms : Z) (token : jsstring) :
  let claim := session_claim courseId email (mint_ms / 1000) in
  let exp := mint_ms / 1000 + PAID_COOKIE_MAX_AGE in
  0 <= mint_ms ->
  createPaidCookie courseId email secret mint_ms = Some token ->
  JSON_parse (JSON_stringify claim) = Some claim ->
  forall now_ms,
    (now_ms / 1000 <= exp -> parsePaidCookie token secret now_ms = claim)
    /\ (exp < now_ms / 1000 -> parsePaidCookie token secret now_ms = JNull).
Proof.
  intros claim exp Hpos Hmint Hjson now_ms.
  rewrite (parsePaidCookie_minted _ _ _ _ now_ms _ Hmint Hjson).
  fold exp. fold claim.
  assert (Hexp : 0 < exp).
  { unfold exp, PAID_COOKIE_MAX_AGE. Z.div_mod_to_equations. lia. }
  split; intros Hnow.
  - destruct (exp <? now_ms / 1000) eqn:Hlt; bool_facts; [lia|].
    rewrite andb_false_r. reflexivity.
  - destruct (exp =? 0) eqn:Hz; bool_facts; [lia|].
    destruct (exp <? now_ms / 1000) eqn:Hlt; bool_facts; [reflexivity|lia].
Qed.

(** C9.  A token whose signature verifies and whose decoded payload has
    no [exp] property, or has [exp] equal to zero, parses to that payload
    at every clock reading: it never expires. *)
Theorem cookie_without_exp_never_expires (cookieValue secret decoded : jsstring)
    (dotIndex : nat) (data : json) :
  cookieValue <> [] ->
  lastIndexOf 46 cookieValue = Some dotIndex ->
  verifySignature (firstn dotIndex cookieValue) (skipn (S dotIndex) cookieValue)
    secret = true ->
  atob (firstn dotIndex cookieValue) = Some decoded ->
  JSON_parse decoded = Some data ->
  get_prop data (js "exp") = Some Undefined
  \/ get_prop data (js "exp") = Some (Val (JNum 0)) ->
  forall now_ms, parsePaidCookie cookieValue secret now_ms = data.
Proof.
  intros Hne Hdot Hsig Hatob Hparse Hexp now_ms. unfold parsePaidCookie.
  destruct cookieValue as [|c0 tok]; [contradiction|].
  rewrite Hdot, Hsig. cbn [negb]. rewrite Hatob, Hparse.
  destruct Hexp as [-> | ->]; reflexivity.
Qed.

End CookieFacts.

(** ** Sample runs on the reference platform *)

(** The sample token one second before and one second after the end of
    its last valid second. *)
Lemma cookie_roundtrip_witness :
  @parsePaidCookie reference_platform sample_token sample_secret 2593000999
  = session_claim 7 sample_email 1000
  /\ @parsePaidCookie reference_platform sample_token sample_secret 2593001000
     = JNull.
Proof.
  assert (Hmint : @createPaidCookie reference_platform 7 sample_email sample_secret
                    1000000 = Some sample_token) by (vm_compute; reflexivity).
  assert (Hjson : @JSON_parse reference_platform
                    (JSON_stringify (session_claim 7 sample_email (1000000 / 1000)))
                  = Some (session_claim 7 sample_email (1000000 / 1000)))
    by (vm_compute; reflexivity).
  assert (Hpos : 0 <= 1000000) by lia.
  split.
  - apply (cookie_roundtrip 7 sample_email sample_secret 1000000 sample_token
             Hpos Hmint Hjson 2593000999).
    vm_compute. discriminate.
  - apply (cookie_roundtrip 7 sample_email sample_secret 1000000 sample_token
             Hpos Hmint Hjson 2593001000).
    vm_compute. reflexivity.
Defined.

(** C1, as stated, fails at the boundary: when the clock reads exactly
    [exp] (here 2593000 s), the token still parses to its claim. *)
Lemma cookie_valid_at_expiry :
  @parsePaidCookie reference_platform sample_token sample_secret 2593000000
  = session_claim 7 sample_email 1000
  /\ 2593000000 / 1000 = 1000 + PAID_COOKIE_MAX_AGE.
Proof. split; vm_compute; reflexivity. Qed.

(** The undated token in the year 2100. *)
Lemma cookie_without_exp_witness :
  @parsePaidCookie reference_platform undated_token sample_secret 4102444800000
  = undated_payload.
Proof.
  apply (cookie_without_exp_never_expires undated_token sample_secret
           (JSON_stringify undated_payload)
           (length (b64_encode (JSON_stringify undated_payload))) undated_payload).
  - discriminate.
  - vm_compute. reflexivity.
  - vm_compute. reflexivity.
  - vm_compute. reflexivity.
  - vm_compute. reflexivity.
  - left. vm_compute. reflexivity.
Defined.

(** ** Decimal printing *)

Lemma js_inj (s t : string) : js s = js t -> s = t.
Proof.
  unfold js. intros Heq.
  rewrite <- (string_of_list_ascii_of_string s), <- (string_of_list_ascii_of_string t).
  f_equal. revert Heq.
  generalize (list_ascii_of_string s) (list_ascii_of_string t).
  induction l as [|a l IH]; intros [|b l']; cbn [map]; try discriminate;
    [reflexivity|].
  intros [= Hab Hl]. apply N2Z.inj in Hab.
  rewrite <- (ascii_N_embedding a), <- (ascii_N_embedding b), Hab.
  f_equal. apply IH. exact Hl.
Qed.

Lemma to_int_proper (n : Z) : Z.to_int n <> Decimal.Pos Decimal.Nil
                              /\ Z.to_int n <> Decimal.Neg Decimal.Nil.
Proof.
  destruct n as [|p|p]; cbn [Z.to_int]; split; try discriminate;
    intros [= Hp]; exact (DecimalPos.Unsigned.to_uint_nonnil p Hp).
Qed.

(** [String] maps different integers to different strings. *)
Lemma String_of_Z_inj (a b : Z) : String_of_Z a = String_of_Z b -> a = b.
Proof.
  unfold String_of_Z. intros Heq. apply js_inj in Heq.
  apply DecimalZ.to_int_inj.
  destruct (to_int_proper a) as [Ha1 Ha2]. destruct (to_int_proper b) as [Hb1 Hb2].
  pose proof (NilZero.isi _ Ha1 Ha2) as Hia.
  pose proof (NilZero.isi _ Hb1 Hb2) as Hib.
  rewrite Heq, Hib in Hia. injection Hia as Hia. symmetry. exact Hia.
Qed.

(** ** The paid course gate *)

Section GateFacts.

Context `{Platform}.

(** C2.  A cookie minted for course [A], presented under the cookie name
    of a different course [B] on the gate of [B], yields the login page
    of [B] and nothing else: no request is sent to the authority, at any
    clock reading (so also while the claim is unexpired).  [B] is taken
    in the range where [parseInt] is exact. *)
Theorem gate_resource_isolation (request : request) (env : environment)
    (now : Z) (w : world) (A B : Z) (email token : jsstring) (mint_ms : Z) :
  gate_courseId (pathname request) = Some B ->
  1 <= B <= 2 ^ 53 ->
  A <> B ->
  createPaidCookie A email (COOKIE_SECRET env) mint_ms = Some token ->
  JSON_parse (JSON_stringify (session_claim A email (mint_ms / 1000)))
  = Some (session_claim A email (mint_ms / 1000)) ->
  getCookie request (paidCookieName B) = Some token ->
  handlePaidCourseGate request env now w
  = (Ok (buildPaidLoginPage B None (default [] (WHATSAPP_NUMBER env))), w).
Proof.
  intros Hid HB Hne Hmint Hjson Hcookie. unfold handlePaidCourseGate.
  rewrite Hid. destruct (Z.ltb_spec B 1) as [|_]; [lia|].
  rewrite Hcookie.
  destruct token as [|c value].
  { apply createPaidCookie_inv in Hmint. destruct Hmint as (e & _ & He).
    destruct e; discriminate. }
  rewrite (parsePaidCookie_minted _ _ _ _ now _ Hmint Hjson).
  destruct (negb _ && _); [reflexivity|].
  change (truthy (session_claim A email (mint_ms / 1000))) with true. cbv iota.
  change (get_prop (session_claim A email (mint_ms / 1000)) (js "courseId"))
    with (Some (Val (JStr (String_of_Z A)))).
  cbn [ToString_val ToString orThrow]. unfold bind at 1, ret at 1.
  rewrite jsstring_eqb_neq; [reflexivity|].
  intros Heq. apply Hne, String_of_Z_inj, Heq.
Qed.

End GateFacts.

(** The token of course 7, renamed to the cookie of course 8. *)
Lemma gate_resource_isolation_witness :
  @handlePaidCourseGate reference_platform
    (gate_request (js "/course/paid/8") (js "__paid_8=" ++ sample_token))
    sample_env 5000000 sample_world
  = (Ok (buildPaidLoginPage 8 None []), sample_world).
Proof.
  apply (gate_resource_isolation _ sample_env 5000000 sample_world 7 8
           sample_email sample_token 1000000).
  - vm_compute. reflexivity.
  - lia.
  - lia.
  - vm_compute. reflexivity.
  - vm_compute. reflexivity.
  - vm_compute. reflexivity.
Defined.

(** ** The origin allow-list *)

Lemma never_status_ret (s : Z) (r : response) :
  status r <> s -> never_status s (ret r).
Proof. intros Hs w. cbn. congruence. Qed.

Lemma never_status_bind {A : Type} (s : Z) (m : M A) (k : A -> M response) :
  (forall a, never_status s (k a)) -> never_status s (bind m k).
Proof.
  intros Hk w. unfold bind. destruct (m w) as [[a|] w']; [apply Hk|].
  cbn. discriminate.
Qed.

(** Walks through a handler: every [await] and every branch, down to the
    responses, whose status is then compared by computation. *)
Ltac walk_statuses :=
  repeat first
    [ apply never_status_ret; cbn; lia
    | apply never_status_bind; intros ?
    | match goal with
      | |- never_status _ (if ?b then _ else _) => destruct b
      | |- never_status _ (match ?x with _ => _ end) => destruct x
      end ].

Section OriginFacts.

Context `{Platform}.

Lemma handleGetRatings_never_403 (request : request) (env : environment) (now : Z)
    (cors : list (jsstring * jsstring)) :
  never_status 403 (handleGetRatings request env now cors).
Proof. unfold handleGetRatings. walk_statuses. Qed.

Lemma handlePostRating_never_403 (request : request) (env : environment) (now : Z)
    (cors : list (jsstring * jsstring)) :
  never_status 403 (handlePostRating request env now cors).
Proof. unfold handlePostRating. walk_statuses. Qed.

(** C10.  A request without an Origin header passes the allow-list
    check, whatever origin is configured, and neither the login handler
    nor the ratings handler can answer it with 403. *)
Theorem missing_origin_is_allowed (request : request) (env : environment)
    (now : Z) (w : world) :
  header_Origin request = None ->
  isOriginAllowed request env = true
  /\ result_status (fst (handlePaidLogin request env now w)) <> Some 403
  /\ result_status (fst (handleRatings request env now w)) <> Some 403.
Proof.
  intros Horigin.
  assert (Hallowed : isOriginAllowed request env = true).
  { unfold isOriginAllowed. rewrite Horigin. reflexivity. }
  split; [exact Hallowed|]. split.
  - revert w. change (never_status 403 (handlePaidLogin request env now)).
    unfold handlePaidLogin. rewrite Hallowed. cbn [negb]. walk_statuses.
  - revert w. change (never_status 403 (handleRatings request env now)).
    unfold handleRatings. rewrite Hallowed. cbn [negb].
    destruct (jsstring_eqb (method request) (js "GET"));
      [apply handleGetRatings_never_403|].
    destruct (jsstring_eqb (method request) (js "POST"));
      [apply handlePostRating_never_403|].
    walk_statuses.
Qed.

End OriginFacts.

(** ** The rate limiter *)

Lemma checkRateLimit_step (ip action : jsstring) (config : rate_config) (now : Z)
    (cache : gmap jsstring (rate_window * Z)) :
  rate_config_of RATE_LIMITS action = Some config ->
  let key := rate_limit_key action ip in
  let step := entry_step config now (cache !! key) in
  checkRateLimit ip action now cache
  = ({| allowed := count (fst step) <=? max config;
        remaining := Z.max 0 (max config - count (fst step));
        resetAt := windowStart (fst step) + window config * 1000 |},
     <[key := step]> cache).
Proof.
  intros Hconfig key step. unfold checkRateLimit. rewrite Hconfig.
  unfold cache_match, cache_put. fold key. subst step. unfold entry_step.
  destruct (cache !! key) as [[d expires]|]; [destruct (now <? expires)|]; reflexivity.
Qed.

Lemma checkRateLimit_facts (ip action : jsstring) (config : rate_config) (now : Z)
    (cache : gmap jsstring (rate_window * Z)) (r : rate_check)
    (cache' : gmap jsstring (rate_window * Z)) :
  rate_config_of RATE_LIMITS action = Some config ->
  checkRateLimit ip action now cache = (r, cache') ->
  let step := entry_step config now (cache !! rate_limit_key action ip) in
  allowed r = (count (fst step) <=? max config)
  /\ resetAt r = windowStart (fst step) + window config * 1000
  /\ cache' = <[rate_limit_key action ip := step]> cache.
Proof.
  intros Hconfig Hcall step.
  rewrite (checkRateLimit_step ip action config now cache Hconfig) in Hcall.
  injection Hcall as <- <-. repeat split; reflexivity.
Qed.

Lemma rate_config_positive (action : jsstring) (config : rate_config) :
  rate_config_of RATE_LIMITS action = Some config ->
  0 < window config /\ 1 <= max config.
Proof.
  unfold RATE_LIMITS. cbn [rate_config_of].
  repeat match goal with
         | |- context [jsstring_eqb ?a ?b] => destruct (jsstring_eqb a b)
         end;
    intros [= <-]; cbn; lia.
Qed.

Lemma ceil_div_covers (a : Z) : a <= Z.max 1 (ceil_div a 1000) * 1000.
Proof. unfold ceil_div. Z.div_mod_to_equations. lia. Qed.

(** A call strictly inside the window of a live entry counts one more in
    that window. *)
Lemma entry_step_inside (config : rate_config) (start now : Z)
    (entry : rate_window * Z) :
  in_window config start entry ->
  now - start < window config * 1000 ->
  in_window config start (entry_step config now (Some entry))
  /\ count (fst (entry_step config now (Some entry))) = count (fst entry) + 1.
Proof.
  intros [Hstart Hlive] Hnow. destruct entry as [d expires]. cbn [fst snd] in *.
  unfold entry_step, in_window.
  destruct (Z.ltb_spec now expires) as [_|?]; [|lia].
  rewrite Hstart.
  destruct (now - start >? window config * 1000) eqn:Hstale; bool_facts; [lia|].
  cbn [fst snd count windowStart]. rewrite Hstart.
  pose proof (ceil_div_covers (start + window config * 1000 - now)). lia.
Qed.

(** The first call of a sequence opens or joins a window. *)
Lemma entry_step_first (config : rate_config) (now : Z)
    (entry : option (rate_window * Z)) :
  0 < window config ->
  let step := entry_step config now entry in
  in_window config (windowStart (fst step)) step
  /\ now - windowStart (fst step) <= window config * 1000
  /\ ((forall d e, entry = Some (d, e) -> 0 <= count d) -> 1 <= count (fst step)).
Proof.
  intros Hw step. subst step. unfold entry_step, in_window.
  set (data := match entry with
               | Some (d, expires) =>
                   if now <? expires then d else {| count := 0; windowStart := now |}
               | None => {| count := 0; windowStart := now |}
               end).
  assert (Hcount : (forall d e, entry = Some (d, e) -> 0 <= count d) -> 0 <= count data).
  { intros Hnonneg. subst data. destruct entry as [[d e]|]; [|cbn; lia].
    destruct (now <? e); [apply (Hnonneg d e eq_refl)|cbn; lia]. }
  destruct (now - windowStart data >? window config * 1000) eqn:Hstale;
    bool_facts; cbn [fst snd count windowStart].
  - pose proof (ceil_div_covers (now + window config * 1000 - now)).
    repeat split; try lia.
  - pose proof (ceil_div_covers (windowStart data + window config * 1000 - now)).
    repeat split; try lia. intros Hn. specialize (Hcount Hn). lia.
Qed.

Section WindowFacts.

Variables (ip action : jsstring) (config : rate_config).
Hypothesis Hconfig : rate_config_of RATE_LIMITS action = Some config.

Let key : jsstring := rate_limit_key action ip.
Let windowMs : Z := window config * 1000.

(** Calls strictly inside the window of a live entry: the [i]-th of them
    is allowed exactly when the count it reaches is within [max]. *)
Lemma check_sequence_inside (start : Z) (times : list Z) :
  forall (cache : gmap jsstring (rate_window * Z)) (entry : rate_window * Z),
    cache !! key = Some entry ->
    in_window config start entry ->
    Forall (fun t => t - start < windowMs) times ->
    forall (i : nat) (r : rate_check),
      fst (check_sequence ip action times cache) !! i = Some r ->
      allowed r = (count (fst entry) + Z.of_nat i + 1 <=? max config).
Proof.
  induction times as [|now times IH]; intros cache entry Hentry Hwin Hall i r Hr.
  - discriminate.
  - inversion Hall as [|? ? Hnow Hall']; subst. cbn [check_sequence] in Hr.
    destruct (checkRateLimit ip action now cache) as [r1 cache1] eqn:Hcall.
    destruct (checkRateLimit_facts _ _ _ _ _ _ _ Hconfig Hcall) as (Ha & _ & ->).
    fold key in Ha, Hr. rewrite Hentry in Ha, Hr.
    destruct (entry_step_inside config start now entry Hwin Hnow) as [Hwin' Hcount].
    destruct (check_sequence ip action times _) as [rs cache2] eqn:Hseq.
    destruct i as [|i]; cbn [fst lookup list_lookup] in Hr.
    + injection Hr as <-. rewrite Ha, Hcount. f_equal. lia.
    + specialize (IH _ _ (lookup_insert_eq cache key _) Hwin' Hall' i r).
      rewrite Hseq in IH. rewrite (IH Hr), Hcount. f_equal. lia.
Qed.

Lemma check_sequence_length (times : list Z) :
  forall cache, length (fst (check_sequence ip action times cache)) = length times.
Proof.
  induction times as [|now times IH]; intros cache; [reflexivity|].
  cbn [check_sequence]. destruct (checkRateLimit ip action now cache) as [r cache1].
  specialize (IH cache1). destruct (check_sequence ip action times cache1).
  cbn [fst length] in *. rewrite IH. reflexivity.
Qed.

Lemma after_calls_step (start k last_call now : Z) (entry : rate_window * Z) :
  1 <= k ->
  after_calls config start k last_call entry ->
  last_call <= now ->
  now - start <= windowMs ->
  after_calls config start (k + 1) now (entry_step config now (Some entry)).
Proof.
  intros Hk Hinv Hnext Hnow.
  destruct (rate_config_positive action config Hconfig) as [Hw _].
  destruct entry as [d expires]. unfold after_calls, in_window, entry_step in *.
  subst windowMs. cbn [fst snd] in *.
  destruct Hinv as [[Hstart Hlive] | (Hstart & Hcount & Hlast)].
  - destruct (Z.ltb_spec now expires) as [Hhit|Hmiss].
    + rewrite Hstart.
      destruct (now - start >? window config * 1000) eqn:Hstale; bool_facts; [lia|].
      left. cbn [fst snd count windowStart]. rewrite Hstart.
      pose proof (ceil_div_covers (start + window config * 1000 - now)). lia.
    + cbn [windowStart].
      destruct (now - now >? window config * 1000) eqn:Hstale; bool_facts; [lia|].
      right. cbn [fst count windowStart]. lia.
  - right.
    destruct (now <? expires); cbn [windowStart];
      [rewrite Hstart|];
      match goal with
      | |- context [?a >? ?b] => destruct (a >? b) eqn:Hstale
      end; bool_facts; cbn [fst count windowStart]; lia.
Qed.

Lemma check_sequence_after (start : Z) (times : list Z) :
  forall (cache : gmap jsstring (rate_window * Z)) (entry : rate_window * Z)
         (k last_call : Z),
    1 <= k ->
    cache !! key = Some entry ->
    after_calls config start k last_call entry ->
    Sorted Z.le (last_call :: times) ->
    Forall (fun t => t - start <= windowMs) times ->
    exists entry' last_call',
      snd (check_sequence ip action times cache) !! key = Some entry'
      /\ after_calls config start (k + Z.of_nat (length times)) last_call' entry'.
Proof.
  induction times as [|now times IH];
    intros cache entry k last_call Hk Hentry Hinv Hsorted Hall.
  - exists entry, last_call. cbn. rewrite Z.add_0_r. split; assumption.
  - inversion Hall as [|? ? Hnow Hall']; subst.
    inversion Hsorted as [|? ? Hsorted' Hhd]; subst.
    inversion Hhd as [|? ? Hle]; subst.
    cbn [check_sequence].
    destruct (checkRateLimit ip action now cache) as [r1 cache1] eqn:Hcall.
    destruct (checkRateLimit_facts _ _ _ _ _ _ _ Hconfig Hcall) as (_ & _ & ->).
    fold key. rewrite Hentry.
    pose proof (after_calls_step start k last_call now entry Hk Hinv Hle Hnow) as Hinv'.
    destruct (IH (<[key := entry_step config now (Some entry)]> cache) _ (k + 1) now
                ltac:(lia) (lookup_insert_eq cache key _) Hinv' Hsorted' Hall')
      as (entry' & last' & Hlookup & Hafter).
    destruct (check_sequence ip action times _) as [rs cache2].
    exists entry', last'. cbn [snd length] in *. split; [exact Hlookup|].
    replace (k + Z.of_nat (S (length times))) with (k + 1 + Z.of_nat (length times))
      by lia.
    exact Hafter.
Qed.

(** Once the window has elapsed, the next call is within [max]. *)
Lemma after_calls_later (start k last_call later : Z) (entry : rate_window * Z) :
  after_calls config start k last_call entry ->
  k <= max config ->
  later - start > windowMs ->
  count (fst (entry_step config later (Some entry))) <= max config.
Proof.
  intros Hinv Hk Hlater.
  destruct (rate_config_positive action config Hconfig) as [Hw Hmax].
  destruct entry as [d expires]. unfold after_calls, in_window, entry_step in *.
  subst windowMs. cbn [fst snd] in *.
  destruct Hinv as [[Hstart Hlive] | (Hstart & Hcount & Hlast)];
    destruct (later <? expires); cbn [windowStart];
    match goal with
    | |- context [?a >? ?b] => destruct (a >? b) eqn:Hstale
    end; bool_facts; cbn [fst count windowStart]; lia.
Qed.

End WindowFacts.

(** C4 (as amended).  For a configured action and a client, take calls at
    the instants [t1 :: rest]; the first one fixes the window start
    ([resetAt] minus the window length).  If there are [max + 1] calls,
    all strictly inside the window ([now - windowStart < windowLength]),
    the last one is refused.  If there are [max] calls at non-decreasing
    instants within the window ([now - windowStart <= windowLength]),
    one more call after the window has elapsed
    ([now - windowStart > windowLength]) is allowed.  In every call,
    [allowed] is [count <= max] for the count that the call stores. *)
Theorem fixed_window_rate_limit (ip action : jsstring) (config : rate_config)
    (cache : gmap jsstring (rate_window * Z)) (t1 : Z) (rest : list Z) (later : Z) :
  rate_config_of RATE_LIMITS action = Some config ->
  (forall d e, cache !! rate_limit_key action ip = Some (d, e) -> 0 <= count d) ->
  let windowMs := window config * 1000 in
  let times := t1 :: rest in
  let start := resetAt (fst (checkRateLimit ip action t1 cache)) - windowMs in
  let run := check_sequence ip action times cache in
  (Z.of_nat (length times) = max config + 1 ->
   Forall (fun t => t - start < windowMs) times ->
   option_map allowed (last (fst run)) = Some false)
  /\ (Z.of_nat (length times) = max config ->
      Sorted Z.le times ->
      Forall (fun t => t - start <= windowMs) times ->
      later - start > windowMs ->
      allowed (fst (checkRateLimit ip action later (snd run))) = true)
  /\ (forall now,
        exists stored expires,
          snd (checkRateLimit ip action now cache) !! rate_limit_key action ip
          = Some (stored, expires)
          /\ allowed (fst (checkRateLimit ip action now cache))
             = (count stored <=? max config)).
Proof.
  intros Hconfig Hnonneg windowMs times start run.
  destruct (rate_config_positive action config Hconfig) as [Hw Hmax].
  assert (Hstored : forall now,
             exists stored expires,
               snd (checkRateLimit ip action now cache) !! rate_limit_key action ip
               = Some (stored, expires)
               /\ allowed (fst (checkRateLimit ip action now cache))
                  = (count stored <=? max config)).
  { intros now.
    destruct (checkRateLimit ip action now cache) as [r cache'] eqn:Hcall.
    destruct (checkRateLimit_facts _ _ _ _ _ _ _ Hconfig Hcall) as (Ha & _ & ->).
    destruct (entry_step config now (cache !! rate_limit_key action ip))
      as [stored expires] eqn:Hstep.
    exists stored, expires. cbn [fst snd] in *.
    split; [apply lookup_insert_eq | exact Ha]. }
  apply and_assoc. split; [|exact Hstored]. clear Hstored.
  subst run times. cbn [check_sequence]. subst start.
  destruct (checkRateLimit ip action t1 cache) as [r1 cache1] eqn:Hcall.
  destruct (checkRateLimit_facts _ _ _ _ _ _ _ Hconfig Hcall) as (_ & Hreset & ->).
  cbn [fst]. rewrite Hreset.
  set (key := rate_limit_key action ip) in *.
  set (step := entry_step config t1 (cache !! key)) in *.
  replace (windowStart (fst step) + window config * 1000 - windowMs)
    with (windowStart (fst step)) by (subst windowMs; lia).
  destruct (entry_step_first config t1 (cache !! key) Hw) as (Hwin & Hfirst & Hcount).
  fold step in Hwin, Hfirst, Hcount. specialize (Hcount Hnonneg).
  pose proof (check_sequence_length ip action rest (<[key := step]> cache)) as Hlen.
  split.
  - intros Hn Hall. inversion Hall as [|? ? _ Hall']; subst.
    pose proof (check_sequence_inside ip action config Hconfig
                  (windowStart (fst step)) rest (<[key := step]> cache) step
                  (lookup_insert_eq cache key step) Hwin Hall') as Hinside.
    destruct (check_sequence ip action rest (<[key := step]> cache)) as [rs cache2].
    cbn [fst length] in *.
    destruct rs as [|r rs] using rev_ind; [cbn in Hlen; lia|]. clear IHrs.
    rewrite app_comm_cons, last_snoc. cbn [option_map]. f_equal.
    rewrite (Hinside (length rs) r).
    + rewrite length_app in Hlen. cbn [length] in Hlen. apply Z.leb_gt. lia.
    + rewrite lookup_app_r by lia. rewrite Nat.sub_diag. reflexivity.
  - intros Hn Hsorted Hall Hlater. inversion Hall as [|? ? _ Hall']; subst.
    destruct (check_sequence_after ip action config Hconfig
                (windowStart (fst step)) rest (<[key := step]> cache) step 1 t1
                ltac:(lia) (lookup_insert_eq cache key step)
                (or_introl Hwin) Hsorted Hall')
      as (entry' & last' & Hlookup & Hafter).
    destruct (check_sequence ip action rest (<[key := step]> cache)) as [rs cache2].
    cbn [snd fst length] in *.
    destruct (checkRateLimit ip action later cache2) as [r2 cache3] eqn:Hcall2.
    destruct (checkRateLimit_facts _ _ _ _ _ _ _ Hconfig Hcall2) as (Ha & _ & _).
    rewrite Hlookup in Ha. cbn [fst]. rewrite Ha.
    apply Z.leb_le.
    apply (after_calls_later action config Hconfig (windowStart (fst step))
             (1 + Z.of_nat (length rest)) last' later entry' Hafter); [lia|].
    exact Hlater.
Qed.

(** Six login calls inside one minute, and five calls followed by a
    sixth after the minute. *)
Lemma fixed_window_rate_limit_witness :
  option_map allowed
    (last (fst (check_sequence sample_ip (js "PAID_LOGIN")
                  [0; 1000; 2000; 3000; 4000; 59999] ∅))) = Some false
  /\ allowed
       (fst (checkRateLimit sample_ip (js "PAID_LOGIN") 60001
               (snd (check_sequence sample_ip (js "PAID_LOGIN")
                       [0; 1000; 2000; 3000; 60000] ∅)))) = true.
Proof.
  assert (Hconfig : rate_config_of RATE_LIMITS (js "PAID_LOGIN")
                    = Some {| window := 60; max := 5 |}) by (vm_compute; reflexivity).
  assert (Hempty : forall d e,
             (∅ : gmap jsstring (rate_window * Z))
               !! rate_limit_key (js "PAID_LOGIN") sample_ip = Some (d, e) ->
             0 <= count d).
  { intros d e Hl. rewrite lookup_empty in Hl. discriminate. }
  split.
  - apply (proj1 (fixed_window_rate_limit sample_ip (js "PAID_LOGIN") _ ∅ 0
                    [1000; 2000; 3000; 4000; 59999] 0 Hconfig Hempty)).
    + reflexivity.
    + repeat constructor; vm_compute; reflexivity.
  - apply (proj2 (fixed_window_rate_limit sample_ip (js "PAID_LOGIN") _ ∅ 0
                    [1000; 2000; 3000; 60000] 60001 Hconfig Hempty)).
    + reflexivity.
    + repeat constructor; vm_compute; discriminate.
    + repeat constructor; vm_compute; discriminate.
    + vm_compute. reflexivity.
Defined.

(** C4, as stated, fails on the boundary of the window: six login calls
    at instants with [now - windowStart <= windowLength] (the window
    starts at 0 and lasts 60 s), the sixth exactly when the window ends;
    the entry written with a TTL of 60 s is no longer observable then,
    a fresh window opens, and the sixth call is allowed. *)
Lemma rate_limit_admits_at_window_end :
  option_map allowed
    (last (fst (check_sequence sample_ip (js "PAID_LOGIN")
                  [0; 0; 0; 0; 0; 60000] ∅))) = Some true
  /\ forallb (fun t => t - 0 <=? 60 * 1000) [0; 0; 0; 0; 0; 60000] = true.
Proof. split; vm_compute; reflexivity. Qed.

(** ** Reasoning about handlers *)

Lemma wp_ret {A : Type} (a : A) (Q : result A -> world -> Prop) (w : world) :
  Q (Ok a) w -> wp (ret a) Q w.
Proof. intros HQ. exact HQ. Qed.

Lemma wp_throw {A : Type} (Q : result A -> world -> Prop) (w : world) :
  Q Thrown w -> wp throw Q w.
Proof. intros HQ. exact HQ. Qed.

Lemma wp_bind {A B : Type} (m : M A) (k : A -> M B)
    (Q : result B -> world -> Prop) (w : world) :
  wp m (fun r w' => match r with
                    | Ok a => wp (k a) Q w'
                    | Thrown => Q Thrown w'
                    end) w ->
  wp (bind m k) Q w.
Proof.
  unfold wp, bind. destruct (m w) as [[a|] w']; cbn [fst snd]; intros HQ; exact HQ.
Qed.

Lemma wp_orThrow {A : Type} (o : option A) (Q : result A -> world -> Prop) (w : world) :
  match o with
  | Some a => Q (Ok a) w
  | None => Q Thrown w
  end ->
  wp (orThrow o) Q w.
Proof. destruct o; intros HQ; exact HQ. Qed.

Lemma wp_rateLimit (ip action : jsstring) (now : Z)
    (Q : result rate_check -> world -> Prop) (w : world) :
  Q (Ok (fst (checkRateLimit ip action now (rate_cache w))))
    (with_rate_cache w (snd (checkRateLimit ip action now (rate_cache w)))) ->
  wp (rateLimit ip action now) Q w.
Proof.
  unfold wp, rateLimit. destruct (checkRateLimit ip action now (rate_cache w)).
  intros HQ. exact HQ.
Qed.

Lemma wp_callAuthority (r : authority_request)
    (Q : result fetch_result -> world -> Prop) (w : world) :
  Q (Ok (authority w r)) (with_call w r) -> wp (callAuthority r) Q w.
Proof. intros HQ. exact HQ. Qed.

Lemma wp_waitUntil (t : task) (Q : result unit -> world -> Prop) (w : world) :
  Q (Ok tt) (with_pending w (pending w ++ [t])) -> wp (waitUntil t) Q w.
Proof. intros HQ. exact HQ. Qed.

Lemma wp_matchRatings (key : jsstring) (now : Z)
    (Q : result (option json) -> world -> Prop) (w : world) :
  Q (Ok (cache_match (ratings_cache w) key now)) w -> wp (matchRatings key now) Q w.
Proof. intros HQ. exact HQ. Qed.

(** One step of a handler: an [await], a primitive, or a branch (whose
    test is recorded in the context). *)
Ltac wp_step :=
  lazy beta iota;
  lazymatch goal with
  | |- wp (bind _ _) _ _ => apply wp_bind
  | |- wp (ret _) _ _ => apply wp_ret
  | |- wp throw _ _ => apply wp_throw
  | |- wp (orThrow ?o) _ _ => apply wp_orThrow; destruct o eqn:?
  | |- wp (rateLimit _ _ _) _ _ => apply wp_rateLimit
  | |- wp (callAuthority _) _ _ => apply wp_callAuthority
  | |- wp (waitUntil _) _ _ => apply wp_waitUntil
  | |- wp (matchRatings _ _) _ _ => apply wp_matchRatings
  | |- wp (if ?b then _ else _) _ _ => destruct b eqn:?
  | |- wp (match ?x with _ => _ end) _ _ => destruct x eqn:?
  end.

Ltac wp_run := repeat wp_step; lazy beta iota.

(** ** Ratings *)

Section RatingsFacts.

Context `{Platform}.


(** The ratings read path sends the authority at most one request, for
    the course it was asked about. *)
Lemma handleGetRatings_calls (request : request) (env : environment) (now : Z)
    (cors : list (jsstring * jsstring)) (w : world) :
  wp (handleGetRatings request env now cors)
    (fun _ w' =>
       calls w' = calls w
       \/ exists courseId, calls w' = calls w ++ [GetRatings courseId]) w.
Proof.
  unfold handleGetRatings. wp_run.
  all: try (left; reflexivity).
  all: right; eexists; reflexivity.
Qed.



End RatingsFacts.

(** *** Read-after-write freshness *)

Lemma snoc_neq {A : Type} (l : list A) (x : A) : l ++ [x] <> l.
Proof.
  intros Heq. apply (f_equal (@length A)) in Heq.
  rewrite length_app in Heq. cbn [length] in Heq. lia.
Qed.

Lemma run_tasks_frame (now : Z) (tasks : list task) (w : world) :
  calls (fold_left (run_task now) tasks w) = calls w
  /\ authority (fold_left (run_task now) tasks w) = authority w
  /\ rate_cache (fold_left (run_task now) tasks w) = rate_cache w.
Proof.
  revert w. induction tasks as [|t tasks IH]; intros w; [repeat split|].
  cbn [fold_left]. destruct (IH (run_task now w t)) as (Hc & Ha & Hr).
  rewrite Hc, Ha, Hr. destruct t; repeat split.
Qed.

(** Running the waiting tasks touches nothing but the ratings entries. *)
Lemma settle_frame (now : Z) (w : world) :
  calls (settle now w) = calls w
  /\ authority (settle now w) = authority w
  /\ rate_cache (settle now w) = rate_cache w.
Proof. unfold settle. cbn. apply run_tasks_frame. Qed.

(** When the last waiting task deletes a key, the key is gone afterwards. *)
Lemma settle_deletes (now : Z) (w : world) (tasks : list task) (key : jsstring) :
  pending w = tasks ++ [CacheDelete key] ->
  forall now', cache_match (ratings_cache (settle now w)) key now' = None.
Proof.
  intros Hpending now'. unfold settle. rewrite Hpending, fold_left_app.
  cbn [fold_left run_task with_pending ratings_cache with_ratings_cache].
  unfold cache_match, cache_delete. rewrite lookup_delete_eq. reflexivity.
Qed.

Section FreshnessFacts.

Context `{Platform}.

(** The write path, once its request has reached the authority and the
    authority has answered with [status: 'success']. *)
Lemma handlePostRating_success (request : request) (env : environment) (now : Z)
    (cors : list (jsstring * jsstring)) (w : world) (courseId rating : Z)
    (data : json) :
  let ip := header_or (header_CFConnectingIP request) (js "unknown") in
  authority w (AddRating courseId rating ip) = HttpResponse true (Some data) ->
  get_prop data (js "status") = Some (Val (JStr (js "success"))) ->
  wp (handlePostRating request env now cors)
    (fun r w' =>
       calls w' = calls w ++ [AddRating courseId rating ip] ->
       r = Ok (jsonResponse 200 data cors)
       /\ pending w' = pending w ++ [CacheDelete (ratings_cache_key courseId)]
       /\ 1 <= courseId) w.
Proof.
  intros ip Hauthority Hstatus. unfold handlePostRating. fold ip. wp_run.
  all: cbn [calls pending authority with_rate_cache with_call with_pending] in *.
  all: intros Hcalls.
  all: try (symmetry in Hcalls; apply snoc_neq in Hcalls; contradiction).
  all: apply app_inj_tail in Hcalls; destruct Hcalls as [_ [= -> ->]].
  all: try congruence.
  all: match goal with
       | Hres : authority _ _ = HttpResponse true (Some ?d) |- _ =>
           rewrite Hauthority in Hres; injection Hres as <-
       end.
  all: try congruence.
  all: match goal with
       | Hs : get_prop _ (js "status") = Some ?v |- _ =>
           rewrite Hstatus in Hs; injection Hs as <-
       end.
  all: try discriminate.
  all: match goal with
       | Hs : jsstring_eqb _ _ = _ |- _ => vm_compute in Hs; try discriminate Hs
       end.
  all: bool_facts; repeat split; try reflexivity; lia.
Qed.

(** C7.  When a ratings POST has reached the authority and the authority
    reports success, the handler returns the authority's payload and
    hands [ctx.waitUntil] the deletion of the cache entry of that course;
    once that task has run the entry is a miss at every later instant,
    whatever the TTL it was stored with, and the next GET for the course
    goes to the authority.  The course id is taken in the range where
    [parseInt] and [String] are exact. *)
Theorem rating_write_invalidates_cache (request : request) (env : environment)
    (now : Z) (w : world) (courseId rating : Z) (data : json) :
  let ip := header_or (header_CFConnectingIP request) (js "unknown") in
  let out := handleRatings request env now w in
  courseId <= 2 ^ 53 ->
  calls (snd out) = calls w ++ [AddRating courseId rating ip] ->
  authority w (AddRating courseId rating ip) = HttpResponse true (Some data) ->
  get_prop data (js "status") = Some (Val (JStr (js "success"))) ->
  fst out = Ok (jsonResponse 200 data (getCorsHeaders env))
  /\ pending (snd out) = pending w ++ [CacheDelete (ratings_cache_key courseId)]
  /\ (forall settled_at now',
        cache_match (ratings_cache (settle settled_at (snd out)))
          (ratings_cache_key courseId) now' = None)
  /\ (forall settled_at now' request' courseIdParam,
        let w' := settle settled_at (snd out) in
        isOriginAllowed request' env = true ->
        method request' = js "GET" ->
        allowed (fst (checkRateLimit
                        (header_or (header_CFConnectingIP request') (js "unknown"))
                        (js "GET_RATINGS") now' (rate_cache w'))) = true ->
        query_courseId request' = Some courseIdParam ->
        parseInt courseIdParam = Some courseId ->
        String_of_Z courseId = courseIdParam ->
        calls (snd (handleRatings request' env now' w'))
        = calls w' ++ [GetRatings courseId]).
Proof.
  intros ip out _ Hcalls Hauthority Hstatus. subst out.
  assert (Hpost : fst (handleRatings request env now w)
                  = Ok (jsonResponse 200 data (getCorsHeaders env))
                  /\ pending (snd (handleRatings request env now w))
                     = pending w ++ [CacheDelete (ratings_cache_key courseId)]
                  /\ 1 <= courseId).
  { revert Hcalls. unfold handleRatings.
    destruct (negb (isOriginAllowed request env)).
    { cbn. intros Hc. symmetry in Hc. apply snoc_neq in Hc. contradiction. }
    destruct (jsstring_eqb (method request) (js "GET")).
    { pose proof (handleGetRatings_calls request env now (getCorsHeaders env) w) as Hget.
      unfold wp in Hget. intros Hc. rewrite Hc in Hget.
      destruct Hget as [Hget | (c & Hget)].
      - apply snoc_neq in Hget. contradiction.
      - apply app_inj_tail in Hget. destruct Hget as [_ Hget]. discriminate. }
    destruct (jsstring_eqb (method request) (js "POST")).
    { apply (handlePostRating_success request env now (getCorsHeaders env) w
               courseId rating data Hauthority Hstatus). }
    cbn. intros Hc. symmetry in Hc. apply snoc_neq in Hc. contradiction. }
  destruct Hpost as (Hresp & Hpending & Hpos).
  split; [exact Hresp|]. split; [exact Hpending|]. split.
  - intros settled_at now'. apply (settle_deletes _ _ (pending w)). exact Hpending.
  - intros settled_at now' request' courseIdParam w' Horigin Hmethod Hrate Hquery
           Hparse Hstring.
    pose proof (settle_deletes settled_at _ (pending w) _ Hpending) as Hmiss.
    fold w' in Hmiss.
    unfold handleRatings. rewrite Horigin, Hmethod. cbn [negb].
    change (jsstring_eqb (js "GET") (js "GET")) with true. cbv iota.
    change (wp (handleGetRatings request' env now' (getCorsHeaders env))
              (fun _ w'' => calls w'' = calls w' ++ [GetRatings courseId]) w').
    unfold handleGetRatings.
    apply wp_bind, wp_rateLimit. rewrite Hrate. cbn [negb]. lazy beta iota.
    rewrite Hquery.
    destruct courseIdParam as [|c0 param].
    { vm_compute in Hparse. discriminate. }
    rewrite Hparse, Hstring, jsstring_eqb_refl.
    destruct (Z.ltb_spec courseId 1) as [?|_]; [lia|]. cbn [negb orb].
    apply wp_bind, wp_matchRatings.
    cbn [ratings_cache with_rate_cache]. rewrite Hmiss. lazy beta iota.
    apply wp_bind, wp_callAuthority. lazy beta iota.
    cbn [authority with_call with_rate_cache].
    destruct (authority w' (GetRatings courseId)) as [|[|] [payload|]]; wp_run;
      reflexivity.
Qed.

End FreshnessFacts.

(** ** More sample runs *)

(** A login request without an Origin header. *)
Lemma missing_origin_is_allowed_witness :
  isOriginAllowed login_request sample_env = true
  /\ result_status
       (fst (@handlePaidLogin reference_platform login_request sample_env 1000000
               sample_world)) <> Some 403
  /\ result_status
       (fst (@handleRatings reference_platform login_request sample_env 1000000
               sample_world)) <> Some 403.
Proof. apply missing_origin_is_allowed. reflexivity. Defined.



(** A rating of 4 for course 7 while the cache holds a fresh entry for
    that course, then a read of its ratings: the entry, still served
    just before the write, is gone although its five minutes have not
    passed, and the read goes to the authority. *)
Lemma rating_write_invalidates_cache_witness :
  cache_match (ratings_cache cached_world) (ratings_cache_key 7) 1000001
  = Some sample_ratings
  /\ pending (snd (@handleRatings reference_platform (rating_request (JNum 7) (JNum 4))
                     sample_env 1000002 cached_world))
     = [CacheDelete (ratings_cache_key 7)]
  /\ cache_match
       (ratings_cache
          (settle 1000003
             (snd (@handleRatings reference_platform (rating_request (JNum 7) (JNum 4))
                     sample_env 1000002 cached_world))))
       (ratings_cache_key 7) 1000004 = None
  /\ calls (snd (@handleRatings reference_platform (ratings_query (js "7")) sample_env
                   1000004
                   (settle 1000003
                      (snd (@handleRatings reference_platform
                              (rating_request (JNum 7) (JNum 4))
                              sample_env 1000002 cached_world)))))
     = [AddRating 7 4 sample_ip; GetRatings 7].
Proof.
  pose proof (@rating_write_invalidates_cache reference_platform
                (rating_request (JNum 7) (JNum 4)) sample_env 1000002 cached_world
                7 4 (JObj [(js "status", JStr (js "success"))])) as Hwrite.
  cbv zeta in Hwrite.
  destruct Hwrite as (_ & Hpending & Hmiss & Hget);
    [lia | vm_compute; reflexivity | reflexivity | reflexivity |].
  split; [vm_compute; reflexivity|]. split; [exact Hpending|]. split; [apply Hmiss|].
  rewrite (Hget 1000003 1000004 (ratings_query (js "7")) (js "7"));
    [| reflexivity | reflexivity | vm_compute; reflexivity | reflexivity
     | vm_compute; reflexivity | vm_compute; reflexivity].
  vm_compute. reflexivity.
Defined.

(** ** Reading cookies *)

Lemma trimStart_plain (s : jsstring) :
  Forall (fun c => is_whitespace c = false) s -> trimStart s = s.
Proof.
  intros Hs. destruct Hs as [|c s Hc _]; [reflexivity|].
  cbn [trimStart]. rewrite Hc. reflexivity.
Qed.

Lemma trim_plain (s : jsstring) :
  Forall (fun c => is_whitespace c = false) s -> trim s = s.
Proof.
  intros Hs. unfold trim, trimEnd. rewrite (trimStart_plain s Hs).
  rewrite trimStart_plain; [apply rev_involutive|].
  apply Forall_forall. intros c Hc. rewrite Forall_forall in Hs. apply Hs.
  apply list_elem_of_In. apply in_rev. apply list_elem_of_In. exact Hc.
Qed.

Lemma cookie_name_char_facts (s : jsstring) :
  forallb cookie_name_char s = true ->
  Forall (fun c => is_whitespace c = false) s
  /\ Forall (fun c => c <> 59) s /\ Forall (fun c => c <> 61) s.
Proof.
  intros Hall. rewrite forallb_forall in Hall.
  repeat split; apply Forall_forall; intros c Hc;
    apply list_elem_of_In, Hall in Hc; unfold cookie_name_char in Hc;
    bool_facts; assumption.
Qed.

Lemma cookie_value_char_facts (s : jsstring) :
  forallb cookie_value_char s = true ->
  Forall (fun c => is_whitespace c = false) s /\ Forall (fun c => c <> 59) s.
Proof.
  intros Hall. rewrite forallb_forall in Hall.
  repeat split; apply Forall_forall; intros c Hc;
    apply list_elem_of_In, Hall in Hc; unfold cookie_value_char in Hc;
    bool_facts; assumption.
Qed.

(** The part [name=value] of a Cookie header, after an optional blank. *)
Lemma find_cookie_here (name value lead : jsstring) (parts : list jsstring) :
  lead = [] \/ lead = [32] ->
  forallb cookie_name_char name = true ->
  forallb cookie_value_char value = true ->
  find_cookie name ((lead ++ name ++ 61 :: value) :: parts) = Some value.
Proof.
  intros Hlead Hname Hvalue.
  destruct (cookie_name_char_facts name Hname) as (Hnw & _ & Hne).
  destruct (cookie_value_char_facts value Hvalue) as (Hvw & _).
  assert (Hpair : trim (lead ++ name ++ 61 :: value) = name ++ 61 :: value).
  { assert (Hplain : trim (name ++ 61 :: value) = name ++ 61 :: value).
    { apply trim_plain. apply Forall_app. split; [exact Hnw|].
      constructor; [reflexivity | exact Hvw]. }
    destruct Hlead as [-> | ->]; exact Hplain. }
  cbn [find_cookie]. rewrite Hpair, (split_at 61 name value Hne).
  rewrite (trim_plain name Hnw), jsstring_eqb_refl.
  destruct (split_parts 61 value) as (_ & Hjoin & _).
  change (js "=") with [61]. rewrite Hjoin, (trim_plain value Hvw). reflexivity.
Qed.

Lemma find_cookie_join (name value : jsstring) (before after : list jsstring) :
  forallb cookie_name_char name = true ->
  forallb cookie_value_char value = true ->
  Forall (fun p => Forall (fun c => c <> 59) p /\ cookie_name_of p <> name) before ->
  forall lead, lead = [] \/ lead = [32] ->
  find_cookie name
    (split 59 (lead ++ join (js "; ") (before ++ [name ++ js "=" ++ value] ++ after)))
  = Some value.
Proof.
  intros Hname Hvalue Hbefore. change (js "; ") with [59; 32].
  change (name ++ js "=" ++ value) with (name ++ 61 :: value).
  destruct (cookie_name_char_facts name Hname) as (_ & Hns & _).
  destruct (cookie_value_char_facts value Hvalue) as (_ & Hvs).
  induction Hbefore as [|p before [Hp Hkey] _ IH]; intros lead Hlead.
  - assert (Hfree : Forall (fun c => c <> 59) (lead ++ name ++ 61 :: value)).
    { apply Forall_app. split.
      - destruct Hlead as [-> | ->]; repeat constructor. discriminate.
      - apply Forall_app. split; [exact Hns|]. constructor; [discriminate | exact Hvs]. }
    cbn [app]. destruct after as [|q after].
    + cbn [join]. rewrite (split_plain 59 _ Hfree).
      apply find_cookie_here; assumption.
    + change (join [59; 32] ((name ++ 61 :: value) :: q :: after))
        with ((name ++ 61 :: value) ++ 59 :: 32 :: join [59; 32] (q :: after)).
      rewrite app_assoc, (split_at 59 _ _ Hfree).
      apply find_cookie_here; assumption.
  - assert (Hfree : Forall (fun c => c <> 59) (lead ++ p)).
    { apply Forall_app. split; [|exact Hp].
      destruct Hlead as [-> | ->]; repeat constructor. discriminate. }
    assert (Hjoin : join [59; 32] ((p :: before) ++ [name ++ 61 :: value] ++ after)
                    = p ++ 59 :: 32 :: join [59; 32]
                                       (before ++ [name ++ 61 :: value] ++ after)).
    { cbn [app]. destruct before; reflexivity. }
    rewrite Hjoin, app_assoc, (split_at 59 _ _ Hfree).
    cbn [find_cookie].
    assert (Htrim : trim (lead ++ p) = trim p).
    { destruct Hlead as [-> | ->]; reflexivity. }
    rewrite Htrim. unfold cookie_name_of in Hkey.
    destruct (split 61 (trim p)) as [|k rest].
    + apply (IH [32]). right. reflexivity.
    + rewrite (jsstring_eqb_neq _ _ Hkey). apply (IH [32]). right. reflexivity.
Qed.

Lemma join_keeps (sep : jsstring) (parts : list jsstring) (p : jsstring) (c : Z) :
  In p parts -> In c p -> In c (join sep parts).
Proof.
  intros Hp Hc. induction parts as [|q parts IH]; [contradiction|].
  destruct parts as [|q' parts'].
  - destruct Hp as [-> | []]. exact Hc.
  - change (join sep (q :: q' :: parts')) with (q ++ sep ++ join sep (q' :: parts')).
    destruct Hp as [-> | Hp].
    + apply in_or_app. left. exact Hc.
    + apply in_or_app. right. apply in_or_app. right. apply IH. exact Hp.
Qed.

(** X1.  [getCookie] finds a cookie wherever it stands in the Cookie
    header: when the header lists the pair [name=value] after cookies of
    other names, whatever follows it, the value is returned whole, also
    when it contains [=]. *)
Theorem getCookie_reads_back (request : request) (name value : jsstring)
    (before after : list jsstring) :
  forallb cookie_name_char name = true ->
  forallb cookie_value_char value = true ->
  Forall (fun p => Forall (fun c => c <> 59) p /\ cookie_name_of p <> name) before ->
  header_Cookie request
  = Some (join (js "; ") (before ++ [name ++ js "=" ++ value] ++ after)) ->
  getCookie request name = Some value.
Proof.
  intros Hname Hvalue Hbefore Hheader. unfold getCookie. rewrite Hheader.
  pose proof (find_cookie_join name value before after Hname Hvalue Hbefore []
                (or_introl eq_refl)) as Hfind.
  change ([] ++ ?h) with h in Hfind.
  assert (Hin : In 61 (join (js "; ") (before ++ [name ++ js "=" ++ value] ++ after))).
  { apply (join_keeps _ _ (name ++ js "=" ++ value)).
    - apply in_or_app. right. left. reflexivity.
    - apply in_or_app. right. left. reflexivity. }
  destruct (join (js "; ") (before ++ [name ++ js "=" ++ value] ++ after))
    as [|c header]; [contradiction | exact Hfind].
Qed.

(** ** The characters of a minted cookie *)

Lemma js_cons (a : ascii) (s : string) :
  js (String a s) = Z.of_N (N_of_ascii a) :: js s.
Proof. reflexivity. Qed.

Lemma string_of_uint_digits (d : Decimal.uint) :
  forallb is_digit (js (NilEmpty.string_of_uint d)) = true.
Proof.
  induction d; cbn [NilEmpty.string_of_uint]; [reflexivity | ..];
    rewrite js_cons; cbn [forallb]; rewrite IHd; reflexivity.
Qed.

(** [String(n)] is an optional minus sign and digits. *)
Lemma String_of_Z_chars (n : Z) :
  forallb (fun c => is_digit c || (c =? 45)) (String_of_Z n) = true.
Proof.
  assert (Hu : forall d, forallb (fun c => is_digit c || (c =? 45))
                          (js (NilZero.string_of_uint d)) = true).
  { intros d. apply forallb_forall. intros c Hc.
    assert (Hd : is_digit c = true); [|rewrite Hd; reflexivity].
    destruct d; try (revert c Hc; apply forallb_forall;
                     apply (string_of_uint_digits (_ d))).
    destruct Hc as [<- | []]. reflexivity. }
  unfold String_of_Z. destruct (Z.to_int n) as [d|d]; cbn [NilZero.string_of_int].
  - apply Hu.
  - rewrite js_cons. cbn [forallb]. rewrite Hu. reflexivity.
Qed.

Lemma digit_is_name_char (c : Z) :
  is_digit c || (c =? 45) = true -> cookie_name_char c = true.
Proof.
  intros Hc. apply orb_true_iff in Hc. destruct Hc as [Hc | Hc].
  - unfold is_digit in Hc. bool_facts.
    assert (Hcases : c = 48 \/ c = 49 \/ c = 50 \/ c = 51 \/ c = 52 \/ c = 53
                     \/ c = 54 \/ c = 55 \/ c = 56 \/ c = 57) by lia.
    repeat destruct Hcases as [-> | Hcases]; try subst c; reflexivity.
  - bool_facts. subst c. reflexivity.
Qed.

Lemma name_char_is_value_char (c : Z) :
  cookie_name_char c = true -> cookie_value_char c = true.
Proof.
  unfold cookie_name_char, cookie_value_char. intros Hc.
  apply andb_true_iff in Hc. destruct Hc as [Hc _]. exact Hc.
Qed.

Lemma paidCookieName_chars (courseId : Z) :
  forallb cookie_name_char (paidCookieName courseId) = true.
Proof.
  unfold paidCookieName. rewrite forallb_app. apply andb_true_iff.
  split; [reflexivity|].
  apply forallb_forall. intros c Hc. apply digit_is_name_char.
  revert c Hc. apply forallb_forall. apply String_of_Z_chars.
Qed.

Lemma b64_char_is_value_char (v : Z) :
  0 <= v < 64 -> cookie_value_char (b64_char v) = true.
Proof.
  intros Hv.
  pose proof (checked_below (fun v => cookie_value_char (b64_char v)) 64) as Hc.
  cbv beta in Hc. exact (Hc ltac:(vm_compute; reflexivity) v Hv).
Qed.

Lemma hex_digit_is_value_char (d : Z) :
  0 <= d < 16 -> cookie_value_char (hex_digit d) = true.
Proof.
  intros Hd.
  pose proof (checked_below (fun d => cookie_value_char (hex_digit d)) 16) as Hc.
  cbv beta in Hc. exact (Hc ltac:(vm_compute; reflexivity) d Hd).
Qed.

Lemma btoa_chars (s encoded : jsstring) :
  btoa s = Some encoded -> forallb cookie_value_char encoded = true.
Proof.
  unfold btoa. destruct (forallb _ s) eqn:Hall; [|discriminate].
  intros [= <-].
  assert (Hb : Forall is_byte s).
  { apply Forall_forall. intros c Hc. rewrite forallb_forall in Hall.
    apply list_elem_of_In, Hall in Hc. unfold is_byte. bool_facts. lia. }
  rewrite b64_encode_split, forallb_app. apply andb_true_iff. split.
  - apply forallb_forall. intros c Hc. apply in_map_iff in Hc.
    destruct Hc as (v & <- & Hv). apply b64_char_is_value_char.
    pose proof (b64_sextets_range s Hb) as Hr. rewrite Forall_forall in Hr.
    apply Hr, list_elem_of_In, Hv.
  - destruct (b64_padding_cases s) as [-> | [-> | ->]]; reflexivity.
Qed.

Section MintedCookieFacts.

Context `{Platform}.

Lemma signPayload_chars (payload secret : jsstring) :
  forallb cookie_value_char (signPayload payload secret) = true.
Proof.
  unfold signPayload. apply forallb_forall. intros x Hx.
  apply in_flat_map in Hx. destruct Hx as (b & _ & Hx).
  pose proof (Z_of_byte_range b) as Hb.
  destruct Hx as [<- | [<- | []]]; apply hex_digit_is_value_char;
    Z.div_mod_to_equations; lia.
Qed.

(** A minted token contains neither blanks nor [;]. *)
Lemma createPaidCookie_chars (courseId : Z) (email secret : jsstring) (now_ms : Z)
    (token : jsstring) :
  createPaidCookie courseId email secret now_ms = Some token ->
  forallb cookie_value_char token = true.
Proof.
  intros Hmint. apply createPaidCookie_inv in Hmint.
  destruct Hmint as (encoded & Hbtoa & ->).
  rewrite !forallb_app, (btoa_chars _ _ Hbtoa), signPayload_chars. reflexivity.
Qed.

(** The text of a Set-Cookie header before its first [;]: the pair that
    a browser stores and sends back. *)
Lemma buildPaidCookieHeader_pair (courseId : Z) (value : jsstring) :
  forallb cookie_value_char value = true ->
  hd [] (split 59 (buildPaidCookieHeader courseId value))
  = paidCookieName courseId ++ js "=" ++ value.
Proof.
  intros Hvalue. unfold buildPaidCookieHeader. cbn [join].
  change (js "; ") with [59; 32]. cbn [app].
  rewrite split_at; [reflexivity|].
  destruct (cookie_name_char_facts _ (paidCookieName_chars courseId)) as (_ & Hn & _).
  destruct (cookie_value_char_facts _ Hvalue) as (_ & Hv).
  apply Forall_app. split; [exact Hn|]. constructor; [discriminate | exact Hv].
Qed.

(** The cookie that a login sets is the cookie that the gate reads: when
    a browser returns the name-value pair of the Set-Cookie header built
    for a minted token, after cookies of other names, [getCookie] under
    the course's cookie name yields the token. *)
Lemma getCookie_minted (request : request) (courseId : Z)
    (email secret : jsstring) (mint_ms : Z) (token : jsstring)
    (before after : list jsstring) :
  createPaidCookie courseId email secret mint_ms = Some token ->
  Forall (fun p => Forall (fun c => c <> 59) p
                   /\ cookie_name_of p <> paidCookieName courseId) before ->
  header_Cookie request
  = Some (join (js "; ")
            (before ++ [hd [] (split 59 (buildPaidCookieHeader courseId token))]
               ++ after)) ->
  getCookie request (paidCookieName courseId) = Some token.
Proof.
  intros Hmint Hbefore Hheader.
  pose proof (createPaidCookie_chars _ _ _ _ _ Hmint) as Hchars.
  rewrite (buildPaidCookieHeader_pair courseId token Hchars) in Hheader.
  unfold getCookie. rewrite Hheader.
  pose proof (find_cookie_join (paidCookieName courseId) token before after
                (paidCookieName_chars courseId) Hchars Hbefore []
                (or_introl eq_refl)) as Hfind.
  change ([] ++ ?h) with h in Hfind.
  assert (Hin : In 61 (join (js "; ")
                         (before ++ [paidCookieName courseId ++ js "=" ++ token]
                            ++ after))).
  { apply (join_keeps _ _ (paidCookieName courseId ++ js "=" ++ token)).
    - apply in_or_app. right. left. reflexivity.
    - apply in_or_app. right. left. reflexivity. }
  destruct (join (js "; ")
              (before ++ [paidCookieName courseId ++ js "=" ++ token] ++ after))
    as [|c header]; [contradiction | exact Hfind].
Qed.

End MintedCookieFacts.

(** ** More on the paid course gate *)

Section GateSessions.

Context `{Platform}.

(** A cookie that parses to a session carries a payload signed under the
    secret, and the session is that payload. *)
Lemma parsePaidCookie_truthy (cookieValue secret : jsstring) (now_ms : Z) :
  truthy (parsePaidCookie cookieValue secret now_ms) = true ->
  exists dotIndex decoded,
    lastIndexOf 46 cookieValue = Some dotIndex
    /\ verifySignature (firstn dotIndex cookieValue) (skipn (S dotIndex) cookieValue)
         secret = true
    /\ atob (firstn dotIndex cookieValue) = Some decoded
    /\ JSON_parse decoded = Some (parsePaidCookie cookieValue secret now_ms).
Proof.
  unfold parsePaidCookie. destruct cookieValue as [|c0 tok]; [discriminate|].
  destruct (lastIndexOf 46 (c0 :: tok)) as [dotIndex|]; [|discriminate].
  destruct (verifySignature _ _ secret) eqn:Hsig; [|discriminate]. cbn [negb].
  destruct (atob _) as [decoded|] eqn:Hatob; [|discriminate].
  destruct (JSON_parse decoded) as [data|] eqn:Hparse; [|discriminate].
  intros Htruthy. exists dotIndex, decoded.
  split; [reflexivity|]. split; [exact Hsig|]. split; [exact Hatob|].
  rewrite Hparse. f_equal.
  destruct (get_prop data (js "exp")) as [[|e]|]; [reflexivity | | discriminate].
  destruct (truthy e); [|reflexivity].
  destruct (lt_number e (now_ms / 1000)) as [[|]|];
    [discriminate | reflexivity | discriminate].
Qed.

(** [getDriveUrl] asks the authority once and never throws. *)
Lemma getDriveUrl_run (courseId : Z) (w : world) :
  getDriveUrl courseId w
  = (Ok (driveUrl_of (authority w (GetDriveUrl (String_of_Z courseId)))),
     with_call w (GetDriveUrl (String_of_Z courseId))).
Proof. reflexivity. Qed.

Lemma wp_getDriveUrl (courseId : Z) (Q : result (option jsstring) -> world -> Prop)
    (w : world) :
  Q (Ok (driveUrl_of (authority w (GetDriveUrl (String_of_Z courseId)))))
    (with_call w (GetDriveUrl (String_of_Z courseId))) ->
  wp (getDriveUrl courseId) Q w.
Proof. unfold wp. rewrite getDriveUrl_run. intros HQ. exact HQ. Qed.

(** X2.  The gate serves only a verified session.  Whenever it answers
    302 or 503, the request carries, under the cookie name of the course
    of the path, a token whose signature verifies under the secret and
    whose signed payload names that course; the authority has been asked
    for the URL of that course, once, and the response is the redirect
    to the URL it returned, or the 503 page when it returned none.  The
    course id of the path is taken in the range where [parseInt] is
    exact. *)
Theorem gate_serves_only_verified (request : request) (env : environment)
    (now : Z) (w : world) (courseId : Z) (r : response) :
  gate_courseId (pathname request) = Some courseId ->
  courseId <= 2 ^ 53 ->
  fst (handlePaidCourseGate request env now w) = Ok r ->
  status r = 302 \/ status r = 503 ->
  1 <= courseId
  /\ exists cookieValue dotIndex decoded session,
       getCookie request (paidCookieName courseId) = Some cookieValue
       /\ lastIndexOf 46 cookieValue = Some dotIndex
       /\ verifySignature (firstn dotIndex cookieValue) (skipn (S dotIndex) cookieValue)
            (COOKIE_SECRET env) = true
       /\ atob (firstn dotIndex cookieValue) = Some decoded
       /\ JSON_parse decoded = Some session
       /\ field_text session (js "courseId") = Some (String_of_Z courseId)
       /\ r = match driveUrl_of (authority w (GetDriveUrl (String_of_Z courseId))) with
              | Some url => gate_redirect url
              | None => gate_unavailable env
              end
       /\ calls (snd (handlePaidCourseGate request env now w))
          = calls w ++ [GetDriveUrl (String_of_Z courseId)].
Proof.
  intros Hid _. revert r.
  change (wp (handlePaidCourseGate request env now)
            (fun res w' =>
               forall r, res = Ok r -> status r = 302 \/ status r = 503 ->
               1 <= courseId
               /\ exists cookieValue dotIndex decoded session,
                    getCookie request (paidCookieName courseId) = Some cookieValue
                    /\ lastIndexOf 46 cookieValue = Some dotIndex
                    /\ verifySignature (firstn dotIndex cookieValue)
                         (skipn (S dotIndex) cookieValue) (COOKIE_SECRET env) = true
                    /\ atob (firstn dotIndex cookieValue) = Some decoded
                    /\ JSON_parse decoded = Some session
                    /\ field_text session (js "courseId") = Some (String_of_Z courseId)
                    /\ r = match driveUrl_of
                                   (authority w (GetDriveUrl (String_of_Z courseId))) with
                           | Some url => gate_redirect url
                           | None => gate_unavailable env
                           end
                    /\ calls w' = calls w ++ [GetDriveUrl (String_of_Z courseId)]) w).
  unfold handlePaidCourseGate. rewrite Hid.
  repeat first [ apply wp_getDriveUrl | wp_step ]; lazy beta iota.
  all: intros r [= <-] [Hstatus | Hstatus]; try discriminate Hstatus.
  all: split; [bool_facts; lia|].
  all: match goal with
       | Htruthy : truthy (parsePaidCookie ?v _ _) = true,
         Hsame : jsstring_eqb ?o _ = true |- _ =>
           destruct (parsePaidCookie_truthy _ _ _ Htruthy)
             as (dotIndex & decoded & Hdot & Hsig & Hatob & Hparse);
           apply jsstring_eqb_eq in Hsame; subst o;
           exists v, dotIndex, decoded, (parsePaidCookie v (COOKIE_SECRET env) now)
       end.
  all: repeat split; try assumption; try reflexivity.
Qed.

(** The gate on a request that carries a minted cookie of the course. *)
Lemma gate_with_minted_cookie (request : request) (env : environment)
    (now : Z) (w : world) (courseId : Z) (email token : jsstring) (mint_ms : Z) :
  let claim := session_claim courseId email (mint_ms / 1000) in
  let exp := mint_ms / 1000 + PAID_COOKIE_MAX_AGE in
  let ask := GetDriveUrl (String_of_Z courseId) in
  gate_courseId (pathname request) = Some courseId ->
  1 <= courseId ->
  0 <= mint_ms ->
  createPaidCookie courseId email (COOKIE_SECRET env) mint_ms = Some token ->
  JSON_parse (JSON_stringify claim) = Some claim ->
  getCookie request (paidCookieName courseId) = Some token ->
  handlePaidCourseGate request env now w
  = if exp <? now / 1000
    then (Ok (buildPaidLoginPage courseId None (default [] (WHATSAPP_NUMBER env))), w)
    else (Ok match driveUrl_of (authority w ask) with
             | Some url => gate_redirect url
             | None => gate_unavailable env
             end,
          with_call w ask).
Proof.
  intros claim exp ask Hid Hpos Hmint_pos Hmint Hjson Hcookie.
  assert (Hexp : 0 < exp).
  { unfold exp, PAID_COOKIE_MAX_AGE. Z.div_mod_to_equations. lia. }
  unfold handlePaidCourseGate.
  rewrite Hid. destruct (Z.ltb_spec courseId 1) as [|_]; [lia|].
  rewrite Hcookie.
  destruct token as [|c value].
  { apply createPaidCookie_inv in Hmint. destruct Hmint as (e & _ & He).
    destruct e; discriminate. }
  rewrite (parsePaidCookie_minted _ _ _ _ now _ Hmint Hjson).
  fold exp. fold claim.
  destruct (Z.eqb_spec exp 0) as [|_]; [lia|]. cbn [negb andb].
  destruct (exp <? now / 1000); [reflexivity|].
  change (truthy claim) with true. cbv iota.
  change (get_prop claim (js "courseId"))
    with (Some (Val (JStr (String_of_Z courseId)))).
  cbn [ToString_val ToString orThrow]. unfold bind at 1, ret at 1.
  rewrite jsstring_eqb_refl. unfold bind. rewrite getDriveUrl_run. fold ask.
  destruct (driveUrl_of (authority w ask)); reflexivity.
Qed.

(** X3.  The gate honours a minted cookie exactly until its expiry second.
    Up to and including the second [exp] the holder is never challenged:
    the authority is asked for the course's URL, once, and the answer is
    the redirect to the URL it returns, or the 503 page when it returns
    no non-empty URL.  From the next second on the answer is the login
    page of the course, and nothing is asked of the authority.  The
    course id is taken in the range where [parseInt] is exact. *)
Theorem gate_honours_cookie_until_expiry (request : request) (env : environment)
    (now : Z) (w : world) (courseId : Z) (email token : jsstring) (mint_ms : Z) :
  let claim := session_claim courseId email (mint_ms / 1000) in
  let exp := mint_ms / 1000 + PAID_COOKIE_MAX_AGE in
  let ask := GetDriveUrl (String_of_Z courseId) in
  let out := handlePaidCourseGate request env now w in
  gate_courseId (pathname request) = Some courseId ->
  1 <= courseId <= 2 ^ 53 ->
  0 <= mint_ms ->
  createPaidCookie courseId email (COOKIE_SECRET env) mint_ms = Some token ->
  JSON_parse (JSON_stringify claim) = Some claim ->
  getCookie request (paidCookieName courseId) = Some token ->
  (now / 1000 <= exp ->
   out = (Ok match driveUrl_of (authority w ask) with
             | Some url => gate_redirect url
             | None => gate_unavailable env
             end,
          with_call w ask))
  /\ (exp < now / 1000 ->
      out = (Ok (buildPaidLoginPage courseId None (default [] (WHATSAPP_NUMBER env))), w)).
Proof.
  intros claim exp ask out Hid [Hpos _] Hmint_pos Hmint Hjson Hcookie. subst out.
  rewrite (gate_with_minted_cookie request env now w courseId email token mint_ms
             Hid Hpos Hmint_pos Hmint Hjson Hcookie).
  fold exp. fold ask. split; intros Hnow.
  - destruct (Z.ltb_spec exp (now / 1000)) as [|_]; [lia | reflexivity].
  - destruct (Z.ltb_spec exp (now / 1000)) as [_|]; [reflexivity | lia].
Qed.

End GateSessions.

(** ** The outcome of a login *)

Section LoginOutcome.

Context `{Platform}.

(** Rewrites the goal with the tests recorded on the way to a leaf. *)
Ltac replay_recorded :=
  repeat match goal with
         | Htest : _ = _ |- _ => rewrite Htest; clear Htest
         end.

(** The login handler, from its validation to its answer. *)
Lemma handlePaidLogin_outcome (request : request) (env : environment) (now : Z)
    (w : world) :
  let out := handlePaidLogin request env now w in
  let ip := header_or (header_CFConnectingIP request) (js "unknown") in
  let rateCheck := fst (checkRateLimit ip (js "PAID_LOGIN") now (rate_cache w)) in
  let cors := getCorsHeaders env in
  match login_validation request env now (rate_cache w) with
  | FailsAt check =>
      fst out = Ok (login_rejection env (ceil_div (resetAt rateCheck - now) 1000) check)
      /\ calls (snd out) = calls w
  | Unreadable => fst out = Thrown /\ calls (snd out) = calls w
  | Passes email password courseId =>
      calls (snd out) = calls w ++ [VerifyAccess email password (String_of_Z courseId)]
      /\ fst out
      = match authority w (VerifyAccess email password (String_of_Z courseId)) with
        | NetworkError | HttpResponse true None =>
            Ok (jsonResponse 502 (error_body (js "Verification service unavailable"))
                  cors)
        | HttpResponse false _ =>
            Ok (jsonResponse 502 (error_body (js "Verification service error")) cors)
        | HttpResponse true (Some scriptResult) =>
            match get_prop scriptResult (js "valid") with
            | None => Thrown
            | Some valid =>
                if negb (truthy_val valid) then
                  Ok (jsonResponse 401
                        (error_body (js "Invalid email or password, or you are not enrolled in this course."))
                        cors)
                else
                  match createPaidCookie courseId email (COOKIE_SECRET env) now with
                  | None => Thrown
                  | Some cookieValue =>
                      Ok (jsonResponse 200
                            (JObj [ (js "status", JStr (js "success"));
                                    (js "redirect",
                                     JStr (js "/course/paid/" ++ String_of_Z courseId)) ])
                            (cors ++ [(js "Set-Cookie",
                                       buildPaidCookieHeader courseId cookieValue)]))
                  end
            end
        end
  end.
Proof.
  intros out ip rateCheck cors. subst out rateCheck cors.
  change (wp (handlePaidLogin request env now)
            (fun r w' =>
               match login_validation request env now (rate_cache w) with
               | FailsAt check =>
                   r = Ok (login_rejection env
                             (ceil_div
                                (resetAt (fst (checkRateLimit ip (js "PAID_LOGIN") now
                                                 (rate_cache w))) - now) 1000) check)
                   /\ calls w' = calls w
               | Unreadable => r = Thrown /\ calls w' = calls w
               | Passes email password courseId =>
                   calls w' = calls w
                                ++ [VerifyAccess email password (String_of_Z courseId)]
                   /\ r = match authority w
                               (VerifyAccess email password (String_of_Z courseId)) with
                       | NetworkError | HttpResponse true None =>
                           Ok (jsonResponse 502
                                 (error_body (js "Verification service unavailable"))
                                 (getCorsHeaders env))
                       | HttpResponse false _ =>
                           Ok (jsonResponse 502
                                 (error_body (js "Verification service error"))
                                 (getCorsHeaders env))
                       | HttpResponse true (Some scriptResult) =>
                           match get_prop scriptResult (js "valid") with
                           | None => Thrown
                           | Some valid =>
                               if negb (truthy_val valid) then
                                 Ok (jsonResponse 401
                                       (error_body (js "Invalid email or password, or you are not enrolled in this course."))
                                       (getCorsHeaders env))
                               else
                                 match createPaidCookie courseId email
                                         (COOKIE_SECRET env) now with
                                 | None => Thrown
                                 | Some cookieValue =>
                                     Ok (jsonResponse 200
                                           (JObj [ (js "status", JStr (js "success"));
                                                   (js "redirect",
                                                    JStr (js "/course/paid/"
                                                            ++ String_of_Z courseId)) ])
                                           (getCorsHeaders env
                                              ++ [(js "Set-Cookie",
                                                   buildPaidCookieHeader courseId
                                                     cookieValue)]))
                                 end
                           end
                       end
               end) w).
  unfold handlePaidLogin. fold ip. wp_run.
  all: cbn [authority with_rate_cache with_call] in *.
  all: unfold login_validation, login_fields, field_text; fold ip.
  all: replay_recorded.
  all: cbn [negb ToString_val]; lazy beta iota.
  all: replay_recorded.
  all: split; reflexivity.
Qed.

End LoginOutcome.

(** ** Minting: which emails fit in a cookie *)

Lemma list_ind2 {A : Type} (P : list A -> Prop) :
  P [] -> (forall a, P [a]) ->
  (forall a b r, P r -> P (b :: r) -> P (a :: b :: r)) ->
  forall l, P l.
Proof.
  intros H0 H1 H2 l.
  assert (Hboth : P l /\ forall a, P (a :: l)).
  { induction l as [|b r [IHr IHbr]]; [split; [exact H0 | exact H1]|].
    split; [apply IHbr|]. intros a. apply H2; [exact IHr | apply IHbr]. }
  apply Hboth.
Qed.

(** [JSON.stringify] leaves a code unit above U+00FF that is not a
    surrogate as it is. *)
Lemma quote_unit_wide (c : Z) :
  255 < c -> is_high_surrogate c = false -> is_low_surrogate c = false ->
  quote_unit c = [c].
Proof.
  intros Hc Hhigh Hlow. unfold quote_unit. rewrite Hhigh, Hlow.
  repeat match goal with
         | |- context [?a =? ?b] => destruct (Z.eqb_spec a b); [lia|]
         end.
  destruct (Z.ltb_spec c 32); [lia|]. reflexivity.
Qed.

Lemma quote_units_keeps (c : Z) (s : jsstring) :
  255 < c -> is_high_surrogate c = false -> is_low_surrogate c = false ->
  In c s -> In c (quote_units s).
Proof.
  intros Hc Hhigh Hlow. induction s as [| a | a b r IHr IHbr] using list_ind2.
  - intros [].
  - intros [-> | []]. cbn [quote_units]. rewrite Hhigh.
    rewrite app_nil_r, (quote_unit_wide c Hc Hhigh Hlow). left. reflexivity.
  - intros Hin.
    assert (Hstep : quote_units (a :: b :: r) = a :: b :: quote_units r
                                                /\ is_high_surrogate a = true
                                                /\ is_low_surrogate b = true
                    \/ quote_units (a :: b :: r) = quote_unit a ++ quote_units (b :: r)).
    { cbn [quote_units]. destruct (is_high_surrogate a); [|right; reflexivity].
      destruct (is_low_surrogate b); [left; repeat split | right; reflexivity]. }
    destruct Hstep as [(-> & Ha & Hb) | ->].
    + destruct Hin as [-> | [-> | Hin]]; [congruence | congruence |].
      right. right. apply IHr. exact Hin.
    + apply in_or_app. destruct Hin as [-> | Hin].
      * left. rewrite (quote_unit_wide c Hc Hhigh Hlow). left. reflexivity.
      * right. apply IHbr. exact Hin.
Qed.

Lemma hex_digit_byte (d : Z) : 0 <= d < 16 -> is_byte (hex_digit d).
Proof. intros Hd. unfold is_byte, hex_digit. destruct (d <? 10); lia. Qed.

Lemma quote_unit_latin1 (c : Z) : is_byte c -> Forall is_byte (quote_unit c).
Proof.
  intros Hc. unfold quote_unit.
  repeat match goal with
         | |- context [if ?a =? ?b then _ else _] =>
             destruct (a =? b); [repeat constructor; unfold is_byte; lia|]
         end.
  destruct ((c <? 32) || (is_high_surrogate c || is_low_surrogate c)) eqn:Hesc.
  - assert (Hhex : Forall is_byte (unicode_escape c)).
    { unfold unicode_escape, hex4. cbn [app].
      repeat constructor; try (unfold is_byte; lia);
        apply hex_digit_byte; Z.div_mod_to_equations; lia. }
    destruct (c <? 32); [exact Hhex|].
    destruct (is_high_surrogate c || is_low_surrogate c); [exact Hhex | discriminate].
  - apply orb_false_iff in Hesc. destruct Hesc as [-> ->].
    constructor; [exact Hc | constructor].
Qed.

Lemma quote_units_latin1 (s : jsstring) :
  Forall is_byte s -> Forall is_byte (quote_units s).
Proof.
  induction 1 as [|c s Hc _ IH]; [constructor|].
  cbn [quote_units].
  assert (Hhigh : is_high_surrogate c = false).
  { unfold is_high_surrogate, is_byte in *. destruct (Z.leb_spec 55296 c); [lia|].
    reflexivity. }
  rewrite Hhigh. apply Forall_app. split; [apply quote_unit_latin1, Hc | exact IH].
Qed.

Lemma String_of_Z_latin1 (n : Z) : Forall is_byte (String_of_Z n).
Proof.
  apply Forall_forall. intros c Hc. apply list_elem_of_In in Hc.
  pose proof (String_of_Z_chars n) as Hall. rewrite forallb_forall in Hall.
  apply Hall in Hc. apply orb_true_iff in Hc. unfold is_byte.
  destruct Hc as [Hc | Hc]; [unfold is_digit in Hc|]; bool_facts; lia.
Qed.

Lemma quote_latin1 (s : jsstring) : Forall is_byte s -> Forall is_byte (quote s).
Proof.
  intros Hs. unfold quote. apply Forall_app. split; [repeat constructor; unfold is_byte; lia|].
  apply Forall_app. split; [apply quote_units_latin1, Hs|].
  repeat constructor; unfold is_byte; lia.
Qed.

Lemma js_latin1 (s : string) : Forall is_byte (js s).
Proof.
  unfold js. apply Forall_forall. intros c Hc. apply list_elem_of_In, in_map_iff in Hc.
  destruct Hc as (a & <- & _). unfold is_byte.
  pose proof (N_ascii_bounded a) as Ha. lia.
Qed.

Section MintingFacts.

Context `{Platform}.

(** Minting succeeds for an email of Latin-1 characters. *)
Lemma createPaidCookie_latin1 (courseId : Z) (email secret : jsstring) (now_ms : Z) :
  Forall is_byte email ->
  exists token, createPaidCookie courseId email secret now_ms = Some token.
Proof.
  intros Hemail. unfold createPaidCookie, btoa.
  assert (Hbytes : Forall is_byte
                     (JSON_stringify (session_claim courseId email (now_ms / 1000)))).
  { unfold session_claim. cbn [JSON_stringify map join].
    repeat first [ apply js_latin1 | apply String_of_Z_latin1 | exact Hemail
                 | apply quote_latin1 | apply Forall_app; split ]. }
  assert (Hall : forallb (fun c => (0 <=? c) && (c <=? 255))
                   (JSON_stringify (session_claim courseId email (now_ms / 1000)))
                 = true).
  { apply forallb_forall. intros c Hc. rewrite Forall_forall in Hbytes.
    apply list_elem_of_In, Hbytes in Hc. unfold is_byte in Hc.
    apply andb_true_iff. split; [apply Z.leb_le | apply Z.leb_le]; lia. }
  rewrite Hall. eexists. reflexivity.
Qed.

(** Minting throws for an email with a character above U+00FF: [btoa]
    rejects the serialised claim. *)
Lemma createPaidCookie_wide (courseId : Z) (email secret : jsstring) (now_ms c : Z) :
  In c email ->
  255 < c -> is_high_surrogate c = false -> is_low_surrogate c = false ->
  createPaidCookie courseId email secret now_ms = None.
Proof.
  intros Hin Hc Hhigh Hlow. unfold createPaidCookie, btoa.
  assert (Hpayload : In c (JSON_stringify (session_claim courseId email (now_ms / 1000)))).
  { unfold session_claim. cbn [JSON_stringify map].
    apply in_or_app. right. apply in_or_app. left.
    apply (join_keeps _ _ (quote (js "email") ++ js ":" ++ quote email)).
    - right. left. reflexivity.
    - apply in_or_app. right. apply in_or_app. right. unfold quote.
      apply in_or_app. right. apply in_or_app. left.
      apply quote_units_keeps; assumption. }
  destruct (forallb _ _) eqn:Hall; [|reflexivity].
  rewrite forallb_forall in Hall. apply Hall in Hpayload. bool_facts. lia.
Qed.

End MintingFacts.

(** ** From a login to the course *)

Section LoginSessions.

Context `{Platform}.

(** What a request that passes the validation of the login looks like. *)
Lemma login_validation_passes (request : request) (env : environment) (now : Z)
    (cache : gmap jsstring (rate_window * Z)) (email password : jsstring)
    (courseId : Z) :
  login_validation request env now cache = Passes email password courseId ->
  isOriginAllowed request env = true
  /\ method request = js "POST"
  /\ email_regex_test email = true
  /\ 4 <= Z.of_nat (length password) <= 128
  /\ 1 <= courseId.
Proof.
  unfold login_validation.
  destruct (negb (isOriginAllowed request env)) eqn:Horigin; [discriminate|].
  destruct (negb (jsstring_eqb (method request) (js "POST"))) eqn:Hmethod;
    [discriminate|].
  destruct (negb (includes _ _)); [discriminate|].
  destruct (negb (allowed _)); [discriminate|].
  destruct (text request) as [raw|]; [|discriminate].
  destruct (_ >? MAX_BODY_SIZE); [discriminate|].
  destruct (JSON_parse raw) as [body|]; [|discriminate].
  destruct (login_fields body) as [[[e p] c]|]; [|discriminate].
  destruct (negb (email_regex_test e)) eqn:Hemail; [discriminate|].
  destruct ((Z.of_nat (length p) <? 4) || (Z.of_nat (length p) >? 128)) eqn:Hlen;
    [discriminate|].
  destruct c as [id|]; [|discriminate].
  destruct (id <? 1) eqn:Hid; [discriminate|].
  intros [= <- <- <-]. bool_facts.
  apply jsstring_eqb_eq in Hmethod. repeat split; try assumption; lia.
Qed.

Lemma login_rejection_sets_no_cookie (env : environment) (retryAfter : Z)
    (check : login_check) :
  get_header (js "Set-Cookie") (headers (login_rejection env retryAfter check)) = None.
Proof. destruct check; reflexivity. Qed.

(** X4.  The login handler sets a cookie only on approval: a response
    with a Set-Cookie header has status 200, the request passed the whole
    validation, the authority was asked to verify these credentials for
    this course and answered ok with a truthy [valid], and the header is
    the cookie header of a token minted for this course and email.  The
    course id that the handler reads in the body is taken in the range
    where [parseInt] is exact. *)
Theorem login_sets_cookie_only_on_approval (request : request) (env : environment)
    (now : Z) (w : world) (r : response) (setCookie : jsstring) :
  (forall email password courseId,
      login_validation request env now (rate_cache w) = Passes email password courseId ->
      courseId <= 2 ^ 53) ->
  fst (handlePaidLogin request env now w) = Ok r ->
  get_header (js "Set-Cookie") (headers r) = Some setCookie ->
  status r = 200
  /\ exists email password courseId data valid token,
       login_validation request env now (rate_cache w)
       = Passes email password courseId
       /\ calls (snd (handlePaidLogin request env now w))
          = calls w ++ [VerifyAccess email password (String_of_Z courseId)]
       /\ authority w (VerifyAccess email password (String_of_Z courseId))
          = HttpResponse true (Some data)
       /\ get_prop data (js "valid") = Some valid
       /\ truthy_val valid = true
       /\ createPaidCookie courseId email (COOKIE_SECRET env) now = Some token
       /\ setCookie = buildPaidCookieHeader courseId token.
Proof.
  intros _ Hout Hheader.
  pose proof (handlePaidLogin_outcome request env now w) as Hlogin. cbv zeta in Hlogin.
  destruct (login_validation request env now (rate_cache w))
    as [check| |email password courseId] eqn:Hspec.
  - destruct Hlogin as [Hlogin _]. rewrite Hlogin in Hout. injection Hout as <-.
    rewrite login_rejection_sets_no_cookie in Hheader. discriminate.
  - destruct Hlogin as [Hlogin _]. rewrite Hlogin in Hout. discriminate.
  - destruct Hlogin as [Hcalls Hlogin]. rewrite Hlogin in Hout.
    destruct (authority w _) as [|[|] [data|]] eqn:Hres;
      try (injection Hout as <-; discriminate Hheader).
    destruct (get_prop data (js "valid")) as [valid|] eqn:Hvalid; [|discriminate].
    destruct (truthy_val valid) eqn:Htruthy; cbn [negb] in Hout;
      [|injection Hout as <-; discriminate Hheader].
    destruct (createPaidCookie _ _ _ _) as [token|] eqn:Hmint; [|discriminate].
    injection Hout as <-. injection Hheader as <-.
    split; [reflexivity|]. exists email, password, courseId, data, valid, token.
    repeat split; assumption.
Qed.

(** X5.  From a login to the course.  When a login passes the validation
    and the authority approves it, for an email of Latin-1 characters,
    the answer is 200 with the redirect to the course and a Set-Cookie
    header; and whenever a browser returns the name-value pair of that
    header to the gate of the course, after cookies of other names, at
    any clock reading up to the expiry second, the gate does not ask for
    credentials again: it asks the authority for the course's URL and
    answers with the redirect to it, or with the 503 page.  The course
    id is taken in the range where [parseInt] is exact. *)
Theorem login_then_gate (login : request) (env : environment) (t0 : Z) (w0 : world)
    (email password : jsstring) (courseId : Z) (data : json) (valid : jsval) :
  let claim := session_claim courseId email (t0 / 1000) in
  let ask := GetDriveUrl (String_of_Z courseId) in
  login_validation login env t0 (rate_cache w0) = Passes email password courseId ->
  courseId <= 2 ^ 53 ->
  authority w0 (VerifyAccess email password (String_of_Z courseId))
  = HttpResponse true (Some data) ->
  get_prop data (js "valid") = Some valid ->
  truthy_val valid = true ->
  latin1 email = true ->
  0 <= t0 ->
  JSON_parse (JSON_stringify claim) = Some claim ->
  exists setCookie,
    fst (handlePaidLogin login env t0 w0)
    = Ok (jsonResponse 200
            (JObj [ (js "status", JStr (js "success"));
                    (js "redirect", JStr (js "/course/paid/" ++ String_of_Z courseId)) ])
            (getCorsHeaders env ++ [(js "Set-Cookie", setCookie)]))
    /\ forall (visit : request) (t1 : Z) (w1 : world) (before after : list jsstring),
         gate_courseId (pathname visit) = Some courseId ->
         Forall (fun p => Forall (fun c => c <> 59) p
                          /\ cookie_name_of p <> paidCookieName courseId) before ->
         header_Cookie visit
         = Some (join (js "; ") (before ++ [hd [] (split 59 setCookie)] ++ after)) ->
         t1 / 1000 <= t0 / 1000 + PAID_COOKIE_MAX_AGE ->
         handlePaidCourseGate visit env t1 w1
         = (Ok match driveUrl_of (authority w1 ask) with
               | Some url => gate_redirect url
               | None => gate_unavailable env
               end,
            with_call w1 ask).
Proof.
  intros claim ask Hspec _ Hres Hvalid Htruthy Hlatin Ht0 Hjson.
  assert (Hbytes : Forall is_byte email).
  { apply Forall_forall. intros c Hc. unfold latin1 in Hlatin.
    rewrite forallb_forall in Hlatin. apply list_elem_of_In, Hlatin in Hc.
    unfold is_byte. bool_facts. lia. }
  destruct (createPaidCookie_latin1 courseId email (COOKIE_SECRET env) t0 Hbytes)
    as (token & Hmint).
  exists (buildPaidCookieHeader courseId token). split.
  - pose proof (handlePaidLogin_outcome login env t0 w0) as Hlogin. cbv zeta in Hlogin.
    rewrite Hspec in Hlogin. destruct Hlogin as [_ Hlogin].
    rewrite Hlogin, Hres, Hvalid, Htruthy, Hmint. reflexivity.
  - intros visit t1 w1 before after Hid Hbefore Hheader Hnow.
    destruct (login_validation_passes _ _ _ _ _ _ _ Hspec) as (_ & _ & _ & _ & Hpos).
    pose proof (getCookie_minted visit courseId email (COOKIE_SECRET env) t0 token
                  before after Hmint Hbefore Hheader) as Hcookie.
    rewrite (gate_with_minted_cookie visit env t1 w1 courseId email token t0
               Hid Hpos Ht0 Hmint Hjson Hcookie).
    destruct (Z.ltb_spec (t0 / 1000 + PAID_COOKIE_MAX_AGE) (t1 / 1000)) as [|_];
      [lia | reflexivity].
Qed.

(** X6.  A character above U+00FF that is left in the email makes minting
    fail.  When a login passes the validation and the authority approves
    it, but the email as the handler keeps it (trimmed and lower-cased)
    contains a code unit above U+00FF that is not a surrogate, minting
    the cookie throws after the authority has been asked, and the entry
    point answers 500 without a cookie.  (A character that lower-casing
    brings below U+0100, or a surrogate, is not such a code unit.)  The
    course id is taken in the range where [parseInt] is exact. *)
Theorem wide_email_login_is_answered_500 (request : request) (env : environment)
    (now : Z) (w : world) (email password : jsstring) (courseId : Z) (data : json)
    (valid : jsval) (c : Z) :
  pathname request = js "/api/paid/login" ->
  login_validation request env now (rate_cache w) = Passes email password courseId ->
  courseId <= 2 ^ 53 ->
  authority w (VerifyAccess email password (String_of_Z courseId))
  = HttpResponse true (Some data) ->
  get_prop data (js "valid") = Some valid ->
  truthy_val valid = true ->
  In c email ->
  255 < c ->
  is_high_surrogate c = false ->
  is_low_surrogate c = false ->
  fst (fetch request env now w)
  = Respond (jsonResponse 500 (error_body (js "Internal server error")) [])
  /\ calls (snd (fetch request env now w))
     = calls w ++ [VerifyAccess email password (String_of_Z courseId)].
Proof.
  intros Hpath Hspec _ Hres Hvalid Htruthy Hin Hc Hhigh Hlow.
  destruct (login_validation_passes _ _ _ _ _ _ _ Hspec) as (_ & Hmethod & _).
  pose proof (handlePaidLogin_outcome request env now w) as Hlogin. cbv zeta in Hlogin.
  rewrite Hspec, Hres, Hvalid, Htruthy in Hlogin. cbn [negb] in Hlogin.
  rewrite (createPaidCookie_wide courseId email (COOKIE_SECRET env) now c
             Hin Hc Hhigh Hlow) in Hlogin.
  destruct Hlogin as [Hcalls Hthrown].
  unfold fetch, handleRequest. rewrite Hpath, Hmethod.
  change (jsstring_eqb (js "POST") (js "OPTIONS")) with false.
  change (startsWith (js "/course/paid/") (js "/api/paid/login")) with false.
  change (jsstring_eqb (js "/api/paid/login") (js "/api/paid/login")) with true.
  cbn [andb orb]. unfold bind.
  destruct (handlePaidLogin request env now w) as [[r|] w'].
  - discriminate Hthrown.
  - split; [reflexivity | exact Hcalls].
Qed.

End LoginSessions.

(** ** The ratings read path *)

Lemma settle_puts (now : Z) (w : world) (tasks : list task) (key : jsstring)
    (value : json) (ttlSeconds : Z) :
  pending w = tasks ++ [CachePut key value ttlSeconds] ->
  forall now',
    cache_match (ratings_cache (settle now w)) key now'
    = if now' <? now + ttlSeconds * 1000 then Some value else None.
Proof.
  intros Hpending now'. unfold settle. rewrite Hpending, fold_left_app.
  cbn [fold_left run_task with_pending ratings_cache with_ratings_cache].
  unfold cache_match, cache_put. rewrite lookup_insert_eq. reflexivity.
Qed.

Section RatingsReads.

Context `{Platform}.

(** The read path on a request that passes the rate limit and names a
    course by the decimal of an id of at least 1. *)
Lemma handleGetRatings_valid (request : request) (env : environment) (now : Z)
    (cors : list (jsstring * jsstring)) (w : world) (courseId : Z)
    (courseIdParam : jsstring) :
  let ip := header_or (header_CFConnectingIP request) (js "unknown") in
  let w1 := with_rate_cache w (snd (checkRateLimit ip (js "GET_RATINGS") now
                                      (rate_cache w))) in
  allowed (fst (checkRateLimit ip (js "GET_RATINGS") now (rate_cache w))) = true ->
  query_courseId request = Some courseIdParam ->
  parseInt courseIdParam = Some courseId ->
  String_of_Z courseId = courseIdParam ->
  1 <= courseId ->
  handleGetRatings request env now cors w
  = match cache_match (ratings_cache w) (ratings_cache_key courseId) now with
    | Some payload => (Ok (jsonResponse 200 payload cors), w1)
    | None =>
        match authority w (GetRatings courseId) with
        | NetworkError | HttpResponse true None =>
            (Ok (jsonResponse 502 (error_body (js "Backend unavailable")) cors),
             with_call w1 (GetRatings courseId))
        | HttpResponse false _ =>
            (Ok (jsonResponse 502 (error_body (js "Backend error")) cors),
             with_call w1 (GetRatings courseId))
        | HttpResponse true (Some data) =>
            (Ok (jsonResponse 200 data cors),
             with_pending (with_call w1 (GetRatings courseId))
               (pending w ++ [CachePut (ratings_cache_key courseId) data
                                RATINGS_CACHE_TTL]))
        end
    end.
Proof.
  intros ip w1 Hrate Hquery Hparse Hstring Hpos. unfold handleGetRatings. fold ip.
  unfold bind at 1, rateLimit.
  destruct (checkRateLimit ip (js "GET_RATINGS") now (rate_cache w)) as [check cache]
    eqn:Hcheck.
  cbn [fst snd] in *. rewrite Hrate. cbn [negb]. rewrite Hquery.
  destruct courseIdParam as [|c0 param].
  { vm_compute in Hparse. discriminate. }
  rewrite Hparse, Hstring, jsstring_eqb_refl.
  destruct (Z.ltb_spec courseId 1) as [?|_]; [lia|]. cbn [negb orb].
  unfold bind, matchRatings, callAuthority, waitUntil, ret. cbv beta iota.
  cbn [ratings_cache with_rate_cache authority].
  destruct (cache_match (ratings_cache w) (ratings_cache_key courseId) now);
    [reflexivity|].
  change (authority (with_rate_cache w cache)) with (authority w).
  destruct (authority w (GetRatings courseId)) as [|[|] [data|]]; reflexivity.
Qed.

(** X7.  A ratings read fills the cache for 300 seconds.  When a GET for
    a course misses the cache and the authority answers, the answer is
    returned and its storage is handed to [ctx.waitUntil]; once that task
    has run, every GET for the course that comes less than 300 s later
    (and passes the rate limit) is answered with the same payload without
    asking the authority, and from 300 s on the authority is asked again.
    The course id is taken in the range where [parseInt] and [String]
    are exact. *)
Theorem ratings_read_fills_cache (request : request) (env : environment)
    (now : Z) (w : world) (courseId : Z) (courseIdParam : jsstring) (data : json) :
  let ip := header_or (header_CFConnectingIP request) (js "unknown") in
  let out := handleRatings request env now w in
  let cors := getCorsHeaders env in
  isOriginAllowed request env = true ->
  method request = js "GET" ->
  allowed (fst (checkRateLimit ip (js "GET_RATINGS") now (rate_cache w))) = true ->
  query_courseId request = Some courseIdParam ->
  parseInt courseIdParam = Some courseId ->
  String_of_Z courseId = courseIdParam ->
  1 <= courseId <= 2 ^ 53 ->
  cache_match (ratings_cache w) (ratings_cache_key courseId) now = None ->
  authority w (GetRatings courseId) = HttpResponse true (Some data) ->
  fst out = Ok (jsonResponse 200 data cors)
  /\ calls (snd out) = calls w ++ [GetRatings courseId]
  /\ forall (settled_at later : Z) request',
       let w' := settle settled_at (snd out) in
       let out' := handleRatings request' env later w' in
       isOriginAllowed request' env = true ->
       method request' = js "GET" ->
       allowed (fst (checkRateLimit
                       (header_or (header_CFConnectingIP request') (js "unknown"))
                       (js "GET_RATINGS") later (rate_cache w'))) = true ->
       query_courseId request' = Some courseIdParam ->
       (later < settled_at + RATINGS_CACHE_TTL * 1000 ->
        fst out' = Ok (jsonResponse 200 data cors) /\ calls (snd out') = calls w')
       /\ (settled_at + RATINGS_CACHE_TTL * 1000 <= later ->
           calls (snd out') = calls w' ++ [GetRatings courseId]).
Proof.
  intros ip out cors Horigin Hmethod Hrate Hquery Hparse Hstring [Hpos _] Hmiss Hres.
  assert (Hout : out
                 = (Ok (jsonResponse 200 data cors),
                    with_pending
                      (with_call
                         (with_rate_cache w
                            (snd (checkRateLimit ip (js "GET_RATINGS") now
                                    (rate_cache w))))
                         (GetRatings courseId))
                      (pending w ++ [CachePut (ratings_cache_key courseId) data
                                       RATINGS_CACHE_TTL]))).
  { subst out. unfold handleRatings. rewrite Horigin, Hmethod. cbn [negb].
    change (jsstring_eqb (js "GET") (js "GET")) with true. cbv iota. fold cors.
    rewrite (handleGetRatings_valid request env now cors w courseId courseIdParam
               Hrate Hquery Hparse Hstring Hpos).
    rewrite Hmiss, Hres. reflexivity. }
  assert (Hpending : pending (snd out)
                     = pending w ++ [CachePut (ratings_cache_key courseId) data
                                       RATINGS_CACHE_TTL]).
  { rewrite Hout. reflexivity. }
  split; [rewrite Hout; reflexivity|]. split; [rewrite Hout; reflexivity|].
  clear Hout.
  intros settled_at later request' w' out' Horigin' Hmethod' Hrate' Hquery'.
  pose proof (settle_puts settled_at (snd out) (pending w) (ratings_cache_key courseId)
                data RATINGS_CACHE_TTL Hpending later) as Hcached.
  fold w' in Hcached.
  assert (Hout' : out' = handleGetRatings request' env later cors w').
  { subst out'. unfold handleRatings. rewrite Horigin', Hmethod'. reflexivity. }
  rewrite Hout'.
  rewrite (handleGetRatings_valid request' env later cors w' courseId courseIdParam
             Hrate' Hquery' Hparse Hstring Hpos).
  rewrite Hcached.
  split; intros Hlater.
  - destruct (Z.ltb_spec later (settled_at + RATINGS_CACHE_TTL * 1000)) as [_|]; [|lia].
    split; reflexivity.
  - destruct (Z.ltb_spec later (settled_at + RATINGS_CACHE_TTL * 1000)) as [|_]; [lia|].
    destruct (authority w' (GetRatings courseId)) as [|[|] [payload|]]; reflexivity.
Qed.

(** X8.  The ratings read path asks the authority at most once, and only
    about a course named in the query by the canonical decimal of an
    integer of at least 1: a parameter with a sign, leading zeros, blanks
    or trailing characters never reaches the authority. *)
Theorem ratings_read_validates_course_id (request : request) (env : environment)
    (now : Z) (cors : list (jsstring * jsstring)) (w : world) :
  let out := handleGetRatings request env now cors w in
  calls (snd out) = calls w
  \/ exists courseId,
       calls (snd out) = calls w ++ [GetRatings courseId]
       /\ 1 <= courseId
       /\ query_courseId request = Some (String_of_Z courseId)
       /\ parseInt (String_of_Z courseId) = Some courseId.
Proof.
  intros out. subst out.
  change (wp (handleGetRatings request env now cors)
            (fun _ w' =>
               calls w' = calls w
               \/ exists courseId,
                    calls w' = calls w ++ [GetRatings courseId]
                    /\ 1 <= courseId
                    /\ query_courseId request = Some (String_of_Z courseId)
                    /\ parseInt (String_of_Z courseId) = Some courseId) w).
  unfold handleGetRatings. wp_run.
  all: try (left; reflexivity).
  all: right; eexists; split; [reflexivity|].
  all: bool_facts.
  all: match goal with
       | Hsame : jsstring_eqb _ _ = true |- _ => apply jsstring_eqb_eq in Hsame
       end.
  all: split; [lia|]; split; congruence.
Qed.

End RatingsReads.

(** ** The entry point and the origin check *)

(** Evaluates the comparisons of two literals in the goal. *)
Ltac literal_tests :=
  repeat match goal with
         | |- context [jsstring_eqb (js ?a) (js ?b)] =>
             let v := eval vm_compute in (jsstring_eqb (js a) (js b)) in
             change (jsstring_eqb (js a) (js b)) with v
         | |- context [startsWith (js ?a) (js ?b)] =>
             let v := eval vm_compute in (startsWith (js a) (js b)) in
             change (startsWith (js a) (js b)) with v
         end.

Section EntryPoint.

Context `{Platform}.

Lemma foreign_origin_not_allowed (request : request) (env : environment)
    (origin : jsstring) :
  header_Origin request = Some origin ->
  origin <> [] ->
  ALLOWED_ORIGIN env <> Some origin ->
  isOriginAllowed request env = false.
Proof.
  intros Horigin Hne Hforeign. unfold isOriginAllowed. rewrite Horigin.
  destruct origin as [|c origin]; [contradiction|].
  destruct (ALLOWED_ORIGIN env) as [allowedOrigin|]; [|reflexivity].
  apply jsstring_eqb_neq. congruence.
Qed.

(** X9.  On the four API paths, a request from a foreign origin is
    refused before anything else happens: unless it is a preflight, the
    answer is the bare 403 (no CORS header), no rate limit is charged
    and the authority is not contacted.  A preflight is answered 204
    with the CORS headers, whatever its origin. *)
Theorem foreign_origin_is_rejected (request : request) (env : environment)
    (now : Z) (w : world) (origin : jsstring) :
  header_Origin request = Some origin ->
  origin <> [] ->
  ALLOWED_ORIGIN env <> Some origin ->
  pathname request = js "/api/paid/login" \/ pathname request = js "/api/paid/login/"
  \/ pathname request = js "/api/ratings" \/ pathname request = js "/api/ratings/" ->
  (method request <> js "OPTIONS" ->
   fetch request env now w
   = (Respond (jsonResponse 403 (error_body (js "Origin not allowed")) []), w))
  /\ (method request = js "OPTIONS" ->
      fetch request env now w = (Respond (handleCorsPreflight env), w)).
Proof.
  intros Horigin Hne Hforeign Hpath.
  pose proof (foreign_origin_not_allowed request env origin Horigin Hne Hforeign)
    as Hrefused.
  split; intros Hmethod.
  - unfold fetch, handleRequest. rewrite (jsstring_eqb_neq _ _ Hmethod). cbn [andb].
    unfold handlePaidLogin, handleRatings. rewrite Hrefused. cbn [negb].
    destruct Hpath as [-> | [-> | [-> | ->]]]; literal_tests; reflexivity.
  - unfold fetch, handleRequest. rewrite Hmethod.
    destruct Hpath as [-> | [-> | [-> | ->]]]; literal_tests; reflexivity.
Qed.

(** X10.  Every answer of the login handler and of the ratings handler
    carries the CORS headers, with the configured origin, except the 403
    of the origin check, which is only given to a request that has an
    Origin header. *)
Theorem api_answers_carry_cors (request : request) (env : environment)
    (now : Z) (w : world) :
  carries_cors request env (fst (handlePaidLogin request env now w))
  /\ carries_cors request env (fst (handleRatings request env now w)).
Proof.
  split.
  - change (wp (handlePaidLogin request env now)
              (fun res _ => carries_cors request env res) w).
    unfold handlePaidLogin. wp_run.
    all: unfold carries_cors; try exact I.
    all: first
           [ right; exists []; reflexivity
           | right; eexists; reflexivity
           | left; split; [|reflexivity] ].
    all: match goal with
         | Hrefused : negb (isOriginAllowed _ _) = true |- _ =>
             unfold isOriginAllowed in Hrefused;
             destruct (header_Origin request); [discriminate | discriminate Hrefused]
         end.
  - change (wp (handleRatings request env now)
              (fun res _ => carries_cors request env res) w).
    unfold handleRatings, handleGetRatings, handlePostRating. wp_run.
    all: unfold carries_cors; try exact I.
    all: first
           [ right; exists []; reflexivity
           | right; eexists; reflexivity
           | left; split; [|reflexivity] ].
    all: match goal with
         | Hrefused : negb (isOriginAllowed _ _) = true |- _ =>
             unfold isOriginAllowed in Hrefused;
             destruct (header_Origin request); [discriminate | discriminate Hrefused]
         end.
Qed.

(** X11.  A body that is the JSON literal [null] is not answered 400: on
    the login endpoint and on the ratings write endpoint, when such a
    request has passed the origin, method, content-type, rate-limit and
    size checks, reading its fields throws, and the entry point answers
    500 without CORS headers; the authority is not contacted. *)
Theorem null_body_is_answered_500 (request : request) (env : environment)
    (now : Z) (w : world) (raw : jsstring) :
  let ip := header_or (header_CFConnectingIP request) (js "unknown") in
  isOriginAllowed request env = true ->
  method request = js "POST" ->
  includes (js "application/json") (header_or (header_ContentType request) []) = true ->
  text request = Some raw ->
  Z.of_nat (length raw) <= MAX_BODY_SIZE ->
  JSON_parse raw = Some JNull ->
  (pathname request = js "/api/paid/login"
   /\ allowed (fst (checkRateLimit ip (js "PAID_LOGIN") now (rate_cache w))) = true)
  \/ (pathname request = js "/api/ratings"
      /\ allowed (fst (checkRateLimit ip (js "POST_RATINGS") now (rate_cache w))) = true) ->
  fst (fetch request env now w)
  = Respond (jsonResponse 500 (error_body (js "Internal server error")) [])
  /\ calls (snd (fetch request env now w)) = calls w.
Proof.
  intros ip Horigin Hmethod Hct Htext Hsize Hparse Hpath.
  assert (Hthrown : exists w',
             handleRequest request env now w = (Thrown, w') /\ calls w' = calls w).
  { unfold handleRequest. rewrite Hmethod.
    destruct Hpath as [[-> Hrate] | [-> Hrate]]; literal_tests; cbn [andb orb].
    - assert (Hlogin : wp (handlePaidLogin request env now)
                         (fun r w' => r = Thrown /\ calls w' = calls w) w).
      { unfold handlePaidLogin. rewrite Horigin, Hmethod. literal_tests. cbn [negb].
        rewrite Hct. cbn [negb]. fold ip.
        apply wp_bind, wp_rateLimit. rewrite Hrate. cbn [negb]. lazy beta iota.
        rewrite Htext.
        destruct (Z.gtb_spec (Z.of_nat (length raw)) MAX_BODY_SIZE) as [?|_]; [lia|].
        rewrite Hparse. apply wp_bind, wp_orThrow. split; reflexivity. }
      unfold wp in Hlogin. unfold bind.
      destruct (handlePaidLogin request env now w) as [[r|] w'];
        destruct Hlogin as [Hr Hcalls]; [discriminate|].
      exists w'. split; [reflexivity | exact Hcalls].
    - assert (Hpost : wp (handleRatings request env now)
                        (fun r w' => r = Thrown /\ calls w' = calls w) w).
      { unfold handleRatings. rewrite Horigin, Hmethod. literal_tests. cbn [negb].
        unfold handlePostRating. fold ip.
        apply wp_bind, wp_rateLimit. rewrite Hrate. cbn [negb]. lazy beta iota.
        rewrite Hct. cbn [negb]. rewrite Htext.
        destruct (Z.gtb_spec (Z.of_nat (length raw)) MAX_BODY_SIZE) as [?|_]; [lia|].
        rewrite Hparse. apply wp_bind, wp_orThrow. split; reflexivity. }
      unfold wp in Hpost. unfold bind.
      destruct (handleRatings request env now w) as [[r|] w'];
        destruct Hpost as [Hr Hcalls]; [discriminate|].
      exists w'. split; [reflexivity | exact Hcalls]. }
  destruct Hthrown as (w' & Hrun & Hcalls). unfold fetch. rewrite Hrun.
  split; [reflexivity | exact Hcalls].
Qed.

(** X12.  What the worker leaves to the origin.  A request is passed
    through exactly when it is neither a preflight of an [/api/] path,
    nor under [/course/paid/], nor addressed to one of the four API
    paths; passing it through touches neither the cache nor the
    authority.  Every other request is answered by the worker itself. *)
Theorem worker_passes_through_iff (request : request) (env : environment)
    (now : Z) (w : world) :
  (fst (fetch request env now w) = PassThrough
   <-> ~ (method request = js "OPTIONS"
          /\ startsWith (js "/api/") (pathname request) = true)
       /\ startsWith (js "/course/paid/") (pathname request) = false
       /\ pathname request <> js "/api/paid/login"
       /\ pathname request <> js "/api/paid/login/"
       /\ pathname request <> js "/api/ratings"
       /\ pathname request <> js "/api/ratings/")
  /\ (fst (fetch request env now w) = PassThrough -> snd (fetch request env now w) = w).
Proof.
  assert (Hanswer : forall (handler : M response),
             fst (match bind handler (fun r => ret (Respond r)) w with
                  | (Ok a, w') => (a, w')
                  | (Thrown, w') =>
                      (Respond (jsonResponse 500
                                  (error_body (js "Internal server error")) []), w')
                  end) <> PassThrough).
  { intros handler. unfold bind, ret. destruct (handler w) as [[r|] w']; discriminate. }
  unfold fetch, handleRequest.
  destruct (jsstring_eqb (method request) (js "OPTIONS")) eqn:Hmethod.
  - apply jsstring_eqb_eq in Hmethod.
    destruct (startsWith (js "/api/") (pathname request)) eqn:Hapi; cbn [andb].
    { split; [|discriminate]. split; [discriminate|].
      intros (Hnot & _). exfalso. apply Hnot. split; [exact Hmethod | reflexivity]. }
    destruct (startsWith (js "/course/paid/") (pathname request)) eqn:Hpaid.
    { split; [|intros Hp; destruct (Hanswer _ Hp)].
      split; [intros Hp; destruct (Hanswer _ Hp)|]. intros (_ & Hn & _). discriminate. }
    destruct (jsstring_eqb (pathname request) (js "/api/paid/login")) eqn:H1.
    { apply jsstring_eqb_eq in H1. rewrite H1 in Hapi. discriminate. }
    destruct (jsstring_eqb (pathname request) (js "/api/paid/login/")) eqn:H2.
    { apply jsstring_eqb_eq in H2. rewrite H2 in Hapi. discriminate. }
    destruct (jsstring_eqb (pathname request) (js "/api/ratings")) eqn:H3.
    { apply jsstring_eqb_eq in H3. rewrite H3 in Hapi. discriminate. }
    destruct (jsstring_eqb (pathname request) (js "/api/ratings/")) eqn:H4.
    { apply jsstring_eqb_eq in H4. rewrite H4 in Hapi. discriminate. }
    cbn [orb fst snd ret]. split; [|reflexivity]. split; [|reflexivity].
    intros _. split; [intros [_ Hyes]; discriminate|]. split; [reflexivity|].
    repeat split; intros Heq; rewrite Heq in Hapi; discriminate.
  - cbn [andb].
    assert (Hverb : ~ (method request = js "OPTIONS"
                       /\ startsWith (js "/api/") (pathname request) = true)).
    { intros [Hverb _]. rewrite Hverb in Hmethod. discriminate. }
    destruct (startsWith (js "/course/paid/") (pathname request)) eqn:Hpaid.
    { split; [|intros Hp; destruct (Hanswer _ Hp)].
      split; [intros Hp; destruct (Hanswer _ Hp)|]. intros (_ & Hn & _). discriminate. }
    destruct (jsstring_eqb (pathname request) (js "/api/paid/login")) eqn:H1.
    { apply jsstring_eqb_eq in H1. cbn [orb].
      split; [|intros Hp; destruct (Hanswer _ Hp)].
      split; [intros Hp; destruct (Hanswer _ Hp)|]. intros (_ & _ & Hn & _).
      contradiction. }
    destruct (jsstring_eqb (pathname request) (js "/api/paid/login/")) eqn:H2.
    { apply jsstring_eqb_eq in H2. cbn [orb].
      split; [|intros Hp; destruct (Hanswer _ Hp)].
      split; [intros Hp; destruct (Hanswer _ Hp)|]. intros (_ & _ & _ & Hn & _).
      contradiction. }
    destruct (jsstring_eqb (pathname request) (js "/api/ratings")) eqn:H3.
    { apply jsstring_eqb_eq in H3. cbn [orb].
      split; [|intros Hp; destruct (Hanswer _ Hp)].
      split; [intros Hp; destruct (Hanswer _ Hp)|]. intros (_ & _ & _ & _ & Hn & _).
      contradiction. }
    destruct (jsstring_eqb (pathname request) (js "/api/ratings/")) eqn:H4.
    { apply jsstring_eqb_eq in H4. cbn [orb].
      split; [|intros Hp; destruct (Hanswer _ Hp)].
      split; [intros Hp; destruct (Hanswer _ Hp)|]. intros (_ & _ & _ & _ & _ & Hn).
      contradiction. }
    cbn [orb fst snd ret]. split; [|reflexivity]. split; [|reflexivity].
    intros _. split; [exact Hverb|]. split; [reflexivity|].
    repeat split; intros Heq; rewrite Heq in *;
      rewrite jsstring_eqb_refl in *; discriminate.
Qed.

End EntryPoint.

(** ** More on the rate limiter *)

Lemma configured_action (action : jsstring) (config : rate_config) :
  rate_config_of RATE_LIMITS action = Some config ->
  action = js "PAID_LOGIN" \/ action = js "GET_RATINGS" \/ action = js "POST_RATINGS".
Proof.
  unfold RATE_LIMITS. cbn [rate_config_of].
  destruct (jsstring_eqb action (js "PAID_LOGIN")) eqn:H1;
    [left; apply jsstring_eqb_eq, H1|].
  destruct (jsstring_eqb action (js "GET_RATINGS")) eqn:H2;
    [right; left; apply jsstring_eqb_eq, H2|].
  destruct (jsstring_eqb action (js "POST_RATINGS")) eqn:H3;
    [right; right; apply jsstring_eqb_eq, H3 | discriminate].
Qed.

(** Different clients, or different actions, have different keys. *)
Lemma rate_limit_key_inj (a1 a2 ip1 ip2 : jsstring) (c1 c2 : rate_config) :
  rate_config_of RATE_LIMITS a1 = Some c1 ->
  rate_config_of RATE_LIMITS a2 = Some c2 ->
  rate_limit_key a1 ip1 = rate_limit_key a2 ip2 ->
  a1 = a2 /\ ip1 = ip2.
Proof.
  intros H1 H2 Hkey. unfold rate_limit_key in Hkey. apply app_inv_head in Hkey.
  destruct (configured_action a1 c1 H1) as [-> | [-> | ->]];
    destruct (configured_action a2 c2 H2) as [-> | [-> | ->]];
    try discriminate Hkey;
    apply app_inv_head in Hkey; injection Hkey as ->; split; reflexivity.
Qed.

(** X13.  What a call of the limiter reports, for a configured action and
    whatever the cache holds: the window it reports never ends before
    the call, so the Retry-After of a refusal is never negative; a
    refused call reports no remaining call, an allowed one reports a
    non-negative remainder; and a client without a live entry is allowed,
    with all but one call of the budget remaining and a window of the
    configured length starting at the call. *)
Theorem rate_limit_report (ip action : jsstring) (config : rate_config) (now : Z)
    (cache : gmap jsstring (rate_window * Z)) :
  rate_config_of RATE_LIMITS action = Some config ->
  let r := fst (checkRateLimit ip action now cache) in
  now <= resetAt r
  /\ 0 <= ceil_div (resetAt r - now) 1000
  /\ 0 <= remaining r
  /\ (allowed r = false -> remaining r = 0)
  /\ (cache_match cache (rate_limit_key action ip) now = None ->
      allowed r = true
      /\ remaining r = max config - 1
      /\ resetAt r = now + window config * 1000).
Proof.
  intros Hconfig r. subst r.
  destruct (rate_config_positive action config Hconfig) as [Hw Hmax].
  rewrite (checkRateLimit_step ip action config now cache Hconfig). cbn [fst].
  set (entry := cache !! rate_limit_key action ip).
  cbn [allowed remaining resetAt].
  assert (Hreset : now <= windowStart (fst (entry_step config now entry))
                          + window config * 1000).
  { unfold entry_step. cbn [fst windowStart].
    match goal with
    | |- context [if ?b then _ else _] => destruct b eqn:Hstale
    end; bool_facts; cbn [windowStart]; lia. }
  split; [exact Hreset|].
  split; [unfold ceil_div; Z.div_mod_to_equations; lia|].
  split; [lia|].
  split.
  - intros Hrefused. bool_facts. lia.
  - unfold cache_match. fold entry. intros Hfresh.
    assert (Hstep : fst (entry_step config now entry)
                    = {| count := 1; windowStart := now |}).
    { unfold entry_step. cbn [fst].
      assert (Hdata : match entry with
                      | Some (d, expires) =>
                          if now <? expires then d
                          else {| count := 0; windowStart := now |}
                      | None => {| count := 0; windowStart := now |}
                      end = {| count := 0; windowStart := now |}).
      { destruct entry as [[d expires]|]; [|reflexivity].
        destruct (now <? expires); [discriminate | reflexivity]. }
      rewrite Hdata. cbn [windowStart count].
      destruct (Z.gtb_spec (now - now) (window config * 1000)); [lia | reflexivity]. }
    rewrite Hstep. cbn [count windowStart].
    repeat split; [apply Z.leb_le|]; lia.
Qed.

(** X14.  Limits are kept per client and per action: a call for one
    client and action leaves the verdict of every later call for another
    client, or for another action, as it would have been without it. *)
Theorem rate_limits_are_independent (ip1 ip2 a1 a2 : jsstring) (c1 c2 : rate_config)
    (t1 t2 : Z) (cache : gmap jsstring (rate_window * Z)) :
  rate_config_of RATE_LIMITS a1 = Some c1 ->
  rate_config_of RATE_LIMITS a2 = Some c2 ->
  a1 <> a2 \/ ip1 <> ip2 ->
  fst (checkRateLimit ip2 a2 t2 (snd (checkRateLimit ip1 a1 t1 cache)))
  = fst (checkRateLimit ip2 a2 t2 cache).
Proof.
  intros H1 H2 Hdiff.
  rewrite (checkRateLimit_step ip1 a1 c1 t1 cache H1). cbn [snd].
  rewrite !(checkRateLimit_step ip2 a2 c2 t2 _ H2). cbn [fst].
  rewrite lookup_insert_ne; [reflexivity|].
  intros Hkey. apply (rate_limit_key_inj _ _ _ _ c1 c2 H1 H2) in Hkey.
  destruct Hkey as [-> ->]. destruct Hdiff as [Hd | Hd]; apply Hd; reflexivity.
Qed.

(** ** HTML escaping *)

Lemma replace_all_flat_map (c : Z) (replacement : jsstring) (f : Z -> jsstring)
    (s : jsstring) :
  replace_all c replacement (flat_map f s)
  = flat_map (fun x => replace_all c replacement (f x)) s.
Proof.
  unfold replace_all. induction s as [|x s IH]; [reflexivity|].
  cbn [flat_map]. rewrite flat_map_app, IH. reflexivity.
Qed.

(** The five replacements, one after the other, on one character. *)
Lemma escape_one (x : Z) :
  replace_all 39 (js "&#x27;")
    (replace_all 34 (js "&quot;")
       (replace_all 62 (js "&gt;")
          (replace_all 60 (js "&lt;")
             (if x =? 38 then js "&amp;" else [x]))))
  = html_entity x.
Proof.
  unfold html_entity.
  destruct (Z.eqb_spec x 38) as [->|H38]; [reflexivity|].
  unfold replace_all at 4. cbn [flat_map app].
  destruct (Z.eqb_spec x 60) as [->|H60]; [reflexivity|].
  unfold replace_all at 3. cbn [flat_map app].
  destruct (Z.eqb_spec x 62) as [->|H62]; [reflexivity|].
  unfold replace_all at 2. cbn [flat_map app].
  destruct (Z.eqb_spec x 34) as [->|H34]; [reflexivity|].
  unfold replace_all. cbn [flat_map app].
  destruct (Z.eqb_spec x 39) as [->|H39]; reflexivity.
Qed.

Lemma worker_escapeHtml_pass (str : jsstring) : _escapeHtml str = flat_map html_entity str.
Proof.
  unfold _escapeHtml. unfold replace_all at 5.
  rewrite !replace_all_flat_map.
  induction str as [|x str IH]; [reflexivity|].
  cbn [flat_map]. rewrite IH, escape_one. reflexivity.
Qed.

Lemma html_entity_clean (c : Z) : forallb (fun x => negb (is_markup x)) (html_entity c) = true.
Proof.
  unfold html_entity.
  repeat match goal with
         | |- context [if ?a =? ?b then _ else _] =>
             destruct (Z.eqb_spec a b); [reflexivity|]
         end.
  cbn [forallb]. unfold is_markup.
  repeat match goal with
         | Hne : c <> ?k |- _ =>
             apply Z.eqb_neq in Hne; try rewrite Hne; clear Hne
         end.
  reflexivity.
Qed.

(** X15.  [_escapeHtml] acts as one pass over the text: its five chained
    replacements replace every [&], [<], [>] and each of the two quotes
    by its entity and leave every other character alone; the ampersands
    that the later replacements write are not escaped again.  The result
    contains no angle bracket and no quote. *)
Theorem worker_escapeHtml_is_one_pass (str : jsstring) :
  _escapeHtml str = flat_map html_entity str
  /\ forallb (fun c => negb (is_markup c)) (_escapeHtml str) = true.
Proof.
  split; [apply worker_escapeHtml_pass|].
  rewrite worker_escapeHtml_pass. induction str as [|x str IH]; [reflexivity|].
  cbn [flat_map]. rewrite forallb_app, html_entity_clean, IH. reflexivity.
Qed.

(** An entity at the head of a text determines the character it stands
    for, and the rest of the text. *)
Lemma html_entity_head (a b : Z) (x y : jsstring) :
  html_entity a ++ x = html_entity b ++ y -> a = b /\ x = y.
Proof.
  unfold html_entity.
  destruct (Z.eqb_spec a 38) as [->|Ha38];
    [|destruct (Z.eqb_spec a 60) as [->|Ha60];
      [|destruct (Z.eqb_spec a 62) as [->|Ha62];
        [|destruct (Z.eqb_spec a 34) as [->|Ha34];
          [|destruct (Z.eqb_spec a 39) as [->|Ha39]]]]];
    (destruct (Z.eqb_spec b 38) as [->|Hb38];
     [|destruct (Z.eqb_spec b 60) as [->|Hb60];
       [|destruct (Z.eqb_spec b 62) as [->|Hb62];
         [|destruct (Z.eqb_spec b 34) as [->|Hb34];
           [|destruct (Z.eqb_spec b 39) as [->|Hb39]]]]]);
    intros Heq; vm_compute in Heq;
    try discriminate Heq;
    try (injection Heq as Heq; split; [reflexivity | assumption]);
    try (injection Heq as Hhead Heq; congruence).
  injection Heq as -> ->. split; reflexivity.
Qed.

(** X16.  [_escapeHtml] loses nothing: two texts have the same escaped
    form only when they are the same text. *)
Theorem worker_escapeHtml_is_lossless (s t : jsstring) :
  _escapeHtml s = _escapeHtml t <-> s = t.
Proof.
  split; [|intros ->; reflexivity].
  rewrite !worker_escapeHtml_pass. revert t.
  induction s as [|a s IH]; intros [|b t]; cbn [flat_map]; intros Heq.
  - reflexivity.
  - exfalso. unfold html_entity in Heq.
    repeat match type of Heq with
           | context [if ?c then _ else _] => destruct c
           end; discriminate Heq.
  - exfalso. unfold html_entity in Heq.
    repeat match type of Heq with
           | context [if ?c then _ else _] => destruct c
           end; discriminate Heq.
  - apply html_entity_head in Heq. destruct Heq as [-> Heq].
    f_equal. apply IH. exact Heq.
Qed.

(** ** The ratings module of the pages *)

Section ClientFacts.

Context {A : Type} (parseFloat_or_0 : jsval -> option A).

Abbreviation page := (@RatingSystem.page A).

(** X17.  The cache of the module.  What [_setCache] stores at [t0] is
    what [_getCached] returns for that course as long as no more than
    five minutes have passed (at exactly five minutes the entry is still
    served); later, [_getCached] returns [null] and drops the entry.
    Entries of other courses are not affected, and after [_clearCache]
    the course has no entry at any time. *)
Theorem client_cache_round_trip (courseId : Z) (data : RatingSystem.ratings)
    (t0 t1 : Z) (p : page) :
  let stored := RatingSystem._setCache courseId data t0 p in
  (t1 - t0 <= RatingSystem.CACHE_TTL ->
   RatingSystem._getCached courseId t1 stored = (Some data, stored))
  /\ (RatingSystem.CACHE_TTL < t1 - t0 ->
      RatingSystem._getCached courseId t1 stored
      = (None, RatingSystem._clearCache courseId stored))
  /\ (forall other,
        other <> courseId ->
        fst (RatingSystem._getCached other t1 stored)
        = fst (RatingSystem._getCached other t1 p))
  /\ fst (RatingSystem._getCached courseId t1 (RatingSystem._clearCache courseId stored))
     = None.
Proof.
  intros stored. subst stored.
  unfold RatingSystem._getCached, RatingSystem._setCache, RatingSystem._clearCache.
  cbn [RatingSystem._cache RatingSystem.with_cache].
  repeat split.
  - intros Hfresh. rewrite lookup_insert_eq.
    destruct (Z.gtb_spec (t1 - t0) RatingSystem.CACHE_TTL); [lia | reflexivity].
  - intros Hstale. rewrite lookup_insert_eq.
    destruct (Z.gtb_spec (t1 - t0) RatingSystem.CACHE_TTL); [reflexivity | lia].
  - intros other Hother. rewrite lookup_insert_ne.
    + destruct (RatingSystem._cache p !! RatingSystem.cache_key other) as [[d ts]|];
        [|reflexivity].
      destruct (t1 - ts >? RatingSystem.CACHE_TTL); reflexivity.
    + unfold RatingSystem.cache_key. intros Hkey. apply app_inv_head in Hkey.
      apply String_of_Z_inj in Hkey. congruence.
  - rewrite lookup_delete_eq. reflexivity.
Qed.

(** A run of [_fetchWithRetry]: [n] requests, the first [n - 1] of which
    failed, with a timer between two of them. *)
Lemma retry_run (fuel : nat) (request : RatingSystem.api_request)
    (attempt maxRetries : Z) (p : page) :
  (Z.to_nat (maxRetries - 1 - attempt) < fuel)%nat ->
  let out := RatingSystem.retry fuel request attempt maxRetries p in
  exists n : nat,
    (1 <= n)%nat
    /\ Z.of_nat n <= Z.max 1 (maxRetries - attempt)
    /\ RatingSystem.sent (snd out) = RatingSystem.sent p ++ repeat request n
    /\ RatingSystem.timers (snd out)
       = RatingSystem.timers p ++ retry_delays attempt (n - 1)
    /\ RatingSystem._cache (snd out) = RatingSystem._cache p
    /\ RatingSystem.network (snd out) = RatingSystem.network p
    /\ fst out
       = RatingSystem.network p (length (RatingSystem.sent p) + (n - 1))%nat request
    /\ (forall i, (i < n - 1)%nat ->
                  RatingSystem.network p (length (RatingSystem.sent p) + i)%nat request
                  = None)
    /\ (fst out = None -> Z.of_nat n = Z.max 1 (maxRetries - attempt)).
Proof.
  revert attempt p. induction fuel as [|fuel IH]; intros attempt p Hfuel; [lia|].
  cbn [RatingSystem.retry]. unfold RatingSystem.fetch_json.
  destruct (RatingSystem.network p (length (RatingSystem.sent p)) request)
    as [data|] eqn:Hfirst.
  - exists 1%nat. cbn [fst snd RatingSystem.sent RatingSystem.timers RatingSystem._cache
                         RatingSystem.network repeat retry_delays Nat.sub].
    rewrite app_nil_r, Nat.add_0_r, Hfirst.
    repeat split; try reflexivity; try lia; try discriminate.
  - destruct (Z.ltb_spec attempt (maxRetries - 1)) as [Hmore|Hlast].
    + set (p2 := RatingSystem.setTimeout _ _).
      destruct (IH (attempt + 1) p2 ltac:(lia))
        as (n & Hn & Hbound & Hsent & Htimers & Hcache & Hnet & Hout & Hfailed & Hall).
      exists (S n). cbv zeta. rewrite Hsent, Htimers, Hcache, Hnet, Hout.
      subst p2. cbn [RatingSystem.sent RatingSystem.timers RatingSystem._cache
                       RatingSystem.network RatingSystem.setTimeout] in *.
      rewrite length_app in *. cbn [length] in *.
      split; [lia|]. split; [lia|].
      split; [rewrite <- app_assoc; reflexivity|].
      split.
      { rewrite <- app_assoc. cbn [app].
        replace (S n - 1)%nat with (S (n - 1)) by lia. reflexivity. }
      split; [reflexivity|]. split; [reflexivity|].
      split; [f_equal; lia|].
      split.
      { intros i Hi. destruct i as [|i]; [rewrite Nat.add_0_r; exact Hfirst|].
        specialize (Hfailed i ltac:(lia)).
        replace (length (RatingSystem.sent p) + S i)%nat
          with (length (RatingSystem.sent p) + 1 + i)%nat by lia.
        exact Hfailed. }
      intros Hnone. rewrite Hout in Hall. specialize (Hall Hnone). lia.
    + exists 1%nat. cbn [fst snd RatingSystem.sent RatingSystem.timers
                           RatingSystem._cache RatingSystem.network repeat
                           retry_delays Nat.sub].
      rewrite app_nil_r, Nat.add_0_r, Hfirst.
      repeat split; try reflexivity; try lia; try discriminate.
Qed.

Lemma firstn_repeat {T : Type} (x : T) (k j : nat) :
  firstn k (repeat x (k + j)) = repeat x k.
Proof. induction k as [|k IH]; [reflexivity|]. cbn [Nat.add repeat firstn]. rewrite IH. reflexivity. Qed.

Lemma retry_delays_late (k : nat) (attempt : Z) :
  3 <= attempt -> retry_delays attempt k = repeat 4000 k.
Proof.
  revert attempt. induction k as [|k IH]; intros attempt Hlate; [reflexivity|].
  cbn [retry_delays repeat]. rewrite IH by lia. f_equal.
  unfold RatingSystem.retry_delay.
  destruct (Z.ltb_spec attempt 0); [lia|].
  destruct (Z.to_nat attempt) as [|[|[|j]]] eqn:Hj; try lia. reflexivity.
Qed.

(** The delays of the timers: the table, then 4000 ms. *)
Lemma retry_delays_table (k : nat) :
  retry_delays 0 k = firstn k (RatingSystem.RETRY_DELAYS ++ repeat 4000 k).
Proof.
  destruct k as [|[|[|k]]]; try reflexivity.
  cbn [retry_delays]. rewrite retry_delays_late by lia.
  unfold RatingSystem.RETRY_DELAYS. cbn [app firstn].
  change (RatingSystem.retry_delay 0) with 1000.
  change (RatingSystem.retry_delay (0 + 1)) with 2000.
  change (RatingSystem.retry_delay (0 + 1 + 1)) with 4000.
  do 3 f_equal. symmetry. replace (S (S (S k))) with (k + 3)%nat by lia.
  apply firstn_repeat.
Qed.

(** X18.  [_fetchWithRetry] is bounded and backs off.  Called without an
    attempt number, it sends the request at least once and at most
    [maxRetries] times, stops at the first answer, sets one timer before
    each retry, with the delays 1000 ms, 2000 ms and then 4000 ms, and
    rejects only when all [maxRetries] requests have failed.  It does not
    touch the cache. *)
Theorem fetchWithRetry_schedule (request : RatingSystem.api_request)
    (maxRetries : option Z) (p : page) :
  let budget := Z.max 1 (default RatingSystem.MAX_RETRIES maxRetries) in
  let out := RatingSystem._fetchWithRetry request None maxRetries p in
  exists n : nat,
    1 <= Z.of_nat n <= budget
    /\ RatingSystem.sent (snd out) = RatingSystem.sent p ++ repeat request n
    /\ RatingSystem.timers (snd out)
       = RatingSystem.timers p
           ++ firstn (n - 1) (RatingSystem.RETRY_DELAYS ++ repeat 4000 (n - 1))
    /\ RatingSystem._cache (snd out) = RatingSystem._cache p
    /\ fst out
       = RatingSystem.network p (length (RatingSystem.sent p) + (n - 1))%nat request
    /\ (forall i, (i < n - 1)%nat ->
                  RatingSystem.network p (length (RatingSystem.sent p) + i)%nat request
                  = None)
    /\ (fst out = None -> Z.of_nat n = budget).
Proof.
  intros budget out. subst out budget. unfold RatingSystem._fetchWithRetry.
  cbn [default]. set (m := default RatingSystem.MAX_RETRIES maxRetries).
  destruct (retry_run (S (Z.to_nat (m - 1 - 0))) request 0 m p ltac:(lia))
    as (n & Hn & Hbound & Hsent & Htimers & Hcache & _ & Hout & Hfailed & Hall).
  exists n. replace (m - 0) with m in Hbound, Hall by lia.
  split; [lia|]. split; [exact Hsent|].
  split; [rewrite Htimers, retry_delays_table; reflexivity|].
  split; [exact Hcache|]. split; [exact Hout|]. split; [exact Hfailed | exact Hall].
Qed.

End ClientFacts.

Section ClientCalls.

Context {A : Type} (parseFloat_or_0 : jsval -> option A).

Abbreviation client := (@RatingSystem.page A).

Lemma getCached_run (courseId now : Z) (p : client) :
  (exists cached timestamp,
      RatingSystem._cache p !! RatingSystem.cache_key courseId = Some (cached, timestamp)
      /\ now - timestamp <= RatingSystem.CACHE_TTL
      /\ RatingSystem._getCached courseId now p = (Some cached, p))
  \/ (exists p1,
        RatingSystem._getCached courseId now p = (None, p1)
        /\ RatingSystem._cache p1 !! RatingSystem.cache_key courseId = None
        /\ RatingSystem.sent p1 = RatingSystem.sent p
        /\ RatingSystem.timers p1 = RatingSystem.timers p
        /\ RatingSystem.network p1 = RatingSystem.network p
        /\ forall cached timestamp,
             RatingSystem._cache p !! RatingSystem.cache_key courseId
             = Some (cached, timestamp) ->
             RatingSystem.CACHE_TTL < now - timestamp).
Proof.
  unfold RatingSystem._getCached.
  destruct (RatingSystem._cache p !! RatingSystem.cache_key courseId)
    as [[cached timestamp]|] eqn:Hentry.
  - destruct (Z.gtb_spec (now - timestamp) RatingSystem.CACHE_TTL) as [Hstale|Hfresh].
    + right. eexists. split; [reflexivity|].
      cbn [RatingSystem._cache RatingSystem.with_cache RatingSystem.sent
             RatingSystem.timers RatingSystem.network].
      rewrite lookup_delete_eq. repeat split. intros c t [= <- <-]. lia.
    + left. exists cached, timestamp. repeat split. exact Hfresh.
  - right. exists p. repeat split; try assumption. discriminate.
Qed.

(** A submission is one request. *)
Lemma submit_fetch (request : RatingSystem.api_request) (p : client) :
  RatingSystem._fetchWithRetry request (Some 0) (Some 1) p
  = RatingSystem.fetch_json request p.
Proof.
  unfold RatingSystem._fetchWithRetry. cbn [default Z.sub Z.to_nat Z.opp Z.add
                                              Z.pos_sub RatingSystem.retry].
  destruct (RatingSystem.fetch_json request p) as [[data|] p1]; reflexivity.
Qed.

(** The requests of a read: at least one, at most three, with the first
    two delays of the table between them. *)
Lemma read_run (courseId : Z) (p : client) :
  let out := RatingSystem._fetchWithRetry (RatingSystem.ReadRatings courseId)
               None None p in
  exists n : nat,
    (1 <= n <= 3)%nat
    /\ RatingSystem.sent (snd out)
       = RatingSystem.sent p ++ repeat (RatingSystem.ReadRatings courseId) n
    /\ RatingSystem.timers (snd out) = RatingSystem.timers p ++ firstn (n - 1) [1000; 2000]
    /\ RatingSystem._cache (snd out) = RatingSystem._cache p.
Proof.
  intros out. subst out. unfold RatingSystem._fetchWithRetry. cbn [default].
  destruct (retry_run (S (Z.to_nat (RatingSystem.MAX_RETRIES - 1 - 0)))
              (RatingSystem.ReadRatings courseId) 0 RatingSystem.MAX_RETRIES p
              ltac:(lia))
    as (n & Hn & Hbound & Hsent & Htimers & Hcache & _).
  unfold RatingSystem.MAX_RETRIES in Hbound.
  exists n. split; [lia|]. split; [exact Hsent|]. split; [|exact Hcache].
  rewrite Htimers. f_equal.
  destruct n as [|[|[|[|n]]]]; try reflexivity. lia.
Qed.

(** X19.  [fetchRatings] asks the network only when it has to, and not
    for ever.  With a cache entry of at most five minutes it returns the
    entry and does nothing else.  Otherwise it sends the read request at
    least once and at most three times, waiting 1000 ms and then 2000 ms
    between the requests.  A failure is not cached: the course has no
    entry afterwards.  A success is cached with the clock reading of the
    moment the answer is handled, so that a second call for the course
    within five minutes of that moment returns the same ratings without
    any request. *)
Theorem fetchRatings_requests (courseId now later : Z) (p : client) :
  let out := RatingSystem.fetchRatings parseFloat_or_0 courseId now later p in
  let key := RatingSystem.cache_key courseId in
  exists n : nat,
    (n <= 3)%nat
    /\ RatingSystem.sent (snd out)
       = RatingSystem.sent p ++ repeat (RatingSystem.ReadRatings courseId) n
    /\ RatingSystem.timers (snd out) = RatingSystem.timers p ++ firstn (n - 1) [1000; 2000]
    /\ (n = 0%nat <->
        exists cached timestamp,
          RatingSystem._cache p !! key = Some (cached, timestamp)
          /\ now - timestamp <= RatingSystem.CACHE_TTL)
    /\ (forall cached timestamp,
          RatingSystem._cache p !! key = Some (cached, timestamp) ->
          now - timestamp <= RatingSystem.CACHE_TTL ->
          out = (RatingSystem.Ratings cached, p))
    /\ (fst out = RatingSystem.Unavailable ->
        RatingSystem._cache (snd out) !! key = None)
    /\ (forall r now' later',
          fst out = RatingSystem.Ratings r ->
          (0 < n)%nat ->
          RatingSystem._cache (snd out) !! key = Some (r, later)
          /\ (now' - later <= RatingSystem.CACHE_TTL ->
              RatingSystem.fetchRatings parseFloat_or_0 courseId now' later' (snd out)
              = (RatingSystem.Ratings r, snd out))).
Proof.
  intros out key. subst out. unfold RatingSystem.fetchRatings.
  destruct (getCached_run courseId now p)
    as [(cached & timestamp & Hentry & Hfresh & ->)
       | (p1 & -> & Hmiss & Hsent1 & Htimers1 & Hnet1 & Hstale)].
  - exists 0%nat. cbn [fst snd repeat firstn Nat.sub]. rewrite !app_nil_r.
    fold key in Hentry.
    split; [lia|]. split; [reflexivity|]. split; [reflexivity|].
    split; [split; [intros _; exists cached, timestamp; split; assumption | reflexivity]|].
    split; [intros c t Hc _; rewrite Hentry in Hc; injection Hc as <- <-; reflexivity|].
    split; [discriminate|]. intros r now' later' _ Hn. lia.
  - fold key in Hmiss, Hstale.
    destruct (read_run courseId p1) as (n & Hn & Hsent & Htimers & Hcache).
    rewrite Hsent1 in Hsent. rewrite Htimers1 in Htimers.
    exists n.
    destruct (RatingSystem._fetchWithRetry (RatingSystem.ReadRatings courseId) None None p1)
      as [answer p2].
    cbn [fst snd] in Hsent, Htimers, Hcache.
    assert (Hhit : n = 0%nat <->
                   exists cached timestamp,
                     RatingSystem._cache p !! key = Some (cached, timestamp)
                     /\ now - timestamp <= RatingSystem.CACHE_TTL).
    { split; [lia|]. intros (c & t & Hc & Ht). specialize (Hstale c t Hc). lia. }
    assert (Hfresh : forall cached timestamp,
               RatingSystem._cache p !! key = Some (cached, timestamp) ->
               now - timestamp <= RatingSystem.CACHE_TTL -> False).
    { intros c t Hc Ht. specialize (Hstale c t Hc). lia. }
    assert (Hfailed : (n <= 3)%nat
               /\ RatingSystem.sent (snd (@RatingSystem.Unavailable A, p2))
                  = RatingSystem.sent p ++ repeat (RatingSystem.ReadRatings courseId) n
               /\ RatingSystem.timers (snd (@RatingSystem.Unavailable A, p2))
                  = RatingSystem.timers p ++ firstn (n - 1) [1000; 2000]
               /\ (n = 0%nat <->
                   exists cached timestamp,
                     RatingSystem._cache p !! key = Some (cached, timestamp)
                     /\ now - timestamp <= RatingSystem.CACHE_TTL)
               /\ (forall cached timestamp,
                     RatingSystem._cache p !! key = Some (cached, timestamp) ->
                     now - timestamp <= RatingSystem.CACHE_TTL ->
                     (@RatingSystem.Unavailable A, p2) = (RatingSystem.Ratings cached, p))
               /\ (fst (@RatingSystem.Unavailable A, p2) = RatingSystem.Unavailable ->
                   RatingSystem._cache (snd (@RatingSystem.Unavailable A, p2)) !! key
                   = None)
               /\ (forall r now' later',
                     fst (@RatingSystem.Unavailable A, p2) = RatingSystem.Ratings r ->
                     (0 < n)%nat ->
                     RatingSystem._cache (snd (@RatingSystem.Unavailable A, p2)) !! key
                     = Some (r, later)
                     /\ (now' - later <= RatingSystem.CACHE_TTL ->
                         RatingSystem.fetchRatings parseFloat_or_0 courseId now' later'
                           (snd (@RatingSystem.Unavailable A, p2))
                         = (RatingSystem.Ratings r,
                            snd (@RatingSystem.Unavailable A, p2))))).
    { cbn [fst snd]. split; [lia|]. split; [exact Hsent|]. split; [exact Htimers|].
      split; [exact Hhit|].
      split; [intros c t Hc Ht; destruct (Hfresh c t Hc Ht)|].
      split; [intros _; rewrite Hcache; exact Hmiss | discriminate]. }
    destruct answer as [data|]; [|exact Hfailed].
    destruct (get_prop data (js "average")) as [averageField|]; [|exact Hfailed].
    destruct (parseFloat_or_0 averageField) as [average|]; [|exact Hfailed].
    destruct (get_prop data (js "count")) as [countField|]; [|exact Hfailed].
    destruct (ToString_val countField) as [countText|]; [|exact Hfailed].
    clear Hfailed. cbn [fst snd].
    unfold RatingSystem._setCache at 1 2 3 4.
    cbn [RatingSystem.sent RatingSystem.timers RatingSystem._cache
           RatingSystem.with_cache].
    split; [lia|]. split; [exact Hsent|]. split; [exact Htimers|]. split; [exact Hhit|].
    split; [intros c t Hc Ht; destruct (Hfresh c t Hc Ht)|].
    split; [discriminate|].
    intros r now' later' [= <-] _. fold key.
    split; [apply lookup_insert_eq|].
    intros Hsoon. unfold RatingSystem.fetchRatings, RatingSystem._getCached.
    unfold RatingSystem._setCache.
    cbn [RatingSystem._cache RatingSystem.with_cache]. fold key.
    rewrite lookup_insert_eq.
    destruct (Z.gtb_spec (now' - later) RatingSystem.CACHE_TTL); [lia | reflexivity].
Qed.

(** Without an entry for the course, [fetchRatings] asks the network. *)
Lemma fetchRatings_miss (courseId now later : Z) (p : client) :
  RatingSystem._cache p !! RatingSystem.cache_key courseId = None ->
  exists n : nat,
    (1 <= n)%nat
    /\ RatingSystem.sent
         (snd (RatingSystem.fetchRatings parseFloat_or_0 courseId now later p))
       = RatingSystem.sent p ++ repeat (RatingSystem.ReadRatings courseId) n.
Proof.
  intros Hmiss. unfold RatingSystem.fetchRatings, RatingSystem._getCached.
  rewrite Hmiss.
  destruct (read_run courseId p) as (n & Hn & Hsent & _).
  exists n. split; [lia|].
  destruct (RatingSystem._fetchWithRetry (RatingSystem.ReadRatings courseId) None None p)
    as [[data|] p2]; [|exact Hsent].
  cbn [snd] in Hsent.
  destruct (get_prop data (js "average")) as [averageField|]; [|exact Hsent].
  destruct (parseFloat_or_0 averageField) as [average|]; [|exact Hsent].
  destruct (get_prop data (js "count")) as [countField|]; [|exact Hsent].
  destruct (ToString_val countField) as [countText|]; exact Hsent.
Qed.

(** X20.  [submitRating] validates before it sends, and never retries.
    A value that [parseInt] does not read as an integer from 1 to 5 is
    rejected without any request and without touching the module's
    state.  Any other value is sent in exactly one request, with no
    retry timer, whether the request succeeds or not.  And when the
    server answers with [status: 'success'], the cache entry of the
    course is gone: the next [fetchRatings] for the course asks the
    network, whatever was cached before. *)
Theorem submitRating_sends_once (courseId : Z) (ratingValue : jsstring) (p : client) :
  let out := RatingSystem.submitRating courseId ratingValue p in
  RatingSystem.timers (snd out) = RatingSystem.timers p
  /\ ((out = (RatingSystem.InvalidRating, p)
       /\ forall rating, parseInt ratingValue = Some rating -> rating < 1 \/ 5 < rating)
      \/ exists rating,
           parseInt ratingValue = Some rating
           /\ 1 <= rating <= 5
           /\ fst out <> RatingSystem.InvalidRating
           /\ RatingSystem.sent (snd out)
              = RatingSystem.sent p ++ [RatingSystem.WriteRating courseId rating])
  /\ (forall data now later,
        fst out = RatingSystem.Answered data ->
        get_prop data (js "status") = Some (Val (JStr (js "success"))) ->
        RatingSystem._cache (snd out) !! RatingSystem.cache_key courseId = None
        /\ exists n : nat,
             (1 <= n)%nat
             /\ RatingSystem.sent
                  (snd (RatingSystem.fetchRatings parseFloat_or_0 courseId now later
                          (snd out)))
                = RatingSystem.sent (snd out)
                    ++ repeat (RatingSystem.ReadRatings courseId) n).
Proof.
  intros out. subst out. unfold RatingSystem.submitRating.
  unfold RatingSystem.MIN_RATING, RatingSystem.MAX_RATING.
  destruct (parseInt ratingValue) as [rating|] eqn:Hparse.
  2: { split; [reflexivity|]. split; [left; split; [reflexivity | discriminate]|].
       discriminate. }
  destruct ((rating <? 1) || (rating >? 5)) eqn:Hrange.
  { split; [reflexivity|]. split; [|discriminate].
    left. split; [reflexivity|]. intros r [= <-].
    apply orb_true_iff in Hrange. destruct Hrange; bool_facts; lia. }
  bool_facts. rewrite submit_fetch. unfold RatingSystem.fetch_json.
  set (p1 := {| RatingSystem._cache := RatingSystem._cache p;
                RatingSystem.network := RatingSystem.network p;
                RatingSystem.sent := RatingSystem.sent p
                                       ++ [RatingSystem.WriteRating courseId rating];
                RatingSystem.timers := RatingSystem.timers p |}).
  assert (Hsent : forall (o : RatingSystem.submitted) (p' : client),
             RatingSystem.sent p' = RatingSystem.sent p1 ->
             o <> RatingSystem.InvalidRating ->
             (((o, p') = (RatingSystem.InvalidRating, p)
               /\ forall r, Some rating = Some r -> r < 1 \/ 5 < r)
              \/ exists r,
                   Some rating = Some r /\ 1 <= r <= 5
                   /\ fst (o, p') <> RatingSystem.InvalidRating
                   /\ RatingSystem.sent (snd (o, p'))
                      = RatingSystem.sent p ++ [RatingSystem.WriteRating courseId r])).
  { intros o p' Hp' Ho. right. exists rating. cbn [fst snd].
    repeat split; try lia; try assumption. }
  destruct (RatingSystem.network p (length (RatingSystem.sent p))
              (RatingSystem.WriteRating courseId rating)) as [data|].
  2: { split; [reflexivity|]. split; [apply Hsent; [reflexivity | discriminate]|].
       discriminate. }
  destruct (get_prop data (js "status")) as [[|status]|] eqn:Hstatus.
  3: { split; [reflexivity|]. split; [apply Hsent; [reflexivity | discriminate]|].
       discriminate. }
  { split; [reflexivity|]. split; [apply Hsent; [reflexivity | discriminate]|].
    intros d now later [= <-] Hd. rewrite Hd in Hstatus. discriminate. }
  assert (Hother : forall o : RatingSystem.submitted,
             status <> JStr (js "success") ->
             o = RatingSystem.Answered data ->
             forall d (now later : Z),
               o = RatingSystem.Answered d ->
               get_prop d (js "status") = Some (Val (JStr (js "success"))) ->
               False).
  { intros o Hne -> d now later [= <-] Hd. rewrite Hd in Hstatus.
    injection Hstatus as <-. apply Hne. reflexivity. }
  destruct status as [| b | k | s | items | props];
    try (split; [reflexivity|]; split; [apply Hsent; [reflexivity | discriminate]|];
         intros d now later Ho Hd; exfalso;
         apply (Hother _ ltac:(discriminate) eq_refl d now later Ho Hd)).
  destruct (jsstring_eqb s (js "success")) eqn:Hsuccess.
  2: { split; [reflexivity|]. split; [apply Hsent; [reflexivity | discriminate]|].
       intros d now later Ho Hd. exfalso.
       refine (Hother _ _ eq_refl d now later Ho Hd).
       intros [= ->]. rewrite jsstring_eqb_refl in Hsuccess. discriminate. }
  split; [reflexivity|]. split; [apply Hsent; [reflexivity | discriminate]|].
  intros d now later _ _. cbn [snd].
  assert (Hgone : RatingSystem._cache (RatingSystem._clearCache courseId p1)
                    !! RatingSystem.cache_key courseId = None).
  { unfold RatingSystem._clearCache.
    cbn [RatingSystem._cache RatingSystem.with_cache]. apply lookup_delete_eq. }
  split; [exact Hgone|].
  apply fetchRatings_miss. exact Hgone.
Qed.

End ClientCalls.

(** ** The course page and the escaping helpers *)

Lemma digit_not_blank (c : Z) : is_digit c = true -> is_whitespace c = false.
Proof.
  intros Hc.
  assert (Hname : cookie_name_char c = true).
  { apply digit_is_name_char. rewrite Hc. reflexivity. }
  unfold cookie_name_char in Hname. bool_facts. assumption.
Qed.

Lemma digits_prefix_all (s : jsstring) :
  forallb is_digit s = true -> digits_prefix s = map (fun c => c - 48) s.
Proof.
  induction s as [|c s IH]; [reflexivity|]. cbn [forallb digits_prefix map].
  intros Hall. apply andb_true_iff in Hall. destruct Hall as [Hc Hs].
  rewrite Hc, (IH Hs). reflexivity.
Qed.

(** [parseInt] of a run of digits is its decimal value. *)
Lemma parseInt_digits (s : jsstring) :
  forallb is_digit s = true -> s <> [] ->
  parseInt s = Some (digits_value (map (fun c => c - 48) s)).
Proof.
  intros Hall Hne. destruct s as [|c s]; [contradiction|].
  pose proof Hall as Hc. cbn [forallb] in Hc. apply andb_true_iff in Hc.
  destruct Hc as [Hc _].
  unfold parseInt. cbn [trimStart]. rewrite (digit_not_blank c Hc).
  unfold is_digit in Hc. bool_facts.
  destruct (Z.eqb_spec c 45); [lia|]. destruct (Z.eqb_spec c 43); [lia|].
  rewrite (digits_prefix_all (c :: s) Hall). cbn [map].
  rewrite Z.mul_1_l. reflexivity.
Qed.

(** X21.  The course id of the page address.  For a parameter of at most
    fifteen characters once trimmed (where [parseInt] is exact),
    [getCourseIdFromURL] returns an id exactly when the trimmed parameter
    is a non-empty run of decimal digits whose value is at least 1, and
    the id is that value: a sign, a fraction, an exponent or any other
    character makes the page show its error, and so does zero. *)
Theorem getCourseIdFromURL_spec (param : jsstring) (id : Z) :
  (length (trim param) <= 15)%nat ->
  getCourseIdFromURL (Some param) = Some id
  <-> trim param <> []
      /\ forallb is_digit (trim param) = true
      /\ id = digits_value (map (fun c => c - 48) (trim param))
      /\ 1 <= id.
Proof.
  intros _. unfold getCourseIdFromURL.
  destruct param as [|c0 param].
  { split; [discriminate|]. intros (Hne & _). contradiction Hne. reflexivity. }
  destruct (trim (c0 :: param)) as [|c trimmed] eqn:Htrim.
  { split; [discriminate|]. intros (Hne & _). contradiction Hne. reflexivity. }
  destruct (forallb is_digit (c :: trimmed)) eqn:Hall; cbn [negb].
  - rewrite (parseInt_digits (c :: trimmed) Hall ltac:(discriminate)).
    destruct (Z.geb_spec (digits_value (map (fun c => c - 48) (c :: trimmed))) 1)
      as [Hpos|Hzero].
    + split.
      * intros [= <-]. split; [discriminate|]. split; [reflexivity|].
        split; [reflexivity | exact Hpos].
      * intros (_ & _ & -> & _). reflexivity.
    + split; [discriminate|]. intros (_ & _ & -> & Hpos). cbn [map] in *. lia.
  - split; [discriminate|]. intros (_ & Hdigits & _). discriminate.
Qed.

Lemma ESC_MAP_clean (c : Z) :
  forallb (fun x => negb (is_markup x || (x =? 47) || (x =? 96)))
    (default [c] (Utils._ESC_MAP c)) = true.
Proof.
  unfold Utils._ESC_MAP.
  repeat match goal with
         | |- context [if ?a =? ?b then _ else _] =>
             destruct (Z.eqb_spec a b); [reflexivity|]
         end.
  cbn [default forallb]. unfold is_markup.
  repeat match goal with
         | Hne : c <> ?k |- _ =>
             apply Z.eqb_neq in Hne; try rewrite Hne; clear Hne
         end.
  reflexivity.
Qed.

(** X22.  The text that [Utils.escapeHtml] returns contains none of the
    characters it escapes other than the ampersand: no angle bracket, no
    quote of either kind, no slash and no backtick; for [null] it is the
    empty text. *)
Theorem escapeHtml_has_no_markup (s : option jsstring) :
  forallb (fun c => negb (is_markup c || (c =? 47) || (c =? 96))) (Utils.escapeHtml s)
  = true
  /\ Utils.escapeHtml None = [].
Proof.
  split; [|reflexivity]. destruct s as [s|]; [|reflexivity].
  unfold Utils.escapeHtml. induction s as [|c s IH]; [reflexivity|].
  cbn [flat_map]. rewrite forallb_app, ESC_MAP_clean, IH. reflexivity.
Qed.

(** X23.  The text that [Utils.escapeAttr] returns consists of letters,
    digits, [,], [.], [-], [_] and blanks, which it keeps, and of the
    three characters [&], [#] and [;] of the numeric references it
    writes for everything else: it contains no quote, no angle bracket
    and no equals sign. *)
Theorem escapeAttr_is_safe (s : option jsstring) :
  forallb (fun c => Utils.attr_safe c || (c =? 38) || (c =? 35) || (c =? 59))
    (Utils.escapeAttr s) = true.
Proof.
  destruct s as [s|]; [|reflexivity].
  unfold Utils.escapeAttr. induction s as [|c s IH]; [reflexivity|].
  cbn [flat_map]. rewrite forallb_app, IH, andb_true_r.
  destruct (Utils.attr_safe c) eqn:Hsafe.
  - cbn [forallb]. rewrite Hsafe. reflexivity.
  - rewrite !forallb_app. apply andb_true_iff. split; [reflexivity|].
    apply andb_true_iff. split; [|reflexivity].
    apply forallb_forall. intros x Hx.
    pose proof (String_of_Z_chars c) as Hchars. rewrite forallb_forall in Hchars.
    apply Hchars in Hx. unfold Utils.attr_safe.
    apply orb_true_iff in Hx. destruct Hx as [-> | Hx].
    + rewrite !orb_true_r. reflexivity.
    + bool_facts. subst x. reflexivity.
Qed.

(** ** Reading a course id *)

Lemma trimStart_split (s : jsstring) :
  exists blanks,
    s = blanks ++ trimStart s /\ forallb is_whitespace blanks = true.
Proof.
  induction s as [|c s (blanks & Hs & Hblanks)]; [exists []; split; reflexivity|].
  cbn [trimStart]. destruct (is_whitespace c) eqn:Hc.
  - exists (c :: blanks). cbn [app forallb]. rewrite Hc, Hblanks, <- Hs.
    split; reflexivity.
  - exists []. split; reflexivity.
Qed.

Lemma trimStart_blanks (blanks s : jsstring) :
  forallb is_whitespace blanks = true -> trimStart (blanks ++ s) = trimStart s.
Proof.
  induction blanks as [|c blanks IH]; [reflexivity|]. cbn [forallb app trimStart].
  intros Hall. apply andb_true_iff in Hall. destruct Hall as [Hc Hblanks].
  rewrite Hc. apply IH, Hblanks.
Qed.

(** The longest run of digits at the head of a string. *)
Lemma digits_prefix_split (s : jsstring) :
  exists run rest,
    s = run ++ rest /\ forallb is_digit run = true
    /\ digits_prefix s = map (fun c => c - 48) run.
Proof.
  induction s as [|c s (run & rest & Hs & Hrun & Hprefix)].
  { exists [], []. repeat split. }
  cbn [digits_prefix]. destruct (is_digit c) eqn:Hc.
  - exists (c :: run), rest. cbn [app forallb map]. rewrite Hc, Hrun, Hprefix, <- Hs.
    repeat split.
  - exists [], (c :: s). repeat split.
Qed.

Lemma digits_prefix_app (run rest : jsstring) :
  forallb is_digit run = true ->
  digits_prefix (run ++ rest) = map (fun c => c - 48) run ++ digits_prefix rest.
Proof.
  induction run as [|c run IH]; [reflexivity|]. cbn [forallb app digits_prefix map].
  intros Hall. apply andb_true_iff in Hall. destruct Hall as [Hc Hrun].
  rewrite Hc, (IH Hrun). reflexivity.
Qed.

Lemma digits_prefix_range (s : jsstring) :
  Forall (fun d => 0 <= d <= 9) (digits_prefix s).
Proof.
  induction s as [|c s IH]; [constructor|]. cbn [digits_prefix].
  destruct (is_digit c) eqn:Hc; [|constructor].
  constructor; [|exact IH]. unfold is_digit in Hc. bool_facts. lia.
Qed.

(** Reading digits onto an accumulator: the result is positive exactly
    when the accumulator is, or some digit is not zero. *)
Lemma read_digits_positive (ds : list Z) (acc : Z) :
  0 <= acc -> Forall (fun d => 0 <= d <= 9) ds ->
  (0 <= fold_left (fun a d => 10 * a + d) ds acc)
  /\ (1 <= fold_left (fun a d => 10 * a + d) ds acc
      <-> 1 <= acc \/ existsb (fun d => negb (d =? 0)) ds = true).
Proof.
  revert acc. induction ds as [|d ds IH]; intros acc Hacc Hds.
  { cbn. split; [exact Hacc|]. split; [intros; left; assumption|].
    intros [Hpos | Hno]; [exact Hpos | discriminate]. }
  apply Forall_cons in Hds. destruct Hds as [Hd Hds].
  cbn [fold_left existsb].
  destruct (IH (10 * acc + d) ltac:(lia) Hds) as [Hnonneg Hiff].
  split; [exact Hnonneg|]. rewrite Hiff.
  destruct (Z.eqb_spec d 0) as [->|Hne]; cbn [negb orb].
  - split; intros [Hpos | Hsome]; try (right; exact Hsome); left; lia.
  - split; intros _; [right; reflexivity | left; lia].
Qed.

Lemma existsb_digits (s : jsstring) :
  existsb (fun d => negb (d =? 0)) (map (fun c => c - 48) s)
  = existsb (fun c => negb (c =? 48)) s.
Proof.
  induction s as [|c s IH]; [reflexivity|]. cbn [map existsb]. rewrite IH.
  f_equal. f_equal. destruct (Z.eqb_spec (c - 48) 0), (Z.eqb_spec c 48); try reflexivity; lia.
Qed.

(** [parseInt] reads an integer of at least 1 exactly in the strings that
    start with a positive integer. *)
Lemma parseInt_positive_iff (s : jsstring) :
  (exists n, parseInt s = Some n /\ 1 <= n) <-> positive_integer_prefix s.
Proof.
  split.
  - intros (n & Hparse & Hpos). unfold parseInt in Hparse.
    destruct (trimStart_split s) as (blanks & Hs & Hblanks).
    set (s1 := trimStart s) in *.
    assert (Hread : forall plus s2,
               s1 = plus ++ s2 -> (plus = [] \/ plus = [43]) ->
               match digits_prefix s2 with
               | [] => None
               | d :: ds => Some (1 * digits_value (d :: ds))
               end = Some n ->
               positive_integer_prefix s).
    { intros plus s2 Hs1 Hplus Hvalue.
      destruct (digits_prefix_split s2) as (run & rest & Hs2 & Hrun & Hprefix).
      pose proof (digits_prefix_range s2) as Hrange.
      destruct (digits_prefix s2) as [|d ds] eqn:Hds; [discriminate|].
      injection Hvalue as <-. rewrite Z.mul_1_l in Hpos.
      unfold digits_value in Hpos.
      apply (read_digits_positive (d :: ds) 0 ltac:(lia) Hrange) in Hpos.
      destruct Hpos as [Hpos | Hsome]; [lia|].
      rewrite Hprefix, existsb_digits in Hsome.
      exists blanks, plus, run, rest. rewrite Hs, Hs1, Hs2. repeat split; assumption. }
    destruct s1 as [|c r] eqn:Hs1.
    { cbn in Hparse. discriminate. }
    destruct (Z.eqb_spec c 45) as [->|Hminus].
    { exfalso. pose proof (digits_prefix_range r) as Hrange.
      destruct (digits_prefix r) as [|d ds]; [discriminate|].
      injection Hparse as <-. unfold digits_value in Hpos.
      pose proof (proj1 (read_digits_positive (d :: ds) 0 ltac:(lia) Hrange)). lia. }
    destruct (Z.eqb_spec c 43) as [->|Hplus].
    + apply (Hread [43] r); [reflexivity | right; reflexivity | exact Hparse].
    + apply (Hread [] (c :: r)); [reflexivity | left; reflexivity | exact Hparse].
  - intros (blanks & plus & digits & rest & -> & Hblanks & Hplus & Hdigits & Hsome).
    unfold parseInt. rewrite (trimStart_blanks _ _ Hblanks).
    destruct digits as [|c digits]; [discriminate|].
    pose proof Hdigits as Hc. cbn [forallb] in Hc. apply andb_true_iff in Hc.
    destruct Hc as [Hc _].
    assert (Hvalue : match digits_prefix ((c :: digits) ++ rest) with
                     | [] => None
                     | d :: ds => Some (1 * digits_value (d :: ds))
                     end
                     = Some (digits_value (digits_prefix ((c :: digits) ++ rest)))
                     /\ 1 <= digits_value (digits_prefix ((c :: digits) ++ rest))).
    { pose proof (digits_prefix_range ((c :: digits) ++ rest)) as Hrange.
      rewrite (digits_prefix_app _ rest Hdigits) in *. cbn [map app] in *.
      rewrite Z.mul_1_l. split; [reflexivity|]. unfold digits_value.
      apply (read_digits_positive _ 0 ltac:(lia) Hrange). right.
      change (existsb (fun d => negb (d =? 0))
                (map (fun c => c - 48) (c :: digits) ++ digits_prefix rest) = true).
      rewrite existsb_app, existsb_digits, Hsome. reflexivity. }
    destruct Hvalue as [Hvalue Hpos].
    assert (Hdigit : trimStart ((c :: digits) ++ rest) = (c :: digits) ++ rest).
    { cbn [app trimStart]. rewrite (digit_not_blank c Hc). reflexivity. }
    assert (Hnosign : (c =? 45) = false /\ (c =? 43) = false).
    { unfold is_digit in Hc. bool_facts. split; apply Z.eqb_neq; lia. }
    destruct Hnosign as [H45 H43].
    destruct Hplus as [-> | ->].
    + cbn [app] in *. rewrite Hdigit. cbn [app]. rewrite H45, H43.
      eexists. split; [exact Hvalue | exact Hpos].
    + change (([43] ++ (c :: digits) ++ rest)) with (43 :: ((c :: digits) ++ rest)).
      cbn [trimStart]. change (is_whitespace 43) with false. cbv iota.
      change (43 =? 45) with false. change (43 =? 43) with true. cbv iota.
      eexists. split; [exact Hvalue | exact Hpos].
Qed.

(** ** Printing and reading back an integer *)




(** ** The course id of the gate *)

Section GateCourseId.

Context `{Platform}.

(** Once the course id is read, the gate never answers 404. *)
Lemma gate_with_course_id (request : request) (env : environment) (now : Z)
    (w : world) (courseId : Z) :
  gate_courseId (pathname request) = Some courseId ->
  1 <= courseId ->
  result_status (fst (handlePaidCourseGate request env now w)) <> Some 404.
Proof.
  intros Hid Hpos.
  change (wp (handlePaidCourseGate request env now)
            (fun r _ => result_status r <> Some 404) w).
  unfold handlePaidCourseGate. rewrite Hid.
  destruct (Z.ltb_spec courseId 1) as [|_]; [lia|].
  repeat first [ apply wp_getDriveUrl | wp_step ]; lazy beta iota.
  all: cbn [result_status status buildPaidLoginPage buildErrorPage]; discriminate.
Qed.

(** C8 (as amended).  The gate answers 404 Not Found exactly when the
    fourth segment of the path does not start with a positive integer
    (after blanks and an optional plus sign): the segment is missing or
    empty, starts with another character or a minus sign, or its leading
    digits are all zero.  The 404 comes before anything else: the world
    is left as it was, whatever cookies the request carries and whatever
    the secret is.  A segment that starts with a positive integer is
    accepted, whatever follows the digits, and is never answered 404. *)
Theorem gate_rejects_bad_course_id (request : request) (env : environment)
    (now : Z) (w : world) :
  let segment := default [] (split 47 (pathname request) !! 3%nat) in
  let out := handlePaidCourseGate request env now w in
  (~ positive_integer_prefix segment -> out = (Ok not_found, w))
  /\ (positive_integer_prefix segment -> result_status (fst out) <> Some 404).
Proof.
  intros segment out. subst out.
  assert (Hsegment : gate_courseId (pathname request)
                     = match segment with [] => None | _ => parseInt segment end).
  { unfold gate_courseId, segment.
    destruct (split 47 (pathname request) !! 3%nat) as [[|c seg]|]; reflexivity. }
  assert (Hempty : ~ positive_integer_prefix []).
  { intros (blanks & plus & digits & rest & Hs & _ & _ & _ & Hsome).
    destruct digits as [|d digits]; [discriminate Hsome|].
    apply (f_equal (@length Z)) in Hs. rewrite !length_app in Hs.
    cbn [length] in Hs. lia. }
  split.
  - intros Hbad. unfold handlePaidCourseGate. rewrite Hsegment.
    destruct segment as [|c seg]; [reflexivity|].
    destruct (parseInt (c :: seg)) as [courseId|] eqn:Hparse; [|reflexivity].
    destruct (Z.ltb_spec courseId 1) as [|Hpos]; [reflexivity|].
    exfalso. apply Hbad, parseInt_positive_iff. exists courseId.
    split; [exact Hparse | exact Hpos].
  - intros Hgood. apply parseInt_positive_iff in Hgood as Hread.
    destruct Hread as (courseId & Hparse & Hpos).
    apply (gate_with_course_id request env now w courseId); [|exact Hpos].
    rewrite Hsegment. destruct segment; [contradiction | exact Hparse].
Qed.

End GateCourseId.

(** ** The validation of the login against the list of the specification *)


Section LoginLists.

Context `{Platform}.




End LoginLists.

(** ** Sample runs of the gateway and of the pages *)

(** The course cookie between two other cookies, with a value that
    contains [=]. *)
Lemma getCookie_reads_back_witness :
  getCookie (gate_request (js "/course/paid/7")
               (js "theme=dark; __paid_7=YQ==.0f; lang=en")) (js "__paid_7")
  = Some (js "YQ==.0f").
Proof.
  apply (getCookie_reads_back _ (js "__paid_7") (js "YQ==.0f")
           [js "theme=dark"] [js "lang=en"]).
  - vm_compute. reflexivity.
  - vm_compute. reflexivity.
  - apply (bool_decide_unpack _). vm_compute. exact I.
  - reflexivity.
Defined.

(** The sample token at the gate of course 7: the redirect, and the
    signature that verifies. *)
Lemma gate_serves_only_verified_witness :
  exists cookieValue dotIndex,
    getCookie (gate_request (js "/course/paid/7") (js "__paid_7=" ++ sample_token))
      (paidCookieName 7) = Some cookieValue
    /\ @verifySignature reference_platform (firstn dotIndex cookieValue)
         (skipn (S dotIndex) cookieValue) sample_secret = true.
Proof.
  destruct (@gate_serves_only_verified reference_platform
              (gate_request (js "/course/paid/7") (js "__paid_7=" ++ sample_token))
              sample_env 5000000 sample_world 7
              (gate_redirect (js "https://drive.example/x")))
    as (_ & cookieValue & dotIndex & decoded & session & Hcookie & _ & Hsig & _).
  - vm_compute. reflexivity.
  - lia.
  - vm_compute. reflexivity.
  - left. reflexivity.
  - exists cookieValue, dotIndex. split; [exact Hcookie | exact Hsig].
Defined.

(** The sample token, minted at 1000 s, at the gate at 5000 s. *)
Lemma gate_honours_cookie_until_expiry_witness :
  @handlePaidCourseGate reference_platform
    (gate_request (js "/course/paid/7") (js "__paid_7=" ++ sample_token))
    sample_env 5000000 sample_world
  = (Ok (gate_redirect (js "https://drive.example/x")),
     with_call sample_world (GetDriveUrl (js "7"))).
Proof.
  apply (@gate_honours_cookie_until_expiry reference_platform
           (gate_request (js "/course/paid/7") (js "__paid_7=" ++ sample_token))
           sample_env 5000000 sample_world 7 sample_email sample_token 1000000).
  - vm_compute. reflexivity.
  - lia.
  - lia.
  - vm_compute. reflexivity.
  - vm_compute. reflexivity.
  - vm_compute. reflexivity.
  - vm_compute. discriminate.
Defined.

(** The sample login, which the sample authority approves. *)
Lemma login_sets_cookie_only_on_approval_witness :
  exists email password courseId,
    @login_validation reference_platform login_request sample_env 1000000
      (rate_cache sample_world) = Passes email password courseId.
Proof.
  destruct (@login_sets_cookie_only_on_approval reference_platform login_request
              sample_env 1000000 sample_world
              (jsonResponse 200
                 (JObj [ (js "status", JStr (js "success"));
                         (js "redirect", JStr (js "/course/paid/7")) ])
                 (getCorsHeaders sample_env
                    ++ [(js "Set-Cookie", buildPaidCookieHeader 7 sample_token)]))
              (buildPaidCookieHeader 7 sample_token))
    as (_ & email & password & courseId & data & valid & token & Hspec & _).
  - intros email password courseId Hpasses. vm_compute in Hpasses.
    injection Hpasses as _ _ <-. lia.
  - vm_compute. reflexivity.
  - vm_compute. reflexivity.
  - exists email, password, courseId. exact Hspec.
Defined.

Lemma login_then_gate_witness :
  exists setCookie,
    fst (@handlePaidLogin reference_platform login_request sample_env 1000000
           sample_world)
    = Ok (jsonResponse 200
            (JObj [ (js "status", JStr (js "success"));
                    (js "redirect", JStr (js "/course/paid/" ++ String_of_Z 7)) ])
            (getCorsHeaders sample_env ++ [(js "Set-Cookie", setCookie)])).
Proof.
  destruct (@login_then_gate reference_platform login_request sample_env 1000000
              sample_world sample_email (js "hunter2") 7
              (JObj [(js "valid", JBool true)]) (Val (JBool true)))
    as (setCookie & Hlogin & _).
  - vm_compute. reflexivity.
  - lia.
  - reflexivity.
  - reflexivity.
  - reflexivity.
  - vm_compute. reflexivity.
  - lia.
  - vm_compute. reflexivity.
  - exists setCookie. exact Hlogin.
Defined.

(** The login of an address with a CJK character. *)
Lemma wide_email_login_is_answered_500_witness :
  fst (@fetch reference_platform wide_login_request sample_env 1000000 sample_world)
  = Respond (jsonResponse 500 (error_body (js "Internal server error")) [])
  /\ calls (snd (@fetch reference_platform wide_login_request sample_env 1000000
                   sample_world))
     = calls sample_world ++ [VerifyAccess wide_email (js "hunter2") (String_of_Z 7)].
Proof.
  apply (@wide_email_login_is_answered_500 reference_platform wide_login_request
           sample_env 1000000 sample_world wide_email (js "hunter2") 7
           (JObj [(js "valid", JBool true)]) (Val (JBool true)) 29992).
  - reflexivity.
  - vm_compute. reflexivity.
  - lia.
  - reflexivity.
  - reflexivity.
  - reflexivity.
  - left. reflexivity.
  - lia.
  - reflexivity.
  - reflexivity.
Defined.

(** A first read of the ratings of course 7. *)
Lemma ratings_read_fills_cache_witness :
  fst (@handleRatings reference_platform (ratings_query (js "7")) sample_env 1000000
         sample_world)
  = Ok (jsonResponse 200 sample_ratings (getCorsHeaders sample_env)).
Proof.
  apply (@ratings_read_fills_cache reference_platform (ratings_query (js "7"))
           sample_env 1000000 sample_world 7 (js "7") sample_ratings).
  - reflexivity.
  - reflexivity.
  - vm_compute. reflexivity.
  - reflexivity.
  - vm_compute. reflexivity.
  - vm_compute. reflexivity.
  - lia.
  - vm_compute. reflexivity.
  - reflexivity.
Defined.

Lemma foreign_origin_is_rejected_witness :
  @fetch reference_platform foreign_request sample_env 1000000 sample_world
  = (Respond (jsonResponse 403 (error_body (js "Origin not allowed")) []), sample_world).
Proof.
  apply (@foreign_origin_is_rejected reference_platform foreign_request sample_env
           1000000 sample_world (js "https://evil.example")).
  - reflexivity.
  - discriminate.
  - vm_compute. discriminate.
  - right. right. left. reflexivity.
  - vm_compute. discriminate.
Defined.

(** A login whose body is the four characters [null]. *)
Lemma null_body_is_answered_500_witness :
  fst (@fetch reference_platform
         (api_request (js "POST") (js "/api/paid/login") (Some (js "null")))
         sample_env 1000000 sample_world)
  = Respond (jsonResponse 500 (error_body (js "Internal server error")) []).
Proof.
  apply (@null_body_is_answered_500 reference_platform
           (api_request (js "POST") (js "/api/paid/login") (Some (js "null")))
           sample_env 1000000 sample_world (js "null")).
  - reflexivity.
  - reflexivity.
  - vm_compute. reflexivity.
  - reflexivity.
  - vm_compute. discriminate.
  - vm_compute. reflexivity.
  - left. split; [reflexivity | vm_compute; reflexivity].
Defined.

(** The first login attempt of a client. *)
Lemma rate_limit_report_witness :
  allowed (fst (checkRateLimit sample_ip (js "PAID_LOGIN") 1000000 ∅)) = true
  /\ remaining (fst (checkRateLimit sample_ip (js "PAID_LOGIN") 1000000 ∅)) = 5 - 1
  /\ resetAt (fst (checkRateLimit sample_ip (js "PAID_LOGIN") 1000000 ∅))
     = 1000000 + 60 * 1000.
Proof.
  apply (rate_limit_report sample_ip (js "PAID_LOGIN") {| window := 60; max := 5 |}
           1000000 ∅ eq_refl).
  reflexivity.
Defined.

(** Two clients that log in. *)
Lemma rate_limits_are_independent_witness :
  fst (checkRateLimit (js "198.51.100.7") (js "PAID_LOGIN") 1000500
         (snd (checkRateLimit sample_ip (js "PAID_LOGIN") 1000000 ∅)))
  = fst (checkRateLimit (js "198.51.100.7") (js "PAID_LOGIN") 1000500 ∅).
Proof.
  apply (rate_limits_are_independent sample_ip (js "198.51.100.7")
           (js "PAID_LOGIN") (js "PAID_LOGIN")
           {| window := 60; max := 5 |} {| window := 60; max := 5 |}).
  - reflexivity.
  - reflexivity.
  - right. vm_compute. discriminate.
Defined.

(** The address [?id=%2042%20]. *)
Lemma getCourseIdFromURL_spec_witness :
  getCourseIdFromURL (Some (js " 42 ")) = Some 42.
Proof.
  apply (getCourseIdFromURL_spec (js " 42 ") 42).
  - vm_compute. lia.
  - split; [vm_compute; discriminate|]. split; [vm_compute; reflexivity|].
    split; [vm_compute; reflexivity | lia].
Defined.

(** A path whose course segment is not a number, with a valid cookie. *)
Lemma gate_rejects_bad_course_id_witness :
  @handlePaidCourseGate reference_platform
    (gate_request (js "/course/paid/abc") (js "__paid_7=" ++ sample_token))
    sample_env 5000000 sample_world
  = (Ok not_found, sample_world).
Proof.
  apply (proj1 (@gate_rejects_bad_course_id reference_platform
                  (gate_request (js "/course/paid/abc")
                     (js "__paid_7=" ++ sample_token))
                  sample_env 5000000 sample_world)).
  intros Hprefix. apply parseInt_positive_iff in Hprefix.
  destruct Hprefix as (n & Hparse & _). vm_compute in Hparse. discriminate.
Defined.

(** C8, as stated, fails on a segment that is not a positive integer but
    starts with one: [12abc] is read as the course 12 and [3.5] as the
    course 3, and the gate answers with the login page of that course. *)
Lemma gate_accepts_digit_prefix :
  positive_integer_text (js "12abc") = false
  /\ @handlePaidCourseGate reference_platform
       (gate_request (js "/course/paid/12abc") []) sample_env 5000000 sample_world
     = (Ok (buildPaidLoginPage 12 None []), sample_world)
  /\ positive_integer_text (js "3.5") = false
  /\ @handlePaidCourseGate reference_platform
       (gate_request (js "/course/paid/3.5") []) sample_env 5000000 sample_world
     = (Ok (buildPaidLoginPage 3 None []), sample_world).
Proof. repeat split; vm_compute; reflexivity. Qed.


